(** * Run-lifecycle orchestration of the gateway: a shallow embedding

    The development follows the TypeScript sources:

    - [QueueOutcome]  : [resolveQueueOutcomeRunId], [emitFollowupQueueOutcome]
    - [Registry]      : the deferred Discord status registry and its event
                        bridge ([message-handler.process.ts], lines 107-261)
    - [Ctl]           : [createDiscordStatusReactionController]
                        ([message-handler.process.ts], lines 285-553)
    - [RSM]           : [createDiscordReactionStatusMachine]
                        ([reaction-status-machine.ts])
    - [SchemaRefresh] : the single-retry controller around an agent attempt
    - [Handler]       : the status logic of [processDiscordMessage]: ingress,
                        [onFollowupQueued], the [finally] block
    - [Draft]         : [updateDraftFromPartial], [flushDraft]

    JavaScript strings are sequences of UTF-16 code units; they are modelled
    as [list N].  The simulated clock is a [Z] (milliseconds).

    The three stateful objects (registry, controller, machine) are each a
    state record and a [step] function over the events that can reach the
    object on the single-threaded scheduler: a call of one of its
    operations, the run of one of its timers, one resumption of the closure
    at the head of its promise chain, and time passing.  One event is one
    uninterrupted stretch of JavaScript: the clock only moves in [Advance]
    events, and a timer only runs once the clock has reached its due time.
    That clock is the one the runtime schedules timers by.  The machine
    also reads [Date.now()], which is another clock; where a timer callback
    compares such a reading with an earlier one, the reading is an input of
    the event that runs the callback (see [RSM.softStallCallback]).
    [run] folds [step] over a list of events, so a statement about
    [run history (init t0)] is a statement about every reachable state. *)

From Stdlib Require Import ZArith NArith Bool Ascii Lia.
From stdpp Require Import base option list gmap strings.

Set Default Proof Using "Type".
Local Open Scope N_scope.

(** ** JavaScript strings *)

Abbreviation jsstring := (list N).

(** [String.prototype.trim] strips WhiteSpace and LineTerminator code points
    (ECMA-262, 22.1.3.32); all of them lie in the basic plane, so the test is
    on single code units. *)
Definition isJsWhiteSpace (c : N) : bool :=
  (c =? 0x09) || (c =? 0x0A) || (c =? 0x0B) || (c =? 0x0C) || (c =? 0x0D)
  || (c =? 0x20) || (c =? 0xA0) || (c =? 0x1680)
  || ((0x2000 <=? c) && (c <=? 0x200A))
  || (c =? 0x2028) || (c =? 0x2029) || (c =? 0x202F) || (c =? 0x205F)
  || (c =? 0x3000) || (c =? 0xFEFF).

Fixpoint trimStart (s : jsstring) : jsstring :=
  match s with
  | [] => []
  | c :: rest => if isJsWhiteSpace c then trimStart rest else s
  end.

Definition trimEnd (s : jsstring) : jsstring := rev (trimStart (rev s)).

Definition trim (s : jsstring) : jsstring := trimEnd (trimStart s).

(** JavaScript truthiness of a string: the empty string is falsy. *)
Definition truthy (s : jsstring) : bool :=
  match s with [] => false | _ :: _ => true end.

(** An ASCII literal as a JavaScript string. *)
Fixpoint js (s : string) : jsstring :=
  match s with
  | EmptyString => []
  | String a rest => N_of_ascii a :: js rest
  end.

(** [haystack.includes(needle)] on code units. *)
Fixpoint startsWith (needle s : jsstring) : bool :=
  match needle, s with
  | [], _ => true
  | _ :: _, [] => false
  | a :: needle', b :: s' => (a =? b) && startsWith needle' s'
  end.

Fixpoint includes (needle s : jsstring) : bool :=
  startsWith needle s ||
  match s with
  | [] => false
  | _ :: s' => includes needle s'
  end.

(** ASCII lower-casing, a stand-in for [toLowerCase] in concrete runs. *)
Definition asciiLower (s : jsstring) : jsstring :=
  map (λ c, if (65 <=? c) && (c <=? 90) then c + 32 else c) s.

(** ** Timer handles

    A variable of type [ReturnType<typeof setTimeout> | null] is [TNull], a
    handle whose callback is still scheduled ([TArmed due], [due] the absolute
    time at which it may run), or a stale handle whose callback has already
    run ([TSpent]).  [clearTimeout] only matters for an armed handle. *)
Inductive timer :=
| TNull
| TArmed (due : Z)
| TSpent.

#[global] Instance timer_eq_dec : EqDecision timer.
Proof. solve_decision. Defined.

Definition timerSet (t : timer) : bool :=
  match t with TNull => false | _ => true end.

Definition timerDue (now : Z) (t : timer) : bool :=
  match t with TArmed due => (due <=? now)%Z | _ => false end.

(** How a call completes: normally, or by throwing (for a promise: by
    rejecting). *)
Inductive completion (A : Type) :=
| Normal (a : A)
| Throw (e : string).
Arguments Normal {A} a.
Arguments Throw {A} e.

(** ** Queue outcomes ([resolveQueueOutcomeRunId], [emitFollowupQueueOutcome]) *)

Module QueueOutcome.

(** Modelled from the spec: the type [FollowupQueueOutcomeStatus] is
    imported from [types.js], which is not part of the sources; section 3
    lists its values. *)
Inductive FollowupQueueOutcomeStatus :=
| Queued | Skipped | Dropped | Merged | Failed.

Record FollowupQueueOutcome := {
  o_runId : jsstring;
  o_status : FollowupQueueOutcomeStatus;
  o_reason : jsstring;
}.

(** What the outcome callback does when it is called.  Its declared type is
    [(outcome) => Promise<void> | void]. *)
Inductive handlerResult :=
| ReturnsVoid
| ReturnsPromise (settles : completion unit)
| Throws (e : string).

Definition handler := FollowupQueueOutcome → handlerResult.

(** [FollowupRun]: only the fields the two functions read or write. *)
Record RunConfig := { runId : option jsstring }.
Record FollowupRun := {
  run : RunConfig;
  onQueueOutcome : option handler;
}.

(** [crypto.randomUUID()]: a version 4 UUID (RFC 4122) printed from 128
    random bits [rnd]. *)
Definition hexdigit (d : N) : N := if d <? 10 then 48 + d else 87 + d.
Definition hex2 (b : N) : jsstring := [hexdigit (b / 16 mod 16); hexdigit (b mod 16)].
Definition rndByte (rnd : N) (i : N) : N := (rnd / 256 ^ i) mod 256.
Definition dash : N := 45.

Definition randomUUID (rnd : N) : jsstring :=
  let b := rndByte rnd in
  hex2 (b 0) ++ hex2 (b 1) ++ hex2 (b 2) ++ hex2 (b 3) ++ [dash]
  ++ hex2 (b 4) ++ hex2 (b 5) ++ [dash]
  ++ hex2 (N.lor (N.land (b 6) 0x0f) 0x40) ++ hex2 (b 7) ++ [dash]
  ++ hex2 (N.lor (N.land (b 8) 0x3f) 0x80) ++ hex2 (b 9) ++ [dash]
  ++ hex2 (b 10) ++ hex2 (b 11) ++ hex2 (b 12) ++ hex2 (b 13)
  ++ hex2 (b 14) ++ hex2 (b 15).

(** [resolveQueueOutcomeRunId(run)]; [rnd] is the entropy [randomUUID]
    would draw.  Returns the identifier and the run as it is afterwards. *)
Definition resolveQueueOutcomeRunId (rnd : N) (r : FollowupRun)
  : jsstring * FollowupRun :=
  let existing := trim <$> runId (run r) in
  match existing with
  | Some e =>
      if truthy e then (e, r)
      else
        let generated := randomUUID rnd in
        (generated, {| run := {| runId := Some generated |};
                       onQueueOutcome := onQueueOutcome r |})
  | None =>
      let generated := randomUUID rnd in
      (generated, {| run := {| runId := Some generated |};
                     onQueueOutcome := onQueueOutcome r |})
  end.

(** The observable result of one [emitFollowupQueueOutcome] call. *)
Record emitResult := {
  e_completion : completion unit;          (* how the call itself completes *)
  e_run : FollowupRun;                     (* the run afterwards *)
  e_delivered : option FollowupQueueOutcome; (* argument the callback got *)
  e_unhandled : option string;             (* a rejection nobody handles *)
}.

(** [try { v = f() } catch { return }]. *)
Definition tryCall (r : handlerResult) : completion (option (completion unit)) :=
  match r with
  | Throws e => Throw e
  | ReturnsVoid => Normal None
  | ReturnsPromise p => Normal (Some p)
  end.

(** [void p.catch(() => {})]: the derived promise resolves whatever [p]
    does, and nothing observes it. *)
Definition promiseCatchIgnore (p : completion unit) : completion unit :=
  match p with
  | Normal _ => Normal ()
  | Throw _ => Normal ()
  end.

Definition unhandledOf (p : completion unit) : option string :=
  match p with Normal _ => None | Throw e => Some e end.

Definition emitFollowupQueueOutcome (rnd : N) (r : FollowupRun)
    (status : FollowupQueueOutcomeStatus) (reason : jsstring) : emitResult :=
  match onQueueOutcome r with
  | None =>
      {| e_completion := Normal (); e_run := r;
         e_delivered := None; e_unhandled := None |}
  | Some h =>
      let '(id, r1) := resolveQueueOutcomeRunId rnd r in
      let outcome := {| o_runId := id; o_status := status; o_reason := reason |} in
      match tryCall (h outcome) with
      | Throw _ =>
          (* catch { return; } *)
          {| e_completion := Normal (); e_run := r1;
             e_delivered := Some outcome; e_unhandled := None |}
      | Normal None =>
          {| e_completion := Normal (); e_run := r1;
             e_delivered := Some outcome; e_unhandled := None |}
      | Normal (Some p) =>
          {| e_completion := Normal (); e_run := r1;
             e_delivered := Some outcome;
             e_unhandled := unhandledOf (promiseCatchIgnore p) |}
      end
  end.

End QueueOutcome.

(** ** The deferred status registry and its event bridge *)

Module Registry.

Definition DISCORD_STATUS_DONE_HOLD_MS : Z := 1500.
Definition DISCORD_STATUS_DEFERRED_ERROR_RETRY_TTL_MS : Z := 45000.

(** [DeferredDiscordStatusEntry].  The controller and the optional
    [onLifecycleStart] callback are objects outside the registry: the
    controller is kept as a reference, the callback as a presence flag. *)
Record DeferredDiscordStatusEntry := {
  runId : jsstring;
  channelId : jsstring;
  messageId : jsstring;
  removeAckAfterReply : bool;
  controller : nat;
  onLifecycleStart : bool;
  retryCleanupTimer : timer;
}.

(** [Omit<DeferredDiscordStatusEntry, "retryCleanupTimer">]. *)
Record entryInput := {
  i_runId : jsstring;
  i_channelId : jsstring;
  i_messageId : jsstring;
  i_removeAckAfterReply : bool;
  i_controller : nat;
  i_onLifecycleStart : bool;
}.

(** What the registry does to the outside world, in order. *)
Inductive controllerCall :=
| SetThinking
| SetTool (name : option jsstring)
| SetRetryableError
| SetDone
| Clear
| RestoreInitial.

Inductive effect :=
| Call (ctl : nat) (c : controllerCall)   (* entry.controller.c() *)
| Sleep (ms : Z)                          (* await sleep(ms) *)
| LifecycleStarted (entry : nat)          (* entry.onLifecycleStart() *)
| Subscribed.                             (* onAgentEvent(listener) *)

(** Entries are JavaScript objects: the map holds references, the objects
    live in [heap], and the closure of a cleanup timer keeps the reference of
    the entry it was armed for. *)
Record state := {
  byRun : gmap jsstring nat;          (* DEFERRED_DISCORD_STATUS_BY_RUN *)
  heap : gmap nat DeferredDiscordStatusEntry;
  nextRef : nat;
  bridgeReady : bool;                 (* deferredDiscordStatusBridgeReady *)
  now : Z;
  trace : list effect;
}.

Definition init (t0 : Z) : state :=
  {| byRun := ∅; heap := ∅; nextRef := O; bridgeReady := false;
     now := t0; trace := [] |}.

Definition withTimer (t : timer) (e : DeferredDiscordStatusEntry)
  : DeferredDiscordStatusEntry :=
  {| runId := runId e; channelId := channelId e; messageId := messageId e;
     removeAckAfterReply := removeAckAfterReply e; controller := controller e;
     onLifecycleStart := onLifecycleStart e; retryCleanupTimer := t |}.

Definition setTimer (ref : nat) (t : timer) (s : state) : state :=
  {| byRun := byRun s; heap := alter (withTimer t) ref (heap s);
     nextRef := nextRef s; bridgeReady := bridgeReady s; now := now s;
     trace := trace s |}.

Definition setByRun (m : gmap jsstring nat) (s : state) : state :=
  {| byRun := m; heap := heap s; nextRef := nextRef s;
     bridgeReady := bridgeReady s; now := now s; trace := trace s |}.

Definition emit (l : list effect) (s : state) : state :=
  {| byRun := byRun s; heap := heap s; nextRef := nextRef s;
     bridgeReady := bridgeReady s; now := now s; trace := trace s ++ l |}.

Definition timerOf (ref : nat) (s : state) : timer :=
  match heap s !! ref with
  | Some e => retryCleanupTimer e
  | None => TNull
  end.

(** [clearDeferredDiscordRetryCleanup(entry)]. *)
Definition clearDeferredDiscordRetryCleanup (ref : nat) (s : state) : state :=
  if timerSet (timerOf ref s) then setTimer ref TNull s else s.

(** [unregisterDeferredDiscordStatus(runId)]: the entry returned, if any. *)
Definition unregisterDeferredDiscordStatus (rid : jsstring) (s : state)
  : option nat * state :=
  match byRun s !! rid with
  | None => (None, s)
  | Some ref =>
      let s1 := clearDeferredDiscordRetryCleanup ref s in
      (Some ref, setByRun (delete rid (byRun s1)) s1)
  end.

(** [scheduleDeferredDiscordRetryCleanup(entry)]. *)
Definition scheduleDeferredDiscordRetryCleanup (ref : nat) (s : state) : state :=
  let s1 := clearDeferredDiscordRetryCleanup ref s in
  setTimer ref (TArmed (now s1 + DISCORD_STATUS_DEFERRED_ERROR_RETRY_TTL_MS)) s1.

(** The callback of the cleanup timer armed for entry [ref]. *)
Definition cleanupCallback (ref : nat) (s : state) : state :=
  match heap s !! ref with
  | None => s
  | Some entry =>
      if decide (byRun s !! runId entry = Some ref) then
        setTimer ref TNull (setByRun (delete (runId entry) (byRun s)) s)
      else s
  end.

(** The runtime runs the timer of entry [ref] once it is due; the handle is
    stale from then on. *)
Definition fireCleanup (ref : nat) (s : state) : state :=
  if timerDue (now s) (timerOf ref s)
  then cleanupCallback ref (setTimer ref TSpent s)
  else s.

(** [settleDeferredDiscordStatus(entry, phase)]: the controller calls it
    makes, in order. *)
Definition settleDeferredDiscordStatus (entry : DeferredDiscordStatusEntry)
    (isError : bool) : list effect :=
  if isError then [Call (controller entry) SetRetryableError]
  else
    Call (controller entry) SetDone ::
    (if removeAckAfterReply entry
     then [Sleep DISCORD_STATUS_DONE_HOLD_MS; Call (controller entry) Clear]
     else [Call (controller entry) RestoreInitial]).

(** [terminateDeferredDiscordWaiting(entry)]. *)
Definition terminateDeferredDiscordWaiting (entry : DeferredDiscordStatusEntry)
  : list effect :=
  if removeAckAfterReply entry
  then [Call (controller entry) Clear]
  else [Call (controller entry) RestoreInitial].

(** An event on the agent event channel.  [phase] and [name] are [Some] when
    [evt.data.phase] / [evt.data.name] are strings. *)
Record agentEvent := {
  ev_runId : jsstring;
  ev_stream : jsstring;
  ev_phase : option jsstring;
  ev_name : option jsstring;
}.

Definition streq (a b : jsstring) : bool := bool_decide (a = b).

(** The listener installed by [ensureDeferredDiscordStatusBridge]. *)
Definition bridgeListener (evt : agentEvent) (s : state) : state :=
  match byRun s !! ev_runId evt with
  | None => s
  | Some ref =>
      match heap s !! ref with
      | None => s
      | Some entry =>
          let phase := default [] (ev_phase evt) in
          if streq (ev_stream evt) (js "lifecycle") then
            if streq phase (js "start") then
              let s1 := clearDeferredDiscordRetryCleanup ref s in
              emit ((if onLifecycleStart entry then [LifecycleStarted ref] else [])
                    ++ [Call (controller entry) SetThinking]) s1
            else if streq phase (js "error") then
              let s1 := scheduleDeferredDiscordRetryCleanup ref s in
              emit (settleDeferredDiscordStatus entry true) s1
            else if streq phase (js "end") then
              let s1 := (unregisterDeferredDiscordStatus (ev_runId evt) s).2 in
              emit (settleDeferredDiscordStatus entry false) s1
            else s
          else if streq (ev_stream evt) (js "tool")
                  && (streq phase (js "start") || streq phase (js "update")) then
            emit [Call (controller entry) (SetTool (ev_name evt))] s
          else s
      end
  end.

(** [ensureDeferredDiscordStatusBridge()]. *)
Definition ensureDeferredDiscordStatusBridge (s : state) : state :=
  if bridgeReady s then s
  else
    emit [Subscribed]
      {| byRun := byRun s; heap := heap s; nextRef := nextRef s;
         bridgeReady := true; now := now s; trace := trace s |}.

(** [registerDeferredDiscordStatus(entry)]. *)
Definition registerDeferredDiscordStatus (entry : entryInput) (s : state) : state :=
  let rid := trim (i_runId entry) in
  if negb (truthy rid) then s
  else
    let s1 := ensureDeferredDiscordStatusBridge s in
    let s2 := (unregisterDeferredDiscordStatus rid s1).2 in
    let ref := nextRef s2 in
    {| byRun := <[rid := ref]> (byRun s2);
       heap := <[ref := {| runId := rid; channelId := i_channelId entry;
                           messageId := i_messageId entry;
                           removeAckAfterReply := i_removeAckAfterReply entry;
                           controller := i_controller entry;
                           onLifecycleStart := i_onLifecycleStart entry;
                           retryCleanupTimer := TNull |}]> (heap s2);
       nextRef := S ref; bridgeReady := bridgeReady s2; now := now s2;
       trace := trace s2 |}.

(** The process as seen from outside: calls into the registry, events on the
    channel (delivered to the listener once it is subscribed), timers run by
    the runtime, and time passing. *)
Inductive event :=
| Register (entry : entryInput)
| Unregister (rid : jsstring)
| AgentEvent (evt : agentEvent)
| FireCleanup (ref : nat)
| Advance (dt : Z).

Definition step (ev : event) (s : state) : state :=
  match ev with
  | Register entry => registerDeferredDiscordStatus entry s
  | Unregister rid => (unregisterDeferredDiscordStatus rid s).2
  | AgentEvent evt => if bridgeReady s then bridgeListener evt s else s
  | FireCleanup ref => fireCleanup ref s
  | Advance dt =>
      {| byRun := byRun s; heap := heap s; nextRef := nextRef s;
         bridgeReady := bridgeReady s; now := (now s + Z.max 0 dt)%Z;
         trace := trace s |}
  end.

Definition run (evs : list event) (s : state) : state :=
  foldl (λ s ev, step ev s) s evs.

(** The states the process can be in: every key of the map leads to an
    entry object carrying that key as its [runId]; references are allocated
    in order; a cleanup timer is only ever pending for an entry that is in the
    map; and the bridge is subscribed as soon as the map has an entry. *)
Record wf (s : state) : Prop := {
  wf_key : ∀ rid ref, byRun s !! rid = Some ref →
           ∃ e, heap s !! ref = Some e ∧ runId e = rid;
  wf_fresh : ∀ ref e, heap s !! ref = Some e → (ref < nextRef s)%nat;
  wf_armed : ∀ ref e d, heap s !! ref = Some e →
             retryCleanupTimer e = TArmed d → byRun s !! runId e = Some ref;
  wf_bridge : ∀ rid ref, byRun s !! rid = Some ref → bridgeReady s = true;
}.

(** Events that concern neither the run identifier [rid] nor the entry
    object [ref]. *)
Definition quietFor (rid : jsstring) (ref : nat) (ev : event) : bool :=
  match ev with
  | Register entry => negb (bool_decide (trim (i_runId entry) = rid))
  | Unregister rid' => negb (bool_decide (rid' = rid))
  | AgentEvent evt => negb (bool_decide (ev_runId evt = rid))
  | FireCleanup ref' => negb (bool_decide (ref' = ref))
  | Advance _ => true
  end.

(** A sample entry, for concrete runs. *)
Definition sampleEntry (rid : string) (ctl : nat) : entryInput :=
  {| i_runId := js rid; i_channelId := js "chan"; i_messageId := js "msg";
     i_removeAckAfterReply := false; i_controller := ctl;
     i_onLifecycleStart := true |}.

Definition lifecycleEvent (rid : jsstring) (phase : string) : agentEvent :=
  {| ev_runId := rid; ev_stream := js "lifecycle"; ev_phase := Some (js phase);
     ev_name := None |}.

(** Counting subscriptions to the agent event channel in a trace. *)
Definition isSubscribed (f : effect) : bool :=
  match f with Subscribed => true | _ => false end.

Definition subscriptions (l : list effect) : nat :=
  length (List.filter isSubscribed l).

(** Effects that address the controller [ctl] or the entry object [ref]. *)
Definition concerns (ctl ref : nat) (f : effect) : bool :=
  match f with
  | Call c _ => bool_decide (c = ctl)
  | Sleep _ => true
  | LifecycleStarted r => bool_decide (r = ref)
  | Subscribed => false
  end.

(** The listener is subscribed before anything else happens, and once. *)
Definition bridged (s : state) : Prop :=
  if bridgeReady s
  then ∃ l, trace s = Subscribed :: l ∧ subscriptions l = 0%nat
  else trace s = [] ∧ byRun s = ∅.

Definition toolEvent (rid : jsstring) (phase : string) (name : option jsstring)
  : agentEvent :=
  {| ev_runId := rid; ev_stream := js "tool"; ev_phase := Some (js phase);
     ev_name := name |}.

End Registry.

(** ** Calls to the chat platform

    An external call either throws before returning a promise, or returns a
    promise that later resolves or rejects. *)
Inductive response :=
| Resolved
| Rejected (e : string)
| Thrown (e : string).

Definition failureOf (r : response) : option string :=
  match r with
  | Resolved => None
  | Rejected e => Some e
  | Thrown e => Some e
  end.

(** What a task on a promise chain does when it is resumed: it finishes, it
    suspends at its next [await], or it rejects. *)
Inductive outcome (T : Type) :=
| Done
| Suspend (t : T)
| Raise (e : string).
Arguments Done {T}.
Arguments Suspend {T} t.
Arguments Raise {T} e.

(** ** The status reaction controller of the message handler *)

Module Ctl.

Definition DISCORD_STATUS_THINKING_EMOJI : jsstring := [0xD83E; 0xDD14].
Definition DISCORD_STATUS_TOOL_EMOJI : jsstring := [0xD83D; 0xDEE0; 0xFE0F].
Definition DISCORD_STATUS_CODING_EMOJI : jsstring := [0xD83D; 0xDCBB].
Definition DISCORD_STATUS_WEB_EMOJI : jsstring := [0xD83C; 0xDF10].
Definition DISCORD_STATUS_DONE_EMOJI : jsstring := [0x2705].
Definition DISCORD_STATUS_ERROR_EMOJI : jsstring := [0x274C].
Definition DISCORD_STATUS_STALL_SOFT_EMOJI : jsstring := [0x23F3].
Definition DISCORD_STATUS_STALL_HARD_EMOJI : jsstring := [0x26A0; 0xFE0F].
Definition DISCORD_STATUS_DEBOUNCE_MS : Z := 150.
Definition DISCORD_STATUS_STALL_SOFT_MS : Z := 10000.
Definition DISCORD_STATUS_STALL_HARD_MS : Z := 30000.

Inductive DiscordStatusTransitionMode := Full | AckOnly.

#[global] Instance mode_eq_dec : EqDecision DiscordStatusTransitionMode.
Proof. solve_decision. Defined.

Inductive DiscordStatusSemanticPhase := PQueued | PWaiting | PActive | PTerminal.

#[global] Instance phase_eq_dec : EqDecision DiscordStatusSemanticPhase.
Proof. solve_decision. Defined.

Definition DISCORD_STATUS_PHASE_ORDER (p : DiscordStatusSemanticPhase) : Z :=
  match p with
  | PQueued => 0
  | PWaiting => 1
  | PActive => 2
  | PTerminal => 3
  end%Z.

Definition CODING_STATUS_TOOL_TOKENS : list jsstring :=
  [js "exec"; js "process"; js "read"; js "write"; js "edit";
   js "session_status"; js "bash"].

Definition WEB_STATUS_TOOL_TOKENS : list jsstring :=
  [js "web_search"; js "web-search"; js "web_fetch"; js "web-fetch"; js "browser"].

(** [resolveToolStatusEmoji(toolName)].  [toLowerCase] is the runtime's
    [String.prototype.toLowerCase]. *)
Definition resolveToolStatusEmoji (toLowerCase : jsstring → jsstring)
    (toolName : option jsstring) : jsstring :=
  let normalized := default [] ((λ n, toLowerCase (trim n)) <$> toolName) in
  if negb (truthy normalized) then DISCORD_STATUS_TOOL_EMOJI
  else if existsb (λ token, includes token normalized) WEB_STATUS_TOOL_TOKENS
  then DISCORD_STATUS_WEB_EMOJI
  else if existsb (λ token, includes token normalized) CODING_STATUS_TOOL_TOKENS
  then DISCORD_STATUS_CODING_EMOJI
  else DISCORD_STATUS_TOOL_EMOJI.

(** The parameters of [createDiscordStatusReactionController] that its logic
    reads ([channelId], [messageId] and [rest] only address the message). *)
Record params := {
  enabled : bool;
  transitionMode : DiscordStatusTransitionMode;
  initialEmoji : jsstring;
}.

(** The closures queued on [chain], at the points where they can be
    resumed.  A closure runs from one [await] of an external call to the
    next; the completion of the call it makes is recorded with the step that
    makes it, and the code behind the [await] runs in a later step, so that
    calls and timers can come in between. *)
Inductive task :=
| Apply (emoji : jsstring)
    (* the closure of [applyEmoji], not yet run *)
| ApplyReacted (emoji : jsstring) (previousEmoji : option jsstring)
    (* after [await reactMessageDiscord] *)
| ClearAll
    (* the closure of [clear], not yet run *)
| ClearLoop (rest : list jsstring).
    (* inside the [for] loop, after an [await removeReactionDiscord] *)

Inductive obs :=
| React (emoji : jsstring)          (* reactMessageDiscord was called *)
| Remove (emoji : jsstring)         (* removeReactionDiscord was called *)
| AckFailure (e : string).          (* logAckFailure *)

Record state := {
  activeEmoji : option jsstring;
  chain : list task;
  pendingEmoji : option jsstring;
  pendingTimer : timer;
  pendingAllowRegression : bool;
    (* [options?.allowInitialRegression] in the closure of [pendingTimer] *)
  finished : bool;
  semanticPhase : DiscordStatusSemanticPhase;
  softStallTimer : timer;
  hardStallTimer : timer;
  now : Z;
  log : list obs;
  escaped : list string;
    (* rejections of [chain] itself: what a caller awaiting it would catch *)
}.

Definition init (t0 : Z) : state :=
  {| activeEmoji := None; chain := []; pendingEmoji := None;
     pendingTimer := TNull; pendingAllowRegression := false;
     finished := false; semanticPhase := PQueued;
     softStallTimer := TNull; hardStallTimer := TNull;
     now := t0; log := []; escaped := [] |}.

Definition setActiveEmoji (v : option jsstring) (s : state) : state :=
  {| activeEmoji := v; chain := chain s; pendingEmoji := pendingEmoji s;
     pendingTimer := pendingTimer s;
     pendingAllowRegression := pendingAllowRegression s;
     finished := finished s; semanticPhase := semanticPhase s;
     softStallTimer := softStallTimer s; hardStallTimer := hardStallTimer s;
     now := now s; log := log s; escaped := escaped s |}.

Definition setChain (v : list task) (s : state) : state :=
  {| activeEmoji := activeEmoji s; chain := v; pendingEmoji := pendingEmoji s;
     pendingTimer := pendingTimer s;
     pendingAllowRegression := pendingAllowRegression s;
     finished := finished s; semanticPhase := semanticPhase s;
     softStallTimer := softStallTimer s; hardStallTimer := hardStallTimer s;
     now := now s; log := log s; escaped := escaped s |}.

Definition setPending (e : option jsstring) (t : timer) (allow : bool)
    (s : state) : state :=
  {| activeEmoji := activeEmoji s; chain := chain s; pendingEmoji := e;
     pendingTimer := t; pendingAllowRegression := allow;
     finished := finished s; semanticPhase := semanticPhase s;
     softStallTimer := softStallTimer s; hardStallTimer := hardStallTimer s;
     now := now s; log := log s; escaped := escaped s |}.

Definition setFinished (v : bool) (s : state) : state :=
  {| activeEmoji := activeEmoji s; chain := chain s;
     pendingEmoji := pendingEmoji s; pendingTimer := pendingTimer s;
     pendingAllowRegression := pendingAllowRegression s;
     finished := v; semanticPhase := semanticPhase s;
     softStallTimer := softStallTimer s; hardStallTimer := hardStallTimer s;
     now := now s; log := log s; escaped := escaped s |}.

Definition setSemanticPhase (v : DiscordStatusSemanticPhase) (s : state) : state :=
  {| activeEmoji := activeEmoji s; chain := chain s;
     pendingEmoji := pendingEmoji s; pendingTimer := pendingTimer s;
     pendingAllowRegression := pendingAllowRegression s;
     finished := finished s; semanticPhase := v;
     softStallTimer := softStallTimer s; hardStallTimer := hardStallTimer s;
     now := now s; log := log s; escaped := escaped s |}.

Definition setStallTimers (soft hard : timer) (s : state) : state :=
  {| activeEmoji := activeEmoji s; chain := chain s;
     pendingEmoji := pendingEmoji s; pendingTimer := pendingTimer s;
     pendingAllowRegression := pendingAllowRegression s;
     finished := finished s; semanticPhase := semanticPhase s;
     softStallTimer := soft; hardStallTimer := hard;
     now := now s; log := log s; escaped := escaped s |}.

Definition setNow (v : Z) (s : state) : state :=
  {| activeEmoji := activeEmoji s; chain := chain s;
     pendingEmoji := pendingEmoji s; pendingTimer := pendingTimer s;
     pendingAllowRegression := pendingAllowRegression s;
     finished := finished s; semanticPhase := semanticPhase s;
     softStallTimer := softStallTimer s; hardStallTimer := hardStallTimer s;
     now := v; log := log s; escaped := escaped s |}.

Definition addLog (l : list obs) (s : state) : state :=
  {| activeEmoji := activeEmoji s; chain := chain s;
     pendingEmoji := pendingEmoji s; pendingTimer := pendingTimer s;
     pendingAllowRegression := pendingAllowRegression s;
     finished := finished s; semanticPhase := semanticPhase s;
     softStallTimer := softStallTimer s; hardStallTimer := hardStallTimer s;
     now := now s; log := log s ++ l; escaped := escaped s |}.

Definition addEscaped (e : string) (s : state) : state :=
  {| activeEmoji := activeEmoji s; chain := chain s;
     pendingEmoji := pendingEmoji s; pendingTimer := pendingTimer s;
     pendingAllowRegression := pendingAllowRegression s;
     finished := finished s; semanticPhase := semanticPhase s;
     softStallTimer := softStallTimer s; hardStallTimer := hardStallTimer s;
     now := now s; log := log s; escaped := escaped s ++ [e] |}.

Section Controller.

Variable toLowerCase : jsstring → jsstring.
Variable p : params.

Definition transitionsAllowed : bool :=
  enabled p && bool_decide (transitionMode p = Full).

Definition hasReachedActivePhase (s : state) : bool :=
  (DISCORD_STATUS_PHASE_ORDER PActive <=? DISCORD_STATUS_PHASE_ORDER (semanticPhase s))%Z.

(** [transitionSemanticPhase(nextPhase)]: the answer and the state after. *)
Definition transitionSemanticPhase (nextPhase : DiscordStatusSemanticPhase)
    (s : state) : bool * state :=
  if bool_decide (semanticPhase s = PTerminal) then
    (bool_decide (nextPhase = PTerminal), s)
  else if (DISCORD_STATUS_PHASE_ORDER nextPhase
           <? DISCORD_STATUS_PHASE_ORDER (semanticPhase s))%Z then
    (false, s)
  else (true, setSemanticPhase nextPhase s).

(** [enqueue(work)]: [chain = chain.then(work).catch(logAckFailure)]. *)
Definition enqueue (work : task) (s : state) : state :=
  setChain (chain s ++ [work]) s.

Definition clearStallTimers (s : state) : state :=
  setStallTimers TNull TNull s.

Definition clearPendingDebounce (s : state) : state :=
  setPending None TNull (pendingAllowRegression s) s.

Definition applyEmoji (emoji : jsstring) (s : state) : state :=
  enqueue (Apply emoji) s.

(** The two guards of [requestEmoji] that protect the active phase. *)
Definition regressionBlocked (emoji : jsstring) (allowInitialRegression : bool)
    (s : state) : bool :=
  (hasReachedActivePhase s
   && bool_decide (emoji = DISCORD_STATUS_STALL_SOFT_EMOJI))
  || (hasReachedActivePhase s
      && bool_decide (emoji = initialEmoji p)
      && negb allowInitialRegression).

(** [requestEmoji(emoji, { immediate, allowInitialRegression })]. *)
Definition requestEmoji (emoji : jsstring) (immediate allowInitialRegression : bool)
    (s : state) : state :=
  if negb (enabled p) || negb (truthy emoji) then s
  else if regressionBlocked emoji allowInitialRegression s then s
  else if immediate then applyEmoji emoji (clearPendingDebounce s)
  else
    setPending (Some emoji) (TArmed (now s + DISCORD_STATUS_DEBOUNCE_MS))
      allowInitialRegression s.

(** The callback of [pendingTimer]. *)
Definition pendingCallback (s : state) : state :=
  let allow := pendingAllowRegression s in
  let emojiToApply := pendingEmoji s in
  let s1 := setPending None TNull allow s in
  match emojiToApply with
  | None => s1
  | Some e =>
      if negb (truthy e) || bool_decide (Some e = activeEmoji s1) then s1
      else if regressionBlocked e allow s1 then s1
      else applyEmoji e s1
  end.

(** The callbacks of the two stall timers. *)
Definition softStallCallback (s : state) : state :=
  if finished s then s
  else requestEmoji DISCORD_STATUS_STALL_SOFT_EMOJI true false s.

Definition hardStallCallback (s : state) : state :=
  if finished s then s
  else requestEmoji DISCORD_STATUS_STALL_HARD_EMOJI true false s.

Definition scheduleStallTimers (s : state) : state :=
  if negb transitionsAllowed || finished s then s
  else
    setStallTimers (TArmed (now s + DISCORD_STATUS_STALL_SOFT_MS))
                   (TArmed (now s + DISCORD_STATUS_STALL_HARD_MS))
                   (clearStallTimers s).

Definition setPhase (emoji : jsstring) (s : state) : state :=
  if negb transitionsAllowed || finished s then s
  else
    let '(ok, s1) := transitionSemanticPhase PActive s in
    if negb ok then s1
    else requestEmoji emoji false false (scheduleStallTimers s1).

Definition setWaiting (s : state) : state :=
  if negb transitionsAllowed || finished s then s
  else
    let '(ok, s1) := transitionSemanticPhase PWaiting s in
    if negb ok then s1
    else requestEmoji DISCORD_STATUS_STALL_SOFT_EMOJI true false (clearStallTimers s1).

Definition setTerminal (emoji : jsstring) (s : state) : state :=
  if negb transitionsAllowed then s
  else
    let '(ok, s1) := transitionSemanticPhase PTerminal s in
    if negb ok then s1
    else requestEmoji emoji true false (clearStallTimers (setFinished true s1)).

Definition setRetryableError (s : state) : state :=
  if negb transitionsAllowed || finished s then s
  else
    let '(ok, s1) := transitionSemanticPhase PActive s in
    if negb ok then s1
    else requestEmoji DISCORD_STATUS_ERROR_EMOJI true false (clearStallTimers s1).

Definition clear (s : state) : state :=
  if negb (enabled p) then s
  else enqueue ClearAll (clearPendingDebounce (clearStallTimers (setFinished true s))).

Definition restoreInitial (s : state) : state :=
  if negb (enabled p) then s
  else
    requestEmoji (initialEmoji p) true true
      (clearPendingDebounce (clearStallTimers (setFinished true s))).

Definition setQueued (s : state) : state :=
  if negb (enabled p) || finished s then s
  else if transitionsAllowed then
    let '(ok, s1) := transitionSemanticPhase PQueued s in
    if negb ok then s1
    else requestEmoji (initialEmoji p) true false (scheduleStallTimers s1)
  else requestEmoji (initialEmoji p) true false s.

(** [new Set<string>([...])] keeps the first occurrence of each element, in
    insertion order. *)
Fixpoint setOf (seen l : list jsstring) : list jsstring :=
  match l with
  | [] => []
  | x :: l' =>
      if bool_decide (x ∈ seen) then setOf seen l'
      else x :: setOf (x :: seen) l'
  end.

Definition cleanupCandidates (s : state) : list jsstring :=
  setOf []
    [initialEmoji p; default [] (activeEmoji s);
     DISCORD_STATUS_THINKING_EMOJI; DISCORD_STATUS_TOOL_EMOJI;
     DISCORD_STATUS_CODING_EMOJI; DISCORD_STATUS_WEB_EMOJI;
     DISCORD_STATUS_DONE_EMOJI; DISCORD_STATUS_ERROR_EMOJI;
     DISCORD_STATUS_STALL_SOFT_EMOJI; DISCORD_STATUS_STALL_HARD_EMOJI].

(** [for (const emoji of cleanupCandidates)]: skip falsy entries, remove the
    next one inside [try]/[catch]; [r] is how that call completes. *)
Fixpoint clearLoop (r : response) (rest : list jsstring) (s : state)
  : state * outcome task :=
  match rest with
  | [] => (s, Done)
  | emoji :: rest' =>
      if negb (truthy emoji) then clearLoop r rest' s
      else
        let s1 := addLog [Remove emoji] s in
        match failureOf r with
        | Some e => (addLog [AckFailure e] s1, Suspend (ClearLoop rest'))
        | None => (s1, Suspend (ClearLoop rest'))
        end
  end.

(** Resume the task at the head of the chain up to its next [await]; [r] is
    how the external call it makes there completes. *)
Definition runTask (r : response) (t : task) (s : state) : state * outcome task :=
  match t with
  | Apply emoji =>
      if negb (enabled p) || negb (truthy emoji)
         || bool_decide (activeEmoji s = Some emoji) then (s, Done)
      else
        let previousEmoji := activeEmoji s in
        let s1 := addLog [React emoji] s in
        match failureOf r with
        | Some e => (s1, Raise e)
        | None => (s1, Suspend (ApplyReacted emoji previousEmoji))
        end
  | ApplyReacted emoji previousEmoji =>
      let s1 := setActiveEmoji (Some emoji) s in
      match previousEmoji with
      | Some prev =>
          if truthy prev && negb (bool_decide (prev = emoji)) then
            let s2 := addLog [Remove prev] s1 in
            match failureOf r with
            | Some e => (s2, Raise e)
            | None => (s2, Done)
            end
          else (s1, Done)
      | None => (s1, Done)
      end
  | ClearAll =>
      let candidates := cleanupCandidates s in
      clearLoop r candidates (setActiveEmoji None s)
  | ClearLoop rest => clearLoop r rest s
  end.

(** [.catch((err) => logAckFailure(...))] on the chain. *)
Definition catchLog (x : state * outcome task) : state * outcome task :=
  match x with
  | (s, Raise e) => (addLog [AckFailure e] s, Done)
  | _ => x
  end.

(** One scheduling step of the chain. *)
Definition chainStep (r : response) (s : state) : state :=
  match chain s with
  | [] => s
  | t :: rest =>
      match catchLog (runTask r t s) with
      | (s1, Done) => setChain rest s1
      | (s1, Suspend t') => setChain (t' :: rest) s1
      | (s1, Raise e) => addEscaped e (setChain rest s1)
      end
  end.

(** Everything that can happen to one controller. *)
Inductive event :=
| SetQueued
| SetWaiting
| SetThinking
| SetTool (toolName : option jsstring)
| SetRetryableError
| SetDone
| SetError
| Clear
| RestoreInitial
| FirePending
| FireSoftStall
| FireHardStall
| ChainStep (r : response)
| Advance (dt : Z).

Definition step (ev : event) (s : state) : state :=
  match ev with
  | SetQueued => setQueued s
  | SetWaiting => setWaiting s
  | SetThinking => setPhase DISCORD_STATUS_THINKING_EMOJI s
  | SetTool toolName => setPhase (resolveToolStatusEmoji toLowerCase toolName) s
  | SetRetryableError => setRetryableError s
  | SetDone => setTerminal DISCORD_STATUS_DONE_EMOJI s
  | SetError => setTerminal DISCORD_STATUS_ERROR_EMOJI s
  | Clear => clear s
  | RestoreInitial => restoreInitial s
  | FirePending =>
      if timerDue (now s) (pendingTimer s) then pendingCallback s else s
  | FireSoftStall =>
      if timerDue (now s) (softStallTimer s)
      then softStallCallback (setStallTimers TSpent (hardStallTimer s) s)
      else s
  | FireHardStall =>
      if timerDue (now s) (hardStallTimer s)
      then hardStallCallback (setStallTimers (softStallTimer s) TSpent s)
      else s
  | ChainStep r => chainStep r s
  | Advance dt => setNow (now s + Z.max 0 dt)%Z s
  end.

Definition run (evs : list event) (s : state) : state :=
  foldl (λ s ev, step ev s) s evs.


(** The semantic phase after each event of a script. *)
Fixpoint phasesAlong (evs : list event) (s : state)
  : list DiscordStatusSemanticPhase :=
  match evs with
  | [] => []
  | ev :: evs' => semanticPhase (step ev s) :: phasesAlong evs' (step ev s)
  end.


End Controller.

Definition isCall (o : obs) : bool :=
  match o with React _ | Remove _ => true | AckFailure _ => false end.

(** What is logged after an external call that completed as [r]. *)
Definition reportOf (r : response) : list obs :=
  match failureOf r with
  | Some e => [AckFailure e]
  | None => []
  end.

(** The progress signals, and the events that are neither a controller call
    nor the firing of the soft (hard) stall timer. *)
Definition isProgress (ev : event) : bool :=
  match ev with SetThinking | SetTool _ => true | _ => false end.

Definition quietForSoft (ev : event) : bool :=
  match ev with
  | FirePending | FireHardStall | ChainStep _ | Advance _ => true
  | _ => false
  end.

Definition quietForHard (ev : event) : bool :=
  match ev with
  | FirePending | FireSoftStall | ChainStep _ | Advance _ => true
  | _ => false
  end.

Definition isChainStep (ev : event) : bool :=
  match ev with ChainStep _ => true | _ => false end.

(** A bound on the steps a closure in the chain still needs ([clear] tries
    at most ten icons). *)
Definition weight (t : task) : nat :=
  match t with
  | Apply _ => 2
  | ApplyReacted _ _ => 1
  | ClearAll => 12
  | ClearLoop rest => S (length rest)
  end.

Definition chainWeight (l : list task) : nat := sum_list (weight <$> l).


(** The icons of the reaction and removal calls recorded in a log. *)
Definition reactsOf (l : list obs) : list jsstring :=
  omap (λ o, match o with React e => Some e | _ => None end) l.

Definition removesOf (l : list obs) : list jsstring :=
  omap (λ o, match o with Remove e => Some e | _ => None end) l.

(** The icons the closures still queued have yet to react with. *)
Definition pendingReact (t : task) : list jsstring :=
  match t with Apply e => [e] | _ => [] end.

Definition pendingReacts (l : list task) : list jsstring :=
  concat (pendingReact <$> l).

(** The eight status icons [clear] tries to remove besides the initial and
    the active one. *)
Definition statusEmojis : list jsstring :=
  [DISCORD_STATUS_THINKING_EMOJI; DISCORD_STATUS_TOOL_EMOJI;
   DISCORD_STATUS_CODING_EMOJI; DISCORD_STATUS_WEB_EMOJI;
   DISCORD_STATUS_DONE_EMOJI; DISCORD_STATUS_ERROR_EMOJI;
   DISCORD_STATUS_STALL_SOFT_EMOJI; DISCORD_STATUS_STALL_HARD_EMOJI].

(** The icon a progress signal asks for. *)
Definition emojiOf (toLowerCase : jsstring → jsstring) (ev : event)
  : option jsstring :=
  match ev with
  | SetThinking => Some DISCORD_STATUS_THINKING_EMOJI
  | SetTool toolName => Some (resolveToolStatusEmoji toLowerCase toolName)
  | _ => None
  end.

(** A burst of progress signals: signals and time passing, no timer run. *)
Definition burstEvent (ev : event) : bool :=
  match ev with SetThinking | SetTool _ | Advance _ => true | _ => false end.


(** The fields the callback of a stall timer leaves alone. *)
Definition stallFrame (s s' : state) : Prop :=
  activeEmoji s' = activeEmoji s ∧ finished s' = finished s
  ∧ semanticPhase s' = semanticPhase s ∧ now s' = now s
  ∧ log s' = log s ∧ escaped s' = escaped s.

(** Everything but a further terminal call and [restoreInitial]. *)
Definition afterTerminal (ev : event) : bool :=
  match ev with SetDone | SetError | RestoreInitial => false | _ => true end.

(** The fields a step of the chain does not touch. *)
Definition sameControl (s s' : state) : Prop :=
  pendingEmoji s' = pendingEmoji s ∧ pendingTimer s' = pendingTimer s
  ∧ finished s' = finished s ∧ semanticPhase s' = semanticPhase s
  ∧ softStallTimer s' = softStallTimer s ∧ hardStallTimer s' = hardStallTimer s
  ∧ now s' = now s.

(** A closure that can only react with the icon [e0]. *)
Definition reactsOnlyWith (e0 : jsstring) (t : task) : Prop :=
  match t with
  | Apply e | ApplyReacted e _ => e = e0
  | ClearAll | ClearLoop _ => True
  end.

(** What holds of a controller that may not leave the acknowledgement. *)
Record ackOnly (e0 : jsstring) (s : state) : Prop := {
  ack_soft : softStallTimer s = TNull;
  ack_hard : hardStallTimer s = TNull;
  ack_pending : pendingEmoji s = None;
  ack_chain : Forall (reactsOnlyWith e0) (chain s);
  ack_log : Forall (λ e, e = e0) (reactsOf (log s));
}.


End Ctl.

(** ** The Discord reaction status machine *)

Module RSM.

(** [DiscordWorkEmoji], in the order of its declaration:
    eyes, brain, laptop, globe, tools, hourglass, warning, check mark, cross. *)
Inductive DiscordWorkEmoji :=
| Eyes | Brain | Laptop | Globe | Tools | Hourglass | Warning | Check | Cross.

#[global] Instance emoji_eq_dec : EqDecision DiscordWorkEmoji.
Proof. solve_decision. Defined.

Definition MIDDLE_STATE_DEBOUNCE_MS : Z := 700.
Definition STALL_SOFT_MS : Z := 10000.
Definition STALL_HARD_MS : Z := 30000.
Definition SUCCESS_HOLD_MS : Z := 1500.
Definition FAILURE_HOLD_MS : Z := 4000.

(** [resolveToolStateEmoji(toolText)]. *)
Definition resolveToolStateEmoji (toLowerCase : jsstring → jsstring)
    (toolText : option jsstring) : DiscordWorkEmoji :=
  let text := toLowerCase (default [] toolText) in
  if includes (js "web_search") text || includes (js "web-search") text
     || includes (js "web_fetch") text || includes (js "web-fetch") text
     || includes (js "browser") text
  then Globe
  else if includes (js "exec") text || includes (js "read") text
          || includes (js "write") text || includes (js "edit") text
          || includes (js "process") text
  then Laptop
  else Tools.

(** The closures queued on [lane], at the points where they can be
    resumed (see [Ctl.task] for the granularity). *)
Inductive taskBody :=
| SetEmoji (emoji : DiscordWorkEmoji)
    (* [setEmojiImmediate(emoji)], not yet run *)
| SetEmojiCleared (emoji : DiscordWorkEmoji)
    (* after [await params.clearReaction(previous)] *)
| SetEmojiSet (emoji : DiscordWorkEmoji)
    (* after [await params.setReaction(emoji)] *)
| ClearReaction (emoji : DiscordWorkEmoji).
    (* the closure queued by [dispose] *)

(** A queued closure, with what the caller awaiting it does next: [finish]
    arms [clearTimer] with its hold time, the other callers do nothing. *)
Record task := {
  body : taskBody;
  holdMs : option Z;
}.

Inductive obs :=
| CallSet (emoji : DiscordWorkEmoji)     (* params.setReaction(emoji) *)
| CallClear (emoji : DiscordWorkEmoji)   (* params.clearReaction(emoji) *)
| OnError (message : string).           (* params.onError(message) *)

Record state := {
  currentEmoji : option DiscordWorkEmoji;
  pendingMiddleEmoji : option DiscordWorkEmoji;
  lastProgressAt : Z;
  disposed : bool;
  terminal : bool;
  debounceTimer : timer;
  softStallTimer : timer;
  hardStallTimer : timer;
  clearTimer : timer;
  lane : list task;
  now : Z;
  log : list obs;
  escaped : list string;
    (* rejections of [lane] itself: what a caller awaiting it would catch *)
}.

Definition init (t0 : Z) : state :=
  {| currentEmoji := None; pendingMiddleEmoji := None; lastProgressAt := t0;
     disposed := false; terminal := false;
     debounceTimer := TNull; softStallTimer := TNull; hardStallTimer := TNull;
     clearTimer := TNull; lane := []; now := t0; log := []; escaped := [] |}.

Definition setCurrentEmoji (v : option DiscordWorkEmoji) (s : state) : state :=
  {| currentEmoji := v; pendingMiddleEmoji := pendingMiddleEmoji s;
     lastProgressAt := lastProgressAt s; disposed := disposed s;
     terminal := terminal s; debounceTimer := debounceTimer s;
     softStallTimer := softStallTimer s; hardStallTimer := hardStallTimer s;
     clearTimer := clearTimer s; lane := lane s; now := now s; log := log s;
     escaped := escaped s |}.

Definition setDebounce (e : option DiscordWorkEmoji) (t : timer) (s : state) : state :=
  {| currentEmoji := currentEmoji s; pendingMiddleEmoji := e;
     lastProgressAt := lastProgressAt s; disposed := disposed s;
     terminal := terminal s; debounceTimer := t;
     softStallTimer := softStallTimer s; hardStallTimer := hardStallTimer s;
     clearTimer := clearTimer s; lane := lane s; now := now s; log := log s;
     escaped := escaped s |}.

Definition setLastProgressAt (v : Z) (s : state) : state :=
  {| currentEmoji := currentEmoji s; pendingMiddleEmoji := pendingMiddleEmoji s;
     lastProgressAt := v; disposed := disposed s;
     terminal := terminal s; debounceTimer := debounceTimer s;
     softStallTimer := softStallTimer s; hardStallTimer := hardStallTimer s;
     clearTimer := clearTimer s; lane := lane s; now := now s; log := log s;
     escaped := escaped s |}.

Definition setDisposed (v : bool) (s : state) : state :=
  {| currentEmoji := currentEmoji s; pendingMiddleEmoji := pendingMiddleEmoji s;
     lastProgressAt := lastProgressAt s; disposed := v;
     terminal := terminal s; debounceTimer := debounceTimer s;
     softStallTimer := softStallTimer s; hardStallTimer := hardStallTimer s;
     clearTimer := clearTimer s; lane := lane s; now := now s; log := log s;
     escaped := escaped s |}.

Definition setTerminalFlag (v : bool) (s : state) : state :=
  {| currentEmoji := currentEmoji s; pendingMiddleEmoji := pendingMiddleEmoji s;
     lastProgressAt := lastProgressAt s; disposed := disposed s;
     terminal := v; debounceTimer := debounceTimer s;
     softStallTimer := softStallTimer s; hardStallTimer := hardStallTimer s;
     clearTimer := clearTimer s; lane := lane s; now := now s; log := log s;
     escaped := escaped s |}.

Definition setStallTimers (soft hard : timer) (s : state) : state :=
  {| currentEmoji := currentEmoji s; pendingMiddleEmoji := pendingMiddleEmoji s;
     lastProgressAt := lastProgressAt s; disposed := disposed s;
     terminal := terminal s; debounceTimer := debounceTimer s;
     softStallTimer := soft; hardStallTimer := hard;
     clearTimer := clearTimer s; lane := lane s; now := now s; log := log s;
     escaped := escaped s |}.

Definition setClearTimer (t : timer) (s : state) : state :=
  {| currentEmoji := currentEmoji s; pendingMiddleEmoji := pendingMiddleEmoji s;
     lastProgressAt := lastProgressAt s; disposed := disposed s;
     terminal := terminal s; debounceTimer := debounceTimer s;
     softStallTimer := softStallTimer s; hardStallTimer := hardStallTimer s;
     clearTimer := t; lane := lane s; now := now s; log := log s;
     escaped := escaped s |}.

Definition setLane (v : list task) (s : state) : state :=
  {| currentEmoji := currentEmoji s; pendingMiddleEmoji := pendingMiddleEmoji s;
     lastProgressAt := lastProgressAt s; disposed := disposed s;
     terminal := terminal s; debounceTimer := debounceTimer s;
     softStallTimer := softStallTimer s; hardStallTimer := hardStallTimer s;
     clearTimer := clearTimer s; lane := v; now := now s; log := log s;
     escaped := escaped s |}.

Definition setNow (v : Z) (s : state) : state :=
  {| currentEmoji := currentEmoji s; pendingMiddleEmoji := pendingMiddleEmoji s;
     lastProgressAt := lastProgressAt s; disposed := disposed s;
     terminal := terminal s; debounceTimer := debounceTimer s;
     softStallTimer := softStallTimer s; hardStallTimer := hardStallTimer s;
     clearTimer := clearTimer s; lane := lane s; now := v; log := log s;
     escaped := escaped s |}.

Definition addLog (l : list obs) (s : state) : state :=
  {| currentEmoji := currentEmoji s; pendingMiddleEmoji := pendingMiddleEmoji s;
     lastProgressAt := lastProgressAt s; disposed := disposed s;
     terminal := terminal s; debounceTimer := debounceTimer s;
     softStallTimer := softStallTimer s; hardStallTimer := hardStallTimer s;
     clearTimer := clearTimer s; lane := lane s; now := now s;
     log := log s ++ l; escaped := escaped s |}.

Definition addEscaped (e : string) (s : state) : state :=
  {| currentEmoji := currentEmoji s; pendingMiddleEmoji := pendingMiddleEmoji s;
     lastProgressAt := lastProgressAt s; disposed := disposed s;
     terminal := terminal s; debounceTimer := debounceTimer s;
     softStallTimer := softStallTimer s; hardStallTimer := hardStallTimer s;
     clearTimer := clearTimer s; lane := lane s; now := now s; log := log s;
     escaped := escaped s ++ [e] |}.

Section Machine.

Variable toLowerCase : jsstring → jsstring.
(** Whether [params.onError] was given. *)
Variable hasOnError : bool.

(** [params.onError?.(message)]. *)
Definition onError (message : string) (s : state) : state :=
  if hasOnError then addLog [OnError message] s else s.

Definition clearTimers (s : state) : state :=
  setClearTimer TNull
    (setStallTimers TNull TNull (setDebounce (pendingMiddleEmoji s) TNull s)).

(** [enqueue(task)]: [lane = lane.then(task).catch(onError)]. *)
Definition enqueue (b : taskBody) (hold : option Z) (s : state) : state :=
  setLane (lane s ++ [{| body := b; holdMs := hold |}]) s.

Definition scheduleMiddleState (emoji : DiscordWorkEmoji) (s : state) : state :=
  if disposed s || terminal s then s
  else if bool_decide (currentEmoji s = Some emoji)
          || bool_decide (pendingMiddleEmoji s = Some emoji) then s
  else setDebounce (Some emoji) (TArmed (now s + MIDDLE_STATE_DEBOUNCE_MS)) s.

(** The callback of [debounceTimer]. *)
Definition debounceCallback (s : state) : state :=
  let next := pendingMiddleEmoji s in
  let s1 := setDebounce None TNull s in
  match next with
  | None => s1
  | Some e =>
      if disposed s1 || terminal s1 || bool_decide (Some e = currentEmoji s1)
      then s1
      else enqueue (SetEmoji e) None s1
  end.

Definition scheduleStallChecks (s : state) : state :=
  if disposed s || terminal s then s
  else
    let elapsed := (now s - lastProgressAt s)%Z in
    let softIn := Z.max 0 (STALL_SOFT_MS - elapsed) in
    let hardIn := Z.max 0 (STALL_HARD_MS - elapsed) in
    setStallTimers (TArmed (now s + softIn)) (TArmed (now s + hardIn)) s.

(** The callbacks of the two stall timers.  [dateNow] is what [Date.now()]
    returns inside the callback.  The runtime does not run its timers by
    that clock: [now] is the time by which timers become due, [Date.now()]
    is the system clock, rounded on its own and open to adjustment, so the
    reading can fall short of (or exceed) the time the timer was armed
    for.  [lastProgressAt] is the reading taken when progress was marked;
    the model writes it on the scale of [now], and [dateNow] is on that
    same scale: [dateNow - lastProgressAt s] is the difference of the two
    readings of [Date.now()]. *)
Definition softStallCallback (dateNow : Z) (s : state) : state :=
  if disposed s || terminal s then s
  else if (STALL_SOFT_MS <=? dateNow - lastProgressAt s)%Z
  then scheduleMiddleState Hourglass s
  else s.

Definition hardStallCallback (dateNow : Z) (s : state) : state :=
  if disposed s || terminal s then s
  else if (STALL_HARD_MS <=? dateNow - lastProgressAt s)%Z
  then scheduleMiddleState Warning s
  else s.

(** [markProgress()]: [lastProgressAt = Date.now()], then
    [scheduleStallChecks()], which reads [Date.now()] again in the same
    turn; the two readings are taken as equal, and as the origin at which
    the scale of [Date.now()] meets that of [now]. *)
Definition markProgress (s : state) : state :=
  scheduleStallChecks (setLastProgressAt (now s) s).

Definition finish (emoji : DiscordWorkEmoji) (hold : Z) (s : state) : state :=
  if disposed s || terminal s then s
  else
    let s1 := setTerminalFlag true s in
    let s2 := if timerSet (debounceTimer s1) then setDebounce None TNull s1 else s1 in
    let s3 := setStallTimers TNull TNull s2 in
    enqueue (SetEmoji emoji) (Some hold) s3.

Definition start (s : state) : state :=
  if disposed s then s
  else enqueue (SetEmoji Eyes) None (markProgress s).

Definition thinking (s : state) : state :=
  if disposed s || terminal s then s
  else scheduleMiddleState Brain (markProgress s).

Definition tool (toolText : option jsstring) (s : state) : state :=
  if disposed s || terminal s then s
  else scheduleMiddleState (resolveToolStateEmoji toLowerCase toolText) (markProgress s).

Definition progress (s : state) : state :=
  if disposed s || terminal s then s
  else markProgress s.

Definition succeed (s : state) : state := finish Check SUCCESS_HOLD_MS s.

Definition fail (s : state) : state := finish Cross FAILURE_HOLD_MS s.

Definition dispose (s : state) : state :=
  if disposed s then s
  else
    let s1 := clearTimers (setDisposed true s) in
    let emoji := currentEmoji s1 in
    let s2 := setCurrentEmoji None s1 in
    match emoji with
    | None => s2
    | Some e => enqueue (ClearReaction e) None s2
    end.

(** [await params.setReaction(emoji).catch(onError)] and what follows. *)
Definition callSetReaction (r : response) (emoji : DiscordWorkEmoji) (s : state)
  : state * outcome taskBody :=
  let s1 := addLog [CallSet emoji] s in
  match r with
  | Thrown e => (s1, Raise e)
  | Rejected e =>
      (onError ("discord status set reaction failed: " +:+ e) s1,
       Suspend (SetEmojiSet emoji))
  | Resolved => (s1, Suspend (SetEmojiSet emoji))
  end.

(** Resume the closure at the head of the lane up to its next [await]; [r]
    is how the external call it makes there completes. *)
Definition runTask (r : response) (b : taskBody) (s : state)
  : state * outcome taskBody :=
  match b with
  | SetEmoji emoji =>
      if disposed s || bool_decide (Some emoji = currentEmoji s) then (s, Done)
      else
        match currentEmoji s with
        | Some previous =>
            let s1 := addLog [CallClear previous] s in
            match r with
            | Thrown e => (s1, Raise e)
            | Rejected e =>
                (onError ("discord status remove reaction failed: " +:+ e) s1,
                 Suspend (SetEmojiCleared emoji))
            | Resolved => (s1, Suspend (SetEmojiCleared emoji))
            end
        | None => callSetReaction r emoji s
        end
  | SetEmojiCleared emoji => callSetReaction r emoji s
  | SetEmojiSet emoji => (setCurrentEmoji (Some emoji) s, Done)
  | ClearReaction emoji =>
      let s1 := addLog [CallClear emoji] s in
      match r with
      | Thrown e => (s1, Raise e)
      | Rejected e =>
          (onError ("discord status clear reaction failed: " +:+ e) s1, Done)
      | Resolved => (s1, Done)
      end
  end.

(** [.catch((err) => params.onError?.(...))] on the lane. *)
Definition catchLane (x : state * outcome taskBody) : state * outcome taskBody :=
  match x with
  | (s, Raise e) => (onError ("discord status reaction failed: " +:+ e) s, Done)
  | _ => x
  end.

(** The caller awaiting a finished lane entry goes on. *)
Definition resumeCaller (hold : option Z) (s : state) : state :=
  match hold with
  | Some h => setClearTimer (TArmed (now s + h)) s
  | None => s
  end.

(** One scheduling step of the lane. *)
Definition laneStep (r : response) (s : state) : state :=
  match lane s with
  | [] => s
  | t :: rest =>
      match catchLane (runTask r (body t) s) with
      | (s1, Done) => resumeCaller (holdMs t) (setLane rest s1)
      | (s1, Suspend b') =>
          setLane ({| body := b'; holdMs := holdMs t |} :: rest) s1
      | (s1, Raise e) => addEscaped e (setLane rest s1)
      end
  end.

(** Everything that can happen to one machine. *)
Inductive event :=
| Start
| Thinking
| Tool (toolText : option jsstring)
| Progress
| Succeed
| Fail
| Dispose
| FireDebounce
| FireSoftStall (dateNow : Z)
    (* the runtime runs the soft stall timer; [Date.now()] reads [dateNow] *)
| FireHardStall (dateNow : Z)
| FireClear
| LaneStep (r : response)
| Advance (dt : Z).

Definition step (ev : event) (s : state) : state :=
  match ev with
  | Start => start s
  | Thinking => thinking s
  | Tool toolText => tool toolText s
  | Progress => progress s
  | Succeed => succeed s
  | Fail => fail s
  | Dispose => dispose s
  | FireDebounce =>
      if timerDue (now s) (debounceTimer s) then debounceCallback s else s
  | FireSoftStall dateNow =>
      if timerDue (now s) (softStallTimer s)
      then softStallCallback dateNow (setStallTimers TSpent (hardStallTimer s) s)
      else s
  | FireHardStall dateNow =>
      if timerDue (now s) (hardStallTimer s)
      then hardStallCallback dateNow (setStallTimers (softStallTimer s) TSpent s)
      else s
  | FireClear =>
      if timerDue (now s) (clearTimer s)
      then dispose (setClearTimer TSpent s)
      else s
  | LaneStep r => laneStep r s
  | Advance dt => setNow (now s + Z.max 0 dt)%Z s
  end.

Definition run (evs : list event) (s : state) : state :=
  foldl (λ s ev, step ev s) s evs.

End Machine.

(** The icons [setReaction] was called with, in order. *)
Definition setsOf (l : list obs) : list DiscordWorkEmoji :=
  mjoin ((λ o, match o with CallSet e => [e] | _ => [] end) <$> l).

(** The icons for which closures still in the lane may call [setReaction]. *)
Definition pendingSet (t : task) : list DiscordWorkEmoji :=
  match body t with
  | SetEmoji e | SetEmojiCleared e => [e]
  | SetEmojiSet _ | ClearReaction _ => []
  end.

Definition pendingSets (l : list task) : list DiscordWorkEmoji :=
  mjoin (pendingSet <$> l).

Definition isTerminalEmoji (e : DiscordWorkEmoji) : bool :=
  match e with Check | Cross => true | _ => false end.

(** The states the machine can be in: the pending middle-state icon is never
    a terminal one and, until [dispose], always has its debounce timer; and
    before a terminal call no terminal icon has been set or queued. *)
Record good (s : state) : Prop := {
  good_middle : ∀ e, pendingMiddleEmoji s = Some e → isTerminalEmoji e = false;
  good_debounce : disposed s = false → is_Some (pendingMiddleEmoji s) →
                  timerSet (debounceTimer s) = true;
  good_fresh : terminal s = false →
               ∀ e, e ∈ setsOf (log s) ++ pendingSets (lane s) →
                    isTerminalEmoji e = false;
}.

(** After the terminal call for icon [term]: either [term] has not been set
    yet and is the last icon the lane can still set, or the lane can set no
    icon any more and nothing was set after [term]. *)
Definition sealed (term : DiscordWorkEmoji) (s : state) : Prop :=
  terminal s = true
  ∧ (((term ∉ setsOf (log s))
      ∧ ∃ q, pendingSets (lane s) = q ++ [term] ∧ (term ∉ q))
     ∨ (pendingSets (lane s) = []
        ∧ ∀ l1 l2, setsOf (log s) = l1 ++ term :: l2 → l2 = [])).

Definition isStart (ev : event) : bool :=
  match ev with Start => true | _ => false end.

(** Steps a closure in the lane still needs. *)
Definition weight (t : task) : nat :=
  match body t with
  | SetEmoji _ => 3
  | SetEmojiCleared _ => 2
  | SetEmojiSet _ => 1
  | ClearReaction _ => 1
  end.

Definition laneWeight (l : list task) : nat := sum_list (weight <$> l).

Definition isCall (o : obs) : bool :=
  match o with CallSet _ | CallClear _ => true | OnError _ => false end.

(** What is reported after an external call that completed as [r]; [prefix]
    says which call it was. *)
Definition reportOf (hasOnError : bool) (prefix : string) (r : response) : list obs :=
  match failureOf r with
  | Some e => if hasOnError then [OnError (prefix +:+ e)] else []
  | None => []
  end.

(** The progress signals, and the events that are neither a call on the
    machine nor the firing of the soft (hard) stall timer or of the clear
    timer. *)
Definition isProgress (ev : event) : bool :=
  match ev with Thinking | Tool _ | Progress => true | _ => false end.

Definition quietForSoft (ev : event) : bool :=
  match ev with
  | FireDebounce | FireHardStall _ | LaneStep _ | Advance _ => true
  | _ => false
  end.

Definition quietForHard (ev : event) : bool :=
  match ev with
  | FireDebounce | FireSoftStall _ | LaneStep _ | Advance _ => true
  | _ => false
  end.

Definition isLaneStep (ev : event) : bool :=
  match ev with LaneStep _ => true | _ => false end.

(** An external call that returns a promise (it does not throw before). *)
Definition returnsPromise (r : response) : bool :=
  match r with Thrown _ => false | _ => true end.

(** The middle-state icon a signal asks for. *)
Definition middleOf (toLowerCase : jsstring → jsstring) (ev : event)
  : option DiscordWorkEmoji :=
  match ev with
  | Thinking => Some Brain
  | Tool toolText => Some (resolveToolStateEmoji toLowerCase toolText)
  | _ => None
  end.

(** A burst of progress signals: signals and time passing, no timer run. *)
Definition burstEvent (ev : event) : bool :=
  match ev with Thinking | Tool _ | Progress | Advance _ => true | _ => false end.

(** Until [dispose], a pending middle-state icon has its debounce timer
    armed, due within the debounce time. *)
Definition debounceBound (s : state) : Prop :=
  disposed s = false → is_Some (pendingMiddleEmoji s) →
  ∃ d, debounceTimer s = TArmed d ∧ (d ≤ now s + MIDDLE_STATE_DEBOUNCE_MS)%Z.

(** The fields the callback of a stall timer leaves alone. *)
Definition stallFrame (s s' : state) : Prop :=
  currentEmoji s' = currentEmoji s ∧ lastProgressAt s' = lastProgressAt s
  ∧ disposed s' = disposed s ∧ terminal s' = terminal s
  ∧ clearTimer s' = clearTimer s ∧ lane s' = lane s ∧ now s' = now s
  ∧ log s' = log s ∧ escaped s' = escaped s.

(** The icons [clearReaction] was called with, in order. *)
Definition clearsOf (l : list obs) : list DiscordWorkEmoji :=
  omap (λ o, match o with CallClear e => Some e | _ => None end) l.

End RSM.

(** ** The schema-refresh retry controller *)

Module SchemaRefresh.

(** The result of one attempt of the agent engine (section 6):
    [{ promptError?: Error, lastAssistant?: { stopReason, errorMessage } }]. *)
Record assistantTurn := {
  stopReason : jsstring;
  errorMessage : option jsstring;
}.

Record attemptResult := {
  promptError : option jsstring;       (* message of the top-level error *)
  lastAssistant : option assistantTurn;
}.

Inductive source := PromptErrorSource | AssistantErrorSource.

Inductive logEntry :=
| WarnUnknownToolDetected (src : source)
| InfoRefreshing (src : source).

Inductive runOutcome :=
| Returned (r : attemptResult)
| Failed (error : jsstring).

Record runResult := {
  outcome : runOutcome;
  calls : list bool;        (* [refreshToolSchema] of each attempt, in order *)
  logs : list logEntry;
}.

Section Controller.

(** The two message patterns, ["unknown tool: <name>"] and
    ['tool "<name>" is not available']. *)
Variable matchesUnknownTool : jsstring → bool.
Variable matchesToolNotAvailable : jsstring → bool.

(** The engine: what the [n]-th attempt returns when it is run with the
    given [refreshToolSchema]. *)
Variable attemptFn : nat → bool → attemptResult.

(** Modelled from the spec: the classification of section 4.4 (the function
    that implements it, in [run.ts], is not part of the sources).  A result
    is an unknown-tool failure when (a) its top-level error matches the
    unknown-tool pattern, or (b) there is no top-level error and the last
    assistant turn ended with an error whose text matches the
    not-available pattern. *)
Definition classify (r : attemptResult) : option source :=
  match promptError r with
  | Some e => if matchesUnknownTool e then Some PromptErrorSource else None
  | None =>
      match lastAssistant r with
      | Some a =>
          if bool_decide (stopReason a = js "error")
             && from_option matchesToolNotAvailable false (errorMessage a)
          then Some AssistantErrorSource
          else None
      | None => None
      end
  end.

(** An attempt's top-level error is what the run fails with. *)
Definition outcomeOf (r : attemptResult) : runOutcome :=
  match promptError r with
  | Some e => Failed e
  | None => Returned r
  end.

(** Modelled from the spec: the algorithm of section 4.4
    ([runEmbeddedPiAgent] itself is not part of the sources, only its test
    is).  [budget] is the number of retries still allowed. *)
Fixpoint attemptLoop (budget : nat) (n : nat) (refreshToolSchema : bool) : runResult :=
  let r := attemptFn n refreshToolSchema in
  match classify r, budget with
  | Some src, S budget' =>
      let rest := attemptLoop budget' (S n) true in
      {| outcome := outcome rest;
         calls := refreshToolSchema :: calls rest;
         logs := WarnUnknownToolDetected src :: InfoRefreshing src :: logs rest |}
  | _, _ =>
      {| outcome := outcomeOf r; calls := [refreshToolSchema]; logs := [] |}
  end.

Definition retryBudget : nat := 1.

Definition runWithSchemaRefresh : runResult := attemptLoop retryBudget 0 false.

End Controller.

End SchemaRefresh.

(** Sample patterns for the scenarios of the test suite: the two message
    patterns read as substring tests. *)
Definition sampleUnknownTool (m : jsstring) : bool :=
  includes (js "unknown tool: ") m.

Definition sampleToolNotAvailable (m : jsstring) : bool :=
  includes (js "tool " ++ [34]) m && includes (34 :: js " is not available") m.

(** ['tool "plugin_search" is not available'] (34 is the double quote). *)
Definition samplePluginSearchMessage : jsstring :=
  js "tool " ++ [34] ++ js "plugin_search" ++ [34] ++ js " is not available".

(** ** The status indicator in [processDiscordMessage]

    The part of the message handler that drives its status controller and
    the deferred registry: the choice at ingress, the progress callbacks,
    [onFollowupQueued], and the [finally] block around the dispatch
    ([message-handler.process.ts], lines 607-657 and 1145-1293). *)

Module Handler.

Definition DISCORD_STATUS_DONE_HOLD_MS : Z := 1500.
Definition DISCORD_STATUS_ERROR_HOLD_MS : Z := 2500.

(** What the status logic reads of the message and of the configuration.
    [ackGate] is the answer of [shouldAckReactionGate], [statusReactionModeOff]
    is [cfg.messages?.statusReactionMode === "off"]. *)
Record params := {
  ackReaction : jsstring;
  ackGate : bool;
  statusReactionModeOff : bool;
  removeAckAfterReply : bool;
  messageChannelId : jsstring;
  messageId : jsstring;
}.

(** [shouldAckReaction()]: [Boolean(ackReaction && shouldAckReactionGate(..))]. *)
Definition statusReactionsEnabled (h : params) : bool :=
  truthy (ackReaction h) && ackGate h.

Definition statusTransitionMode (h : params) : Ctl.DiscordStatusTransitionMode :=
  if statusReactionModeOff h then Ctl.AckOnly else Ctl.Full.

Definition statusTransitionsEnabled (h : params) : bool :=
  statusReactionsEnabled h && bool_decide (statusTransitionMode h = Ctl.Full).

(** The parameters [statusReactions] is created with. *)
Definition controllerParams (h : params) : Ctl.params :=
  {| Ctl.enabled := statusReactionsEnabled h;
     Ctl.transitionMode := statusTransitionMode h;
     Ctl.initialEmoji := ackReaction h |}.

(** The calls made on [statusReactions] at ingress; [sessionRunActive] and
    [laneBusy] are the answers of [isDiscordSessionRunActive] and
    [isDiscordSessionLaneBusy], which are only asked when transitions are
    enabled. *)
Definition ingress (h : params) (sessionRunActive laneBusy : bool)
  : list Ctl.event :=
  let sessionActiveAtIngress := statusTransitionsEnabled h && sessionRunActive in
  let sessionLaneBusyAtIngress := statusTransitionsEnabled h && laneBusy in
  let shouldShowWaitingAtIngress :=
    sessionActiveAtIngress || sessionLaneBusyAtIngress in
  if statusReactionsEnabled h then
    if shouldShowWaitingAtIngress && statusTransitionsEnabled h
    then [Ctl.SetWaiting]
    else [Ctl.SetQueued]
  else [].

(** [onReplyStart] / [onReasoningStream], and [onToolStart]. *)
Definition onReasoningStream (h : params) : list Ctl.event :=
  if statusTransitionsEnabled h then [Ctl.SetThinking] else [].

Definition onToolStart (h : params) (name : option jsstring) : list Ctl.event :=
  if statusTransitionsEnabled h then [Ctl.SetTool name] else [].

(** The argument of [onFollowupQueued]; [status] is compared as a string. *)
Record outcome := {
  o_runId : jsstring;
  o_status : jsstring;
  o_reason : jsstring;
}.

(** The three variables of the handler the callbacks share. *)
Record vars := {
  deferredQueueOutcome : option outcome;
  deferredLifecycleStarted : bool;
  waitingTerminatedByOutcome : bool;
}.

Definition initVars : vars :=
  {| deferredQueueOutcome := None; deferredLifecycleStarted := false;
     waitingTerminatedByOutcome := false |}.

Definition setDeferredQueueOutcome (o : outcome) (v : vars) : vars :=
  {| deferredQueueOutcome := Some o;
     deferredLifecycleStarted := deferredLifecycleStarted v;
     waitingTerminatedByOutcome := waitingTerminatedByOutcome v |}.

Definition setWaitingTerminated (v : vars) : vars :=
  {| deferredQueueOutcome := deferredQueueOutcome v;
     deferredLifecycleStarted := deferredLifecycleStarted v;
     waitingTerminatedByOutcome := true |}.

(** [onFollowupQueued({ runId, status, reason })].  [self] is the reference
    of the handler's own controller; the calls made through a registry entry
    are recorded in the trace of the registry. *)
Definition onFollowupQueued (h : params) (self : nat) (o : outcome)
    (x : vars * Registry.state) : vars * Registry.state :=
  let '(v, reg) := x in
  if negb (statusReactionsEnabled h) then (v, reg)
  else
    let normalizedRunId := trim (o_runId o) in
    if negb (truthy normalizedRunId) then (v, reg)
    else
      let v1 := setDeferredQueueOutcome
                  {| o_runId := normalizedRunId; o_status := o_status o;
                     o_reason := o_reason o |} v in
      if bool_decide (o_status o = js "queued") then
        (v1, Registry.registerDeferredDiscordStatus
               {| Registry.i_runId := normalizedRunId;
                  Registry.i_channelId := messageChannelId h;
                  Registry.i_messageId := messageId h;
                  Registry.i_removeAckAfterReply := removeAckAfterReply h;
                  Registry.i_controller := self;
                  Registry.i_onLifecycleStart := true |} reg)
      else
        match Registry.unregisterDeferredDiscordStatus normalizedRunId reg with
        | (Some ref, reg1) =>
            match Registry.heap reg1 !! ref with
            | Some deferredEntry =>
                (setWaitingTerminated v1,
                 Registry.emit
                   (Registry.terminateDeferredDiscordWaiting deferredEntry) reg1)
            | None => (v1, reg1)   (* a reference always has its object *)
            end
        | (None, reg1) => (v1, reg1)
        end.

(** What the [finally] block does with [statusReactions]: the calls it makes
    in order, and the call it leaves to a detached task that first sleeps. *)
Record finalisation := {
  f_vars : vars;
  f_calls : list Ctl.event;
  f_later : option (Z * Ctl.event);
}.

(** The [finally] block.  [deferredLifecycleStarted] is read twice, before
    and after the awaited calls: [startedMeanwhile] says whether the
    [onLifecycleStart] callback of the handler's entry ran while a call was
    awaited. *)
Definition finallyBlock (h : params) (dispatchError startedMeanwhile : bool)
    (v : vars) : finalisation :=
  if negb (statusReactionsEnabled h) then
    {| f_vars := v; f_calls := []; f_later := None |}
  else
    let outcomeStatus :=
      if negb dispatchError then o_status <$> deferredQueueOutcome v else None in
    let queuedOrDeferred := bool_decide (outcomeStatus = Some (js "queued")) in
    let nonQueuedOutcome :=
      match outcomeStatus with
      | Some st => negb (bool_decide (st = js "queued"))
      | None => false
      end in
    let deferredInProgress :=
      negb dispatchError && queuedOrDeferred && deferredLifecycleStarted v in
    let '(calls, v1) :=
      if dispatchError then
        (if statusTransitionsEnabled h then [Ctl.SetError] else [], v)
      else if nonQueuedOutcome then
        if negb (waitingTerminatedByOutcome v) then
          ([if removeAckAfterReply h then Ctl.Clear else Ctl.RestoreInitial],
           setWaitingTerminated v)
        else ([], v)
      else if statusTransitionsEnabled h then
        if deferredInProgress then ([], v)
        else if queuedOrDeferred then ([Ctl.SetWaiting], v)
        else ([Ctl.SetDone], v)
      else ([], v) in
    let startedNow :=
      deferredLifecycleStarted v
      || (startedMeanwhile && negb (bool_decide (calls = []))) in
    let waitingState := negb dispatchError && queuedOrDeferred && negb startedNow in
    if removeAckAfterReply h then
      if negb waitingState && negb deferredInProgress && negb nonQueuedOutcome then
        let holdMs := if dispatchError then DISCORD_STATUS_ERROR_HOLD_MS
                      else DISCORD_STATUS_DONE_HOLD_MS in
        {| f_vars := v1; f_calls := calls; f_later := Some (holdMs, Ctl.Clear) |}
      else {| f_vars := v1; f_calls := calls; f_later := None |}
    else if statusTransitionsEnabled h && negb queuedOrDeferred
            && negb deferredInProgress && negb nonQueuedOutcome then
      {| f_vars := v1; f_calls := calls ++ [Ctl.RestoreInitial]; f_later := None |}
    else {| f_vars := v1; f_calls := calls; f_later := None |}.

(** The calls that finish the indicator or take icons off. *)
Definition isCleanup (ev : Ctl.event) : bool :=
  match ev with
  | Ctl.SetDone | Ctl.SetError | Ctl.Clear | Ctl.RestoreInitial => true
  | _ => false
  end.

End Handler.

(** ** The draft preview in [processDiscordMessage]

    [updateDraftFromPartial], [flushDraft] and the reset done by
    [onAssistantMessageStart] / [onReasoningEnd]
    ([message-handler.process.ts], lines 911-1042 and 1168-1189).  The block
    chunker is an object of another module: it is kept abstract, as a state
    with the four methods the handler calls. *)

Module Draft.

(** [discordConfig?.streamMode ?? "off"]. *)
Inductive DiscordStreamMode := Off | Partial | Block.

#[global] Instance streamMode_eq_dec : EqDecision DiscordStreamMode.
Proof. solve_decision. Defined.

(** [draftChunking] says whether [resolveDiscordDraftStreamingChunking]
    answered with a configuration. *)
Record params := {
  discordStreamMode : DiscordStreamMode;
  accountBlockStreamingEnabled : bool;
  draftChunking : bool;
}.

Definition canStreamDraft (p : params) : bool :=
  negb (bool_decide (discordStreamMode p = Off))
  && negb (accountBlockStreamingEnabled p).

(** Whether [draftChunker] is an object. *)
Definition hasDraftChunker (p : params) : bool :=
  canStreamDraft p && bool_decide (discordStreamMode p = Block)
  && draftChunking p.

Definition shouldSplitPreviewMessages (p : params) : bool :=
  bool_decide (discordStreamMode p = Block).

(** The calls made on [draftStream]. *)
Inductive call :=
| Update (text : jsstring)
| ForceNewMessage.

Section Chunker.

(** [EmbeddedBlockChunker]: its state and the methods used. *)
Variable chunker : Type.
Variable chunkerReset : chunker → chunker.
Variable chunkerAppend : jsstring → chunker → chunker.
(** [drain({ force, emit })]: the chunks handed to [emit], in order. *)
Variable chunkerDrain : bool → chunker → list jsstring * chunker.
Variable chunkerHasBuffered : chunker → bool.

Variable p : params.

Record state := {
  lastPartialText : jsstring;
  draftText : jsstring;
  hasStreamedMessage : bool;
  draftChunker : chunker;
  calls : list call;
}.

Definition setLastPartialText (v : jsstring) (s : state) : state :=
  {| lastPartialText := v; draftText := draftText s;
     hasStreamedMessage := hasStreamedMessage s;
     draftChunker := draftChunker s; calls := calls s |}.

Definition setDraftText (v : jsstring) (s : state) : state :=
  {| lastPartialText := lastPartialText s; draftText := v;
     hasStreamedMessage := hasStreamedMessage s;
     draftChunker := draftChunker s; calls := calls s |}.

Definition setHasStreamedMessage (v : bool) (s : state) : state :=
  {| lastPartialText := lastPartialText s; draftText := draftText s;
     hasStreamedMessage := v;
     draftChunker := draftChunker s; calls := calls s |}.

Definition setDraftChunker (v : chunker) (s : state) : state :=
  {| lastPartialText := lastPartialText s; draftText := draftText s;
     hasStreamedMessage := hasStreamedMessage s;
     draftChunker := v; calls := calls s |}.

Definition addCall (c : call) (s : state) : state :=
  {| lastPartialText := lastPartialText s; draftText := draftText s;
     hasStreamedMessage := hasStreamedMessage s;
     draftChunker := draftChunker s; calls := calls s ++ [c] |}.

(** [draftChunker?.reset()]. *)
Definition resetChunker (s : state) : state :=
  if hasDraftChunker p then setDraftChunker (chunkerReset (draftChunker s)) s
  else s.

(** The [emit] callback of [updateDraftFromPartial], once per chunk:
    [draftText += chunk; draftStream.update(draftText)]. *)
Fixpoint emitChunks (chunks : list jsstring) (s : state) : state :=
  match chunks with
  | [] => s
  | chunk :: rest =>
      let text := draftText s ++ chunk in
      emitChunks rest (addCall (Update text) (setDraftText text s))
  end.

(** [updateDraftFromPartial(text)]. *)
Definition updateDraftFromPartial (text : option jsstring) (s : state) : state :=
  match text with
  | None => s
  | Some text =>
      if negb (canStreamDraft p) || negb (truthy text) then s
      else if bool_decide (text = lastPartialText s) then s
      else
        let s1 := setHasStreamedMessage true s in
        if bool_decide (discordStreamMode p = Partial) then
          if truthy (lastPartialText s1)
             && startsWith text (lastPartialText s1)
             && (length text <? length (lastPartialText s1))%nat
          then s1
          else addCall (Update text) (setLastPartialText text s1)
        else
          let '(delta, s2) :=
            if startsWith (lastPartialText s1) text
            then (drop (length (lastPartialText s1)) text, s1)
            else (text, setDraftText [] (resetChunker s1)) in
          let s3 := setLastPartialText text s2 in
          if negb (truthy delta) then s3
          else if negb (hasDraftChunker p) then
            addCall (Update text) (setDraftText text s3)
          else
            let '(chunks, c) :=
              chunkerDrain false (chunkerAppend delta (draftChunker s3)) in
            emitChunks chunks (setDraftChunker c s3)
  end.

(** [flushDraft()], up to its [await draftStream.flush()]; the [emit]
    callback here only extends [draftText]. *)
Definition flushDraft (s : state) : state :=
  if negb (canStreamDraft p) then s
  else if hasDraftChunker p && chunkerHasBuffered (draftChunker s) then
    let '(chunks, c) := chunkerDrain true (draftChunker s) in
    let s1 := setDraftText (draftText s ++ concat chunks) (setDraftChunker c s) in
    let s2 := setDraftChunker (chunkerReset (draftChunker s1)) s1 in
    if truthy (draftText s2) then addCall (Update (draftText s2)) s2 else s2
  else s.

(** [onAssistantMessageStart] and [onReasoningEnd] (the same body). *)
Definition onAssistantMessageStart (s : state) : state :=
  if negb (canStreamDraft p) then s
  else
    let s1 := if shouldSplitPreviewMessages p && hasStreamedMessage s
              then addCall ForceNewMessage s else s in
    resetChunker (setDraftText [] (setLastPartialText [] s1)).

(** The texts a run of calls hands to [draftStream.update], in order. *)
Definition updatesOf (l : list call) : list jsstring :=
  omap (λ c, match c with Update t => Some t | ForceNewMessage => None end) l.

(** Every text of [l] is non-empty and is not a prefix of (in particular,
    not equal to) the one before it, [prev] being the one before the first. *)
Fixpoint neverShrinks (prev : jsstring) (l : list jsstring) : bool :=
  match l with
  | [] => true
  | u :: l' => truthy u && negb (startsWith u prev) && neverShrinks u l'
  end.

(** Every text of [l] extends the one before it. *)
Fixpoint onlyGrows (prev : jsstring) (l : list jsstring) : bool :=
  match l with
  | [] => true
  | u :: l' => startsWith prev u && onlyGrows u l'
  end.

(** The drafts after one, two, ... of the chunks have been appended. *)
Fixpoint accumulate (base : jsstring) (chunks : list jsstring) : list jsstring :=
  match chunks with
  | [] => []
  | chunk :: rest => (base ++ chunk) :: accumulate (base ++ chunk) rest
  end.

End Chunker.

Arguments lastPartialText {chunker} _.
Arguments draftText {chunker} _.
Arguments hasStreamedMessage {chunker} _.
Arguments draftChunker {chunker} _.
Arguments calls {chunker} _.
Arguments setLastPartialText {chunker} _ _.
Arguments setDraftText {chunker} _ _.
Arguments setHasStreamedMessage {chunker} _ _.
Arguments setDraftChunker {chunker} _ _.
Arguments addCall {chunker} _ _.
Arguments emitChunks {chunker} _ _.

End Draft.

(** * Properties *)

(** ** Trimming *)

Lemma not_whitespace_between (c : N) :
  48 ≤ c ≤ 102 → isJsWhiteSpace c = false.
Proof.
  intros Hc. unfold isJsWhiteSpace.
  repeat (apply orb_false_intro);
    try (apply N.eqb_neq; lia).
  apply andb_false_intro1, N.leb_gt. lia.
Qed.

Lemma trimStart_whitespace (s : jsstring) :
  forallb isJsWhiteSpace s = true → trimStart s = [].
Proof.
  induction s as [|c s IH]; simpl; [done|].
  intros [Hc Hs]%andb_prop. rewrite Hc. by apply IH.
Qed.

Lemma trim_whitespace (s : jsstring) :
  forallb isJsWhiteSpace s = true → trim s = [].
Proof.
  intros H. unfold trim. by rewrite (trimStart_whitespace s H).
Qed.

Lemma trim_fixed (s : jsstring) (a z : N) :
  head s = Some a → last s = Some z →
  isJsWhiteSpace a = false → isJsWhiteSpace z = false →
  trim s = s.
Proof.
  intros Hhead Hlast Ha Hz.
  apply last_Some in Hlast as [m ->].
  assert (Hstart : trimStart (m ++ [z]) = m ++ [z]).
  { destruct m as [|b m]; simpl in *; simplify_eq; by rewrite ?Hz, ?Ha. }
  unfold trim, trimEnd. rewrite Hstart, rev_app_distr. simpl.
  rewrite Hz. change (z :: rev m) with ([z] ++ rev m).
  by rewrite rev_app_distr, rev_involutive.
Qed.

(** ** [resolveQueueOutcomeRunId] and [emitFollowupQueueOutcome] *)

Section QueueOutcomeProperties.

Import QueueOutcome.

Lemma hexdigit_not_whitespace (d : N) :
  isJsWhiteSpace (hexdigit (d mod 16)) = false.
Proof.
  apply not_whitespace_between. unfold hexdigit.
  pose proof (N.mod_upper_bound d 16 ltac:(lia)) as Hd.
  generalize dependent (d mod 16). intros x Hx.
  destruct (N.ltb_spec x 10); lia.
Qed.

(** A generated identifier is not empty and survives [trim] unchanged. *)
Lemma randomUUID_trim (rnd : N) :
  trim (randomUUID rnd) = randomUUID rnd ∧ truthy (randomUUID rnd) = true.
Proof.
  split; [|done].
  eapply trim_fixed; [reflexivity|reflexivity|..]; apply hexdigit_not_whitespace.
Qed.

Lemma resolve_existing (rnd : N) (r : FollowupRun) (e : jsstring) :
  runId (run r) = Some e → truthy (trim e) = true →
  resolveQueueOutcomeRunId rnd r = (trim e, r).
Proof.
  intros He Ht. unfold resolveQueueOutcomeRunId. rewrite He. simpl. by rewrite Ht.
Qed.

Lemma resolve_generated (rnd : N) (r : FollowupRun) :
  from_option (λ e, truthy (trim e)) false (runId (run r)) = false →
  resolveQueueOutcomeRunId rnd r
  = (randomUUID rnd, {| run := {| runId := Some (randomUUID rnd) |};
                        onQueueOutcome := onQueueOutcome r |}).
Proof.
  unfold resolveQueueOutcomeRunId. destruct (runId (run r)) as [e|]; simpl; [|done].
  by intros ->.
Qed.

Example resolve_keeps_padded_id :
  resolveQueueOutcomeRunId 7
    {| run := {| runId := Some (js " run-1 ") |}; onQueueOutcome := None |}
  = (js "run-1",
     {| run := {| runId := Some (js " run-1 ") |}; onQueueOutcome := None |}).
Proof. reflexivity. Qed.

Example resolve_generates_for_blank_id :
  (resolveQueueOutcomeRunId 0
     {| run := {| runId := Some (js "  ") |}; onQueueOutcome := None |}).1
  = js "00000000-0000-4000-8000-000000000000".
Proof. reflexivity. Qed.

(** C4.  [resolveQueueOutcomeRunId] returns the run's trimmed identifier,
    leaving the run as it is, whenever that trimmed identifier is not empty;
    otherwise it returns a generated identifier and stores it in the run.
    A second call on the run as the first call left it returns the same
    identifier and changes nothing, whatever entropy is available to it. *)
Theorem resolveQueueOutcomeRunId_stable (rnd rnd' : N) (r : FollowupRun) :
  let existing := from_option trim [] (runId (run r)) in
  let first := resolveQueueOutcomeRunId rnd r in
  let second := resolveQueueOutcomeRunId rnd' first.2 in
  (if truthy existing
   then first = (existing, r)
   else first = (randomUUID rnd,
                 {| run := {| runId := Some (randomUUID rnd) |};
                    onQueueOutcome := onQueueOutcome r |}))
  ∧ second = first.
Proof.
  destruct r as [[rid] h]. cbn zeta.
  assert (Hgen : ∀ h',
    resolveQueueOutcomeRunId rnd'
      {| run := {| runId := Some (randomUUID rnd) |}; onQueueOutcome := h' |}
    = (randomUUID rnd,
       {| run := {| runId := Some (randomUUID rnd) |}; onQueueOutcome := h' |})).
  { intros h'. destruct (randomUUID_trim rnd) as [Hfix Hne].
    erewrite resolve_existing; [|reflexivity|]; by rewrite Hfix. }
  destruct rid as [e|]; simpl.
  - destruct (truthy (trim e)) eqn:Ht.
    + erewrite !resolve_existing; [done|done..].
    + rewrite (resolve_generated rnd); [|simpl; by rewrite Ht]. simpl.
      by rewrite Hgen.
  - rewrite (resolve_generated rnd); [|done]. simpl. by rewrite Hgen.
Qed.

Example emit_with_throwing_handler :
  let r := {| run := {| runId := Some (js "a") |};
              onQueueOutcome := Some (λ _, Throws "boom") |} in
  emitFollowupQueueOutcome 0 r Failed (js "pre-start-fail:x")
  = {| e_completion := Normal (); e_run := r;
       e_delivered := Some {| o_runId := js "a"; o_status := Failed;
                              o_reason := js "pre-start-fail:x" |};
       e_unhandled := None |}.
Proof. reflexivity. Qed.

(** C5.  [emitFollowupQueueOutcome] always completes normally and leaves
    no rejection unhandled, whatever the callback does (return, throw, or
    return a promise that resolves or rejects).  Without a callback the run
    is left untouched and nothing is delivered; with one, the callback is
    called once with the resolved run identifier, the status and the
    reason. *)
Theorem emitFollowupQueueOutcome_swallows (rnd : N) (r : FollowupRun)
    (status : FollowupQueueOutcomeStatus) (reason : jsstring) :
  let res := emitFollowupQueueOutcome rnd r status reason in
  e_completion res = Normal ()
  ∧ e_unhandled res = None
  ∧ match onQueueOutcome r with
    | None => e_run res = r ∧ e_delivered res = None
    | Some h =>
        e_run res = (resolveQueueOutcomeRunId rnd r).2
        ∧ e_delivered res
          = Some {| o_runId := (resolveQueueOutcomeRunId rnd r).1;
                    o_status := status; o_reason := reason |}
    end.
Proof.
  unfold emitFollowupQueueOutcome.
  destruct (onQueueOutcome r) as [h|]; [|done].
  destruct (resolveQueueOutcomeRunId rnd r) as [id r1]. simpl.
  destruct (h _) as [|[[]|e]|e]; done.
Qed.

End QueueOutcomeProperties.

(** ** The schema-refresh retry controller *)

Section SchemaRefreshProperties.

Import SchemaRefresh.

Variable matchesUnknownTool : jsstring → bool.
Variable matchesToolNotAvailable : jsstring → bool.
Variable attemptFn : nat → bool → attemptResult.

Local Abbreviation classify' := (classify matchesUnknownTool matchesToolNotAvailable).
Local Abbreviation run' :=
  (runWithSchemaRefresh matchesUnknownTool matchesToolNotAvailable attemptFn).

Lemma classify_spec (r : attemptResult) :
  is_Some (classify' r) ↔
  (∃ e, promptError r = Some e ∧ matchesUnknownTool e = true)
  ∨ (promptError r = None
     ∧ ∃ a m, lastAssistant r = Some a ∧ stopReason a = js "error"
              ∧ errorMessage a = Some m ∧ matchesToolNotAvailable m = true).
Proof.
  unfold classify. destruct r as [[e|] la]; simpl.
  - destruct (matchesUnknownTool e) eqn:He; split.
    + intros _. left. eauto.
    + eauto.
    + by intros [? [=]].
    + intros [(e' & [= <-] & ?)|[[=] _]]. congruence.
  - destruct la as [[sr [m|]]|]; simpl.
    + case_bool_decide as Hsr; simpl.
      * destruct (matchesToolNotAvailable m) eqn:Hm; split.
        -- intros _. right. split; [done|]. eexists _, _. eauto.
        -- eauto.
        -- by intros [? [=]].
        -- intros [(e' & [=] & ?)|[_ (a & m' & [= <-] & _ & [= <-] & ?)]].
           simpl in *. congruence.
      * split; [by intros [? [=]]|].
        intros [(e' & [=] & ?)|[_ (a & m' & [= <-] & ? & _)]]. done.
    + rewrite andb_false_r. split; [by intros [? [=]]|].
      intros [(e' & [=] & ?)|[_ (a & m' & [= <-] & _ & [=] & _)]].
    + split; [by intros [? [=]]|].
      intros [(e' & [=] & ?)|[_ (a & m' & [=] & _)]].
Qed.

Lemma run_unfold :
  run' =
  match classify' (attemptFn 0%nat false) with
  | Some src =>
      {| outcome := outcomeOf (attemptFn 1%nat true);
         calls := [false; true];
         logs := [WarnUnknownToolDetected src; InfoRefreshing src] |}
  | None =>
      {| outcome := outcomeOf (attemptFn 0%nat false); calls := [false];
         logs := [] |}
  end.
Proof.
  unfold runWithSchemaRefresh, retryBudget. simpl.
  destruct (classify' (attemptFn 0%nat false)); [|done].
  by destruct (classify' (attemptFn 1%nat true)).
Qed.

(** C2.  The controller first runs the attempt with [refreshToolSchema =
    false].  It runs a second attempt, with [refreshToolSchema = true], if
    and only if the first one is an unknown-tool failure: its top-level
    error matches the unknown-tool pattern, or it has no top-level error and
    its last assistant turn ended with an error whose text matches the
    not-available pattern.  There is never a third attempt.  A first attempt
    whose top-level error does not match is not retried, whatever the
    assistant text says, and the run fails with that error; when the retry
    has a top-level error, the run fails with the retry's error. *)
Theorem runWithSchemaRefresh_retries_once :
  let first := attemptFn 0%nat false in
  let retry := attemptFn 1%nat true in
  let unknownTool :=
    (∃ e, promptError first = Some e ∧ matchesUnknownTool e = true)
    ∨ (promptError first = None
       ∧ ∃ a m, lastAssistant first = Some a ∧ stopReason a = js "error"
                ∧ errorMessage a = Some m ∧ matchesToolNotAvailable m = true) in
  head (calls run') = Some false
  ∧ (unknownTool ↔ calls run' = [false; true])
  ∧ (¬ unknownTool ↔ calls run' = [false])
  ∧ (unknownTool → outcome run' = outcomeOf retry)
  ∧ (¬ unknownTool → outcome run' = outcomeOf first)
  ∧ (∀ e, promptError first = Some e → matchesUnknownTool e = false →
          calls run' = [false] ∧ outcome run' = Failed e)
  ∧ (∀ e, unknownTool → promptError retry = Some e →
          calls run' = [false; true] ∧ outcome run' = Failed e).
Proof.
  cbn zeta. rewrite run_unfold.
  pose proof (classify_spec (attemptFn 0%nat false)) as Hspec.
  destruct (classify' (attemptFn 0%nat false)) as [src|] eqn:Hc; simpl.
  - assert (Hu := proj1 Hspec (mk_is_Some _ _ eq_refl)).
    split_and!.
    + done.
    + done.
    + split; [by intros Hn|done].
    + done.
    + by intros Hn.
    + intros e He Hne.
      destruct Hu as [(e' & He' & Hm)|[Hnone _]]; congruence.
    + intros e _ He. unfold outcomeOf. by rewrite He.
  - assert (Hnu : ¬ is_Some (@None source)) by (by intros [? [=]]).
    rewrite Hspec in Hnu.
    split_and!.
    + done.
    + split; [by intros Hu|done].
    + done.
    + by intros Hu.
    + done.
    + intros e He _. unfold outcomeOf. by rewrite He.
    + by intros e Hu.
Qed.

End SchemaRefreshProperties.

(** The three scenarios of the test suite. *)
Example refresh_after_unknown_tool :
  let engine (n : nat) (refresh : bool) :=
    if refresh
    then {| SchemaRefresh.promptError := None; SchemaRefresh.lastAssistant := None |}
    else {| SchemaRefresh.promptError := Some (js "unknown tool: plugin_search");
            SchemaRefresh.lastAssistant := None |} in
  SchemaRefresh.calls
    (SchemaRefresh.runWithSchemaRefresh sampleUnknownTool sampleToolNotAvailable engine)
  = [false; true].
Proof. reflexivity. Qed.

Example no_refresh_after_transport_error :
  let r := {| SchemaRefresh.promptError := Some (js "transport disconnected");
              SchemaRefresh.lastAssistant :=
                Some {| SchemaRefresh.stopReason := js "error";
                        SchemaRefresh.errorMessage :=
                          Some samplePluginSearchMessage |} |} in
  SchemaRefresh.runWithSchemaRefresh sampleUnknownTool sampleToolNotAvailable (λ _ _, r)
  = {| SchemaRefresh.outcome := SchemaRefresh.Failed (js "transport disconnected");
       SchemaRefresh.calls := [false]; SchemaRefresh.logs := [] |}.
Proof. reflexivity. Qed.

Example refresh_after_assistant_error :
  let engine (n : nat) (refresh : bool) :=
    if refresh
    then {| SchemaRefresh.promptError := None; SchemaRefresh.lastAssistant := None |}
    else {| SchemaRefresh.promptError := None;
            SchemaRefresh.lastAssistant :=
              Some {| SchemaRefresh.stopReason := js "error";
                      SchemaRefresh.errorMessage :=
                        Some samplePluginSearchMessage |} |} in
  let res := SchemaRefresh.runWithSchemaRefresh sampleUnknownTool
               sampleToolNotAvailable engine in
  SchemaRefresh.calls res = [false; true]
  ∧ SchemaRefresh.logs res
    = [SchemaRefresh.WarnUnknownToolDetected SchemaRefresh.AssistantErrorSource;
       SchemaRefresh.InfoRefreshing SchemaRefresh.AssistantErrorSource].
Proof. split; reflexivity. Qed.

Example no_third_attempt :
  let r := {| SchemaRefresh.promptError := Some (js "unknown tool: plugin_search");
              SchemaRefresh.lastAssistant := None |} in
  let res := SchemaRefresh.runWithSchemaRefresh sampleUnknownTool
               sampleToolNotAvailable (λ _ _, r) in
  SchemaRefresh.calls res = [false; true]
  ∧ SchemaRefresh.outcome res = SchemaRefresh.Failed (js "unknown tool: plugin_search").
Proof. split; reflexivity. Qed.

(** ** The deferred status registry *)

Section RegistryProperties.

Import Registry.

Lemma heap_setTimer (ref ref' : nat) (t : timer) (s : state) :
  heap (setTimer ref t s) !! ref'
  = if decide (ref = ref') then withTimer t <$> heap s !! ref' else heap s !! ref'.
Proof.
  unfold setTimer; simpl. case_decide as H.
  - subst. apply lookup_alter_eq.
  - by apply lookup_alter_ne.
Qed.

Lemma timerOf_setTimer (ref : nat) (t : timer) (s : state) :
  is_Some (heap s !! ref) → timerOf ref (setTimer ref t s) = t.
Proof.
  intros [e He]. unfold timerOf. rewrite heap_setTimer, decide_True by done.
  by rewrite He.
Qed.

Lemma wf_init (t0 : Z) : wf (init t0).
Proof. split; simpl; intros *; by rewrite ?lookup_empty. Qed.

Lemma wf_emit (l : list effect) (s : state) : wf s → wf (emit l s).
Proof. intros [H1 H2 H3 H4]. split; simpl; eauto. Qed.

(** Changing the timer of an entry keeps the state well formed, as long as
    a timer is only armed for an entry that is in the map. *)
Lemma wf_setTimer (ref : nat) (t : timer) (s : state) :
  wf s →
  (∀ d e, t = TArmed d → heap s !! ref = Some e → byRun s !! runId e = Some ref) →
  wf (setTimer ref t s).
Proof.
  intros [H1 H2 H3 H4] Harm. split.
  - intros rid r Hr. simpl in Hr. destruct (H1 _ _ Hr) as (e & He & Hid).
    rewrite heap_setTimer. case_decide; subst; rewrite He; simpl; eauto.
  - intros r e. rewrite heap_setTimer. case_decide; [|by eauto].
    destruct (heap s !! r) eqn:Hr; [|done]. intros _. simpl. eauto.
  - intros r e d. rewrite heap_setTimer. case_decide as Hd; [|by eauto].
    subst. destruct (heap s !! r) as [e0|] eqn:Hr; [|done].
    intros [= <-]. simpl. intros ->. eauto.
  - exact H4.
Qed.

(** Removing a key keeps the state well formed, as long as no timer is
    pending for the entry it led to. *)
Lemma wf_delete (rid : jsstring) (s : state) :
  wf s →
  (∀ ref e d, byRun s !! rid = Some ref → heap s !! ref = Some e →
              retryCleanupTimer e ≠ TArmed d) →
  wf (setByRun (delete rid (byRun s)) s).
Proof.
  intros [H1 H2 H3 H4] Hidle. split; simpl.
  - intros r ref [_ Hr]%lookup_delete_Some. eauto.
  - exact H2.
  - intros ref e d He Ht. pose proof (H3 _ _ _ He Ht) as Hreg.
    rewrite lookup_delete_ne; [done|]. intros ->.
    by eapply Hidle.
  - intros r ref [_ Hr]%lookup_delete_Some. eauto.
Qed.

Lemma wf_clearRetry (ref : nat) (s : state) :
  wf s → wf (clearDeferredDiscordRetryCleanup ref s).
Proof.
  intros Hwf. unfold clearDeferredDiscordRetryCleanup.
  destruct (timerSet _); [|done]. by apply wf_setTimer.
Qed.

Lemma clearRetry_byRun (ref : nat) (s : state) :
  byRun (clearDeferredDiscordRetryCleanup ref s) = byRun s.
Proof. unfold clearDeferredDiscordRetryCleanup. by destruct (timerSet _). Qed.

Lemma clearRetry_timer (ref : nat) (s : state) :
  timerOf ref (clearDeferredDiscordRetryCleanup ref s) = TNull.
Proof.
  unfold clearDeferredDiscordRetryCleanup.
  destruct (timerSet (timerOf ref s)) eqn:Hset.
  - apply timerOf_setTimer. unfold timerOf in Hset.
    destruct (heap s !! ref); [by eauto|done].
  - by destruct (timerOf ref s).
Qed.

Lemma clearRetry_heap_ne (ref ref' : nat) (s : state) :
  ref ≠ ref' →
  heap (clearDeferredDiscordRetryCleanup ref s) !! ref' = heap s !! ref'.
Proof.
  intros Hne. unfold clearDeferredDiscordRetryCleanup.
  destruct (timerSet _); [|done]. by rewrite heap_setTimer, decide_False.
Qed.

Lemma clearRetry_heap_eq (ref : nat) (s : state) (e : DeferredDiscordStatusEntry) :
  heap s !! ref = Some e →
  heap (clearDeferredDiscordRetryCleanup ref s) !! ref = Some (withTimer TNull e).
Proof.
  intros He. unfold clearDeferredDiscordRetryCleanup, timerOf. rewrite He.
  destruct (retryCleanupTimer e) eqn:Ht; simpl.
  - rewrite He. destruct e; simpl in *; by subst.
  - by rewrite lookup_alter_eq, He.
  - by rewrite lookup_alter_eq, He.
Qed.

Lemma wf_unregister (rid : jsstring) (s : state) :
  wf s → wf (unregisterDeferredDiscordStatus rid s).2.
Proof.
  intros Hwf. unfold unregisterDeferredDiscordStatus.
  destruct (byRun s !! rid) as [ref|] eqn:Hr; [|done]. simpl.
  apply wf_delete; [by apply wf_clearRetry|].
  intros ref' e d. rewrite clearRetry_byRun, Hr. intros [= <-] He Ht.
  pose proof (clearRetry_timer ref s) as Hnull. unfold timerOf in Hnull.
  rewrite He in Hnull. congruence.
Qed.

Lemma unregister_byRun (rid : jsstring) (s : state) :
  byRun (unregisterDeferredDiscordStatus rid s).2 = delete rid (byRun s).
Proof.
  unfold unregisterDeferredDiscordStatus.
  destruct (byRun s !! rid) as [ref|] eqn:Hr; simpl.
  - by rewrite clearRetry_byRun.
  - by rewrite delete_id.
Qed.

Lemma unregister_heap_ne (rid : jsstring) (ref' : nat) (s : state) :
  byRun s !! rid ≠ Some ref' →
  heap (unregisterDeferredDiscordStatus rid s).2 !! ref' = heap s !! ref'.
Proof.
  unfold unregisterDeferredDiscordStatus.
  destruct (byRun s !! rid) as [ref|] eqn:Hr; simpl; [|done].
  intros Hne. apply clearRetry_heap_ne. congruence.
Qed.

Lemma unregister_frame (rid : jsstring) (s : state) :
  let s' := (unregisterDeferredDiscordStatus rid s).2 in
  nextRef s' = nextRef s ∧ bridgeReady s' = bridgeReady s
  ∧ now s' = now s ∧ trace s' = trace s.
Proof.
  unfold unregisterDeferredDiscordStatus, clearDeferredDiscordRetryCleanup.
  destruct (byRun s !! rid); simpl; [|done]. by destruct (timerSet _).
Qed.

Lemma wf_schedule (ref : nat) (s : state) (e : DeferredDiscordStatusEntry) :
  wf s → heap s !! ref = Some e → byRun s !! runId e = Some ref →
  wf (scheduleDeferredDiscordRetryCleanup ref s).
Proof.
  intros Hwf He Hreg. unfold scheduleDeferredDiscordRetryCleanup.
  apply wf_setTimer; [by apply wf_clearRetry|].
  intros d e' _. rewrite (clearRetry_heap_eq _ _ _ He), clearRetry_byRun.
  by intros [= <-].
Qed.

Lemma wf_bridgeListener (evt : agentEvent) (s : state) :
  wf s → wf (bridgeListener evt s).
Proof.
  intros Hwf. unfold bridgeListener.
  destruct (byRun s !! ev_runId evt) as [ref|] eqn:Hr; [|done].
  destruct (heap s !! ref) as [entry|] eqn:He; [|done].
  assert (Hid : runId entry = ev_runId evt).
  { destruct (wf_key _ Hwf _ _ Hr) as (e & He' & Hid). congruence. }
  repeat case_match; try done; apply wf_emit;
    first [ assumption
          | by apply wf_clearRetry
          | by apply wf_unregister
          | eapply wf_schedule; [done..|]; by rewrite Hid ].
Qed.

Lemma wf_fireCleanup (ref : nat) (s : state) : wf s → wf (fireCleanup ref s).
Proof.
  intros Hwf. unfold fireCleanup. destruct (timerDue _ _); [|done].
  assert (Hwf' : wf (setTimer ref TSpent s)) by (by apply wf_setTimer).
  unfold cleanupCallback.
  destruct (heap (setTimer ref TSpent s) !! ref) as [entry|] eqn:He; [|done].
  case_decide as Hcur; [|done].
  apply wf_setTimer; [|done].
  apply wf_delete; [done|].
  intros ref' e d. rewrite Hcur. intros [= <-]. rewrite He. intros [= <-].
  rewrite heap_setTimer, decide_True in He by done.
  destruct (heap s !! ref); simplify_eq/=. done.
Qed.

Lemma wf_ensureBridge (s : state) : wf s → wf (ensureDeferredDiscordStatusBridge s).
Proof.
  intros Hwf. unfold ensureDeferredDiscordStatusBridge.
  destruct (bridgeReady s); [done|].
  destruct Hwf as [H1 H2 H3 H4]. split; simpl; eauto.
Qed.

Lemma ensureBridge_ready (s : state) :
  bridgeReady (ensureDeferredDiscordStatusBridge s) = true.
Proof.
  unfold ensureDeferredDiscordStatusBridge.
  by destruct (bridgeReady s) eqn:Hb.
Qed.

Lemma wf_register (entry : entryInput) (s : state) :
  wf s → wf (registerDeferredDiscordStatus entry s).
Proof.
  intros Hwf. unfold registerDeferredDiscordStatus.
  destruct (truthy _); [|done]. simpl.
  set (rid := trim (i_runId entry)).
  set (s1 := ensureDeferredDiscordStatusBridge s).
  assert (Hwf2 : wf (unregisterDeferredDiscordStatus rid s1).2)
    by (by apply wf_unregister, wf_ensureBridge).
  assert (Hgone : byRun (unregisterDeferredDiscordStatus rid s1).2 !! rid = None)
    by (by rewrite unregister_byRun, lookup_delete_eq).
  destruct (unregister_frame rid s1) as (_ & Hb & _).
  set (s2 := (unregisterDeferredDiscordStatus rid s1).2) in *.
  destruct Hwf2 as [H1 H2 H3 H4]. split; simpl.
  - intros r ref. rewrite lookup_insert. case_decide as Hk.
    + intros [= <-]. subst r. rewrite lookup_insert_eq. eauto.
    + intros Hr. destruct (H1 _ _ Hr) as (e & He & Hid).
      rewrite lookup_insert_ne; [eauto|]. apply H2 in He. lia.
  - intros ref e. rewrite lookup_insert. case_decide as Hk.
    + intros _. lia.
    + intros He%H2. lia.
  - intros ref e d. rewrite lookup_insert. case_decide as Hk.
    + by intros [= <-].
    + intros He Ht. pose proof (H3 _ _ _ He Ht) as Hreg.
      rewrite lookup_insert_ne; [done|]. intros Heq. congruence.
  - intros _ _ _. rewrite Hb. apply ensureBridge_ready.
Qed.

Lemma wf_step (ev : event) (s : state) : wf s → wf (step ev s).
Proof.
  intros Hwf. destruct ev as [entry|rid|evt|ref|dt]; simpl.
  - by apply wf_register.
  - by apply wf_unregister.
  - destruct (bridgeReady s); [by apply wf_bridgeListener|done].
  - by apply wf_fireCleanup.
  - destruct Hwf as [H1 H2 H3 H4]. split; simpl; eauto.
Qed.

Lemma wf_run (evs : list event) (s : state) : wf s → wf (run evs s).
Proof.
  revert s. induction evs as [|ev evs IH]; intros s Hwf; simpl; [done|].
  by apply IH, wf_step.
Qed.

(** Events for unknown run identifiers do nothing at all. *)
Lemma unknown_run_noop (evt : agentEvent) (s : state) :
  byRun s !! ev_runId evt = None → step (AgentEvent evt) s = s.
Proof.
  intros Hnone. simpl. destruct (bridgeReady s); [|done].
  unfold bridgeListener. by rewrite Hnone.
Qed.

(** An event that concerns neither [rid] nor its entry object leaves both
    the key and the object alone, and time does not go back. *)
Lemma quiet_step (rid : jsstring) (ref : nat) (e : DeferredDiscordStatusEntry)
    (ev : event) (s : state) :
  wf s → byRun s !! rid = Some ref → heap s !! ref = Some e →
  quietFor rid ref ev = true →
  byRun (step ev s) !! rid = Some ref ∧ heap (step ev s) !! ref = Some e
  ∧ (now s ≤ now (step ev s))%Z.
Proof.
  intros Hwf Hr He Hq.
  assert (Hid : runId e = rid).
  { destruct (wf_key _ Hwf _ _ Hr) as (e' & He' & Hid). congruence. }
  assert (Hother : ∀ rid' ref', rid' ≠ rid → byRun s !! rid' = Some ref' → ref' ≠ ref).
  { intros rid' ref' Hne Hr' ->.
    destruct (wf_key _ Hwf _ _ Hr') as (e' & He' & Hid'). congruence. }
  destruct ev as [entry|rid'|evt|ref'|dt]; simpl in Hq;
    try (apply negb_true_iff, bool_decide_eq_false in Hq); simpl.
  - unfold registerDeferredDiscordStatus. destruct (truthy _); simpl; [|done].
    set (s1 := ensureDeferredDiscordStatusBridge s).
    assert (Hs1 : byRun s1 = byRun s ∧ heap s1 = heap s ∧ now s1 = now s
                  ∧ nextRef s1 = nextRef s).
    { unfold s1, ensureDeferredDiscordStatusBridge. by destruct (bridgeReady s). }
    destruct Hs1 as (Hb1 & Hh1 & Hn1 & Hf1).
    destruct (unregister_frame (trim (i_runId entry)) s1) as (Hf & _ & Hn & _).
    cbn zeta in Hf, Hn. rewrite Hf, Hn, Hf1, Hn1.
    rewrite lookup_insert_ne, unregister_byRun, lookup_delete_ne, Hb1 by done.
    rewrite lookup_insert_ne by (apply (wf_fresh _ Hwf) in He; lia).
    rewrite unregister_heap_ne, Hh1; [done|].
    rewrite Hb1. intros Hr'. by eapply Hother.
  - destruct (unregister_frame rid' s) as (_ & _ & Hn & _). cbn zeta in Hn.
    rewrite Hn, unregister_byRun, lookup_delete_ne by done.
    rewrite unregister_heap_ne; [done|]. intros Hr'. by eapply Hother.
  - destruct (bridgeReady s); [|done]. unfold bridgeListener.
    destruct (byRun s !! ev_runId evt) as [ref'|] eqn:Hr'; [|done].
    destruct (heap s !! ref') as [entry|] eqn:He'; [|done].
    assert (Hne : ref' ≠ ref) by (by eapply Hother).
    assert (Hgone : byRun s !! ev_runId evt ≠ Some ref) by congruence.
    destruct (unregister_frame (ev_runId evt) s) as (_ & _ & Hn & _).
    cbn zeta in Hn.
    repeat case_match; simpl;
      rewrite ?Hn, ?unregister_byRun, ?lookup_delete_ne by done;
      rewrite ?unregister_heap_ne by done;
      rewrite ?lookup_alter_ne by done;
      rewrite ?clearRetry_byRun, ?clearRetry_heap_ne by done;
      try done;
      unfold clearDeferredDiscordRetryCleanup; by destruct (timerSet _).
  - unfold fireCleanup. destruct (timerDue _ _); [|done].
    unfold cleanupCallback.
    destruct (heap (setTimer ref' TSpent s) !! ref') as [entry|] eqn:He'; [|].
    + case_decide as Hcur; simpl in *.
      * rewrite !lookup_alter_ne by done.
        rewrite lookup_delete_ne; [done|]. intros Heq. congruence.
      * by rewrite lookup_alter_ne.
    + simpl. by rewrite lookup_alter_ne.
  - split_and!; [done..|lia].
Qed.

Lemma quiet_run (rid : jsstring) (ref : nat) (e : DeferredDiscordStatusEntry)
    (evs : list event) (s : state) :
  wf s → byRun s !! rid = Some ref → heap s !! ref = Some e →
  forallb (quietFor rid ref) evs = true →
  byRun (run evs s) !! rid = Some ref ∧ heap (run evs s) !! ref = Some e
  ∧ (now s ≤ now (run evs s))%Z.
Proof.
  revert s. induction evs as [|ev evs IH]; intros s Hwf Hr He Hq; simpl.
  - split_and!; [done..|lia].
  - simpl in Hq. apply andb_prop in Hq as [Hq1 Hq2].
    destruct (quiet_step rid ref e ev s Hwf Hr He Hq1) as (Hr' & He' & Hn).
    destruct (IH (step ev s) (wf_step _ _ Hwf) Hr' He' Hq2) as (? & ? & ?).
    split_and!; [done..|lia].
Qed.

(** What a [lifecycle/error] event does to a registered entry. *)
Lemma lifecycle_error_schedules (rid : jsstring) (ref : nat)
    (e : DeferredDiscordStatusEntry) (s : state) :
  bridgeReady s = true → byRun s !! rid = Some ref → heap s !! ref = Some e →
  let s1 := step (AgentEvent (lifecycleEvent rid "error")) s in
  byRun s1 = byRun s
  ∧ heap s1 !! ref
    = Some (withTimer (TArmed (now s + DISCORD_STATUS_DEFERRED_ERROR_RETRY_TTL_MS)) e)
  ∧ now s1 = now s
  ∧ trace s1 = trace s ++ [Call (controller e) SetRetryableError].
Proof.
  intros Hb Hr He. simpl. rewrite Hb. unfold bridgeListener. simpl.
  rewrite Hr, He. simpl.
  unfold scheduleDeferredDiscordRetryCleanup, clearDeferredDiscordRetryCleanup.
  unfold timerOf. rewrite He.
  destruct (retryCleanupTimer e) eqn:Ht; simpl;
    rewrite ?lookup_alter_eq, ?He; simpl; done.
Qed.

(** The cleanup timer of a registered entry, once due, removes the entry. *)
Lemma cleanup_removes (rid : jsstring) (ref : nat)
    (e : DeferredDiscordStatusEntry) (due : Z) (s : state) :
  byRun s !! rid = Some ref → heap s !! ref = Some e → runId e = rid →
  retryCleanupTimer e = TArmed due →
  (if decide (due ≤ now s)%Z
   then byRun (step (FireCleanup ref) s) = delete rid (byRun s)
        ∧ timerOf ref (step (FireCleanup ref) s) = TNull
        ∧ trace (step (FireCleanup ref) s) = trace s
   else step (FireCleanup ref) s = s).
Proof.
  intros Hr He Hid Ht. simpl. unfold fireCleanup, timerOf. rewrite He, Ht. simpl.
  case_decide as Hdue.
  - rewrite (proj2 (Z.leb_le _ _) Hdue).
    unfold cleanupCallback. simpl. rewrite lookup_alter_eq, He. simpl.
    rewrite Hid, Hr, decide_True by done. simpl.
    by rewrite !lookup_alter_eq, He.
  - by rewrite (proj2 (Z.leb_gt _ _)) by lia.
Qed.

(** C3.  Take any state the registry can reach in which [rid] is registered
    (as the entry object [ref]).  A [lifecycle/error] event for [rid] arms
    the entry's cleanup timer 45 seconds ahead.  Let any events follow that
    concern neither [rid] nor its entry: the entry stays registered, and the
    timer cannot run before the 45 seconds are over.  When it runs after
    that, the entry is removed from the map; from then on a [lifecycle/start]
    event for [rid] (any event for it, in fact) changes nothing: no entry is
    inserted and no controller is called.  In every state, an event whose
    run identifier is not in the map changes nothing. *)
Theorem deferred_entry_self_cleans (t0 : Z) (history quiet : list event)
    (rid : jsstring) (ref : nat) :
  let s := run history (init t0) in
  let s1 := step (AgentEvent (lifecycleEvent rid "error")) s in
  let s2 := run quiet s1 in
  let s3 := step (FireCleanup ref) s2 in
  byRun s !! rid = Some ref →
  forallb (quietFor rid ref) quiet = true →
  timerOf ref s1 = TArmed (now s + 45000)
  ∧ byRun s2 !! rid = Some ref
  ∧ ((now s2 < now s + 45000)%Z → s3 = s2)
  ∧ ((now s + 45000 ≤ now s2)%Z →
       byRun s3 !! rid = None
       ∧ step (AgentEvent (lifecycleEvent rid "start")) s3 = s3
       ∧ ∀ evt, ev_runId evt = rid → step (AgentEvent evt) s3 = s3)
  ∧ (∀ s' evt, byRun s' !! ev_runId evt = None → step (AgentEvent evt) s' = s').
Proof.
  intros s s1 s2 s3 Hr Hq.
  assert (Hwf : wf s) by apply wf_run, wf_init.
  destruct (wf_key _ Hwf _ _ Hr) as (e & He & Hid).
  pose proof (wf_bridge _ Hwf _ _ Hr) as Hb.
  destruct (lifecycle_error_schedules rid ref e s Hb Hr He) as (Hb1 & Hh1 & Hn1 & _).
  fold s1 in Hb1, Hh1, Hn1.
  assert (Hwf1 : wf s1) by apply wf_step, Hwf.
  assert (Hr1 : byRun s1 !! rid = Some ref) by (by rewrite Hb1).
  destruct (quiet_run rid ref _ quiet s1 Hwf1 Hr1 Hh1 Hq) as (Hr2 & Hh2 & Hn2).
  fold s2 in Hr2, Hh2, Hn2.
  pose proof (cleanup_removes rid ref _ _ s2 Hr2 Hh2 Hid eq_refl) as Hfire.
  fold s3 in Hfire. unfold DISCORD_STATUS_DEFERRED_ERROR_RETRY_TTL_MS in *.
  split_and!.
  - unfold timerOf. by rewrite Hh1.
  - done.
  - intros Hlt. by rewrite decide_False in Hfire by lia.
  - intros Hge. rewrite decide_True in Hfire by lia.
    destruct Hfire as (Hb3 & _).
    assert (Hgone : byRun s3 !! rid = None) by (by rewrite Hb3, lookup_delete_eq).
    split_and!; [done|by apply unknown_run_noop|].
    intros evt <-. by apply unknown_run_noop.
  - intros s' evt. apply unknown_run_noop.
Qed.

Lemma deferred_entry_self_cleans_witness :
  let s := run [Register (sampleEntry " run-1 " 7)] (init 0) in
  let s1 := step (AgentEvent (lifecycleEvent (js "run-1") "error")) s in
  let s3 := step (FireCleanup 0) (run [Advance 45000] s1) in
  timerOf 0 s1 = TArmed 45000
  ∧ byRun s3 !! js "run-1" = None
  ∧ step (AgentEvent (lifecycleEvent (js "run-1") "start")) s3 = s3.
Proof.
  destruct (deferred_entry_self_cleans 0 [Register (sampleEntry " run-1 " 7)]
              [Advance 45000] (js "run-1") 0%nat)
    as (Harm & _ & _ & Hgone & _); [vm_compute; reflexivity..|].
  destruct Hgone as (Hnone & Hstart & _); [vm_compute; discriminate|].
  exact (conj Harm (conj Hnone Hstart)).
Defined.

Lemma forallb_whitespace_trim (rid : jsstring) :
  forallb isJsWhiteSpace rid = true → truthy (trim rid) = false.
Proof. intros H. by rewrite trim_whitespace. Qed.

(** C9.  Registering an entry whose run identifier is empty or made of
    whitespace only changes nothing: the map, the entry objects, the bridge
    flag and the trace of effects (so no subscription) are as before. *)
Theorem register_blank_run_id_noop (entry : entryInput) (s : state) :
  forallb isJsWhiteSpace (i_runId entry) = true →
  registerDeferredDiscordStatus entry s = s.
Proof.
  intros Hblank. unfold registerDeferredDiscordStatus.
  by rewrite forallb_whitespace_trim.
Qed.

Lemma register_blank_run_id_noop_witness :
  registerDeferredDiscordStatus (sampleEntry "   " 3) (init 0) = init 0
  ∧ bridgeReady (registerDeferredDiscordStatus (sampleEntry "" 3) (init 0)) = false.
Proof.
  split.
  - apply (register_blank_run_id_noop (sampleEntry "   " 3) (init 0)). reflexivity.
  - rewrite (register_blank_run_id_noop (sampleEntry "" 3) (init 0)); reflexivity.
Defined.

Lemma register_effect (entry : entryInput) (s : state) :
  truthy (trim (i_runId entry)) = true →
  let rid := trim (i_runId entry) in
  let s' := registerDeferredDiscordStatus entry s in
  byRun s' = <[rid := nextRef s]> (byRun s)
  ∧ heap s' !! nextRef s
    = Some {| runId := rid; channelId := i_channelId entry;
              messageId := i_messageId entry;
              removeAckAfterReply := i_removeAckAfterReply entry;
              controller := i_controller entry;
              onLifecycleStart := i_onLifecycleStart entry;
              retryCleanupTimer := TNull |}
  ∧ bridgeReady s' = true
  ∧ ∀ old, old ≠ nextRef s → byRun s !! rid = Some old → timerOf old s' = TNull.
Proof.
  intros Ht. cbn zeta. unfold registerDeferredDiscordStatus. rewrite Ht. simpl.
  set (rid := trim (i_runId entry)).
  set (s1 := ensureDeferredDiscordStatusBridge s).
  assert (Hs1 : byRun s1 = byRun s ∧ heap s1 = heap s ∧ nextRef s1 = nextRef s).
  { unfold s1, ensureDeferredDiscordStatusBridge. by destruct (bridgeReady s). }
  destruct Hs1 as (Hb1 & Hh1 & Hf1).
  destruct (unregister_frame rid s1) as (Hf & Hb & _). cbn zeta in Hf, Hb.
  rewrite Hf, Hf1, Hb, unregister_byRun, Hb1, insert_delete_eq.
  split_and!.
  - done.
  - by rewrite lookup_insert_eq.
  - apply ensureBridge_ready.
  - intros old Hne Hold. unfold timerOf. simpl. rewrite lookup_insert_ne by done.
    unfold unregisterDeferredDiscordStatus. rewrite Hb1, Hold. simpl.
    apply clearRetry_timer.
Qed.

Lemma unregister_effect (rid : jsstring) (s : state) :
  match byRun s !! rid with
  | Some ref =>
      (unregisterDeferredDiscordStatus rid s).1 = Some ref
      ∧ byRun (unregisterDeferredDiscordStatus rid s).2 = delete rid (byRun s)
      ∧ timerOf ref (unregisterDeferredDiscordStatus rid s).2 = TNull
  | None => unregisterDeferredDiscordStatus rid s = (None, s)
  end.
Proof.
  unfold unregisterDeferredDiscordStatus.
  destruct (byRun s !! rid) as [ref|] eqn:Hr; [|done]. simpl.
  rewrite clearRetry_byRun. split_and!; [done..|].
  apply clearRetry_timer.
Qed.

(** C6.  In every state the registry can reach, a run identifier leads to
    at most one entry object: two keys of the map whose entries carry the
    same [runId] are the same key and the same object, and a cleanup timer
    is pending only for an entry that is in the map.  Registering an entry
    under a non-blank identifier stores a new object under the trimmed
    identifier, in place of the one that was there, whose timer is cleared;
    all other keys are untouched.  Unregistering an identifier that is
    present returns its entry, clears the entry's timer and removes the key;
    unregistering one that is absent returns nothing and changes nothing. *)
Theorem registry_one_entry_per_run (t0 : Z) (history : list event)
    (entry : entryInput) (rid' : jsstring) :
  let s := run history (init t0) in
  let rid := trim (i_runId entry) in
  let s' := registerDeferredDiscordStatus entry s in
  (∀ r1 r2 ref1 ref2 e1 e2,
     byRun s !! r1 = Some ref1 → byRun s !! r2 = Some ref2 →
     heap s !! ref1 = Some e1 → heap s !! ref2 = Some e2 →
     runId e1 = runId e2 → r1 = r2 ∧ ref1 = ref2)
  ∧ (∀ ref e d, heap s !! ref = Some e → retryCleanupTimer e = TArmed d →
                byRun s !! runId e = Some ref)
  ∧ (if truthy rid then
       byRun s' = <[rid := nextRef s]> (byRun s)
       ∧ heap s' !! nextRef s
         = Some {| runId := rid; channelId := i_channelId entry;
                   messageId := i_messageId entry;
                   removeAckAfterReply := i_removeAckAfterReply entry;
                   controller := i_controller entry;
                   onLifecycleStart := i_onLifecycleStart entry;
                   retryCleanupTimer := TNull |}
       ∧ match byRun s !! rid with
         | Some old =>
             old ≠ nextRef s ∧ timerOf old s' = TNull
             ∧ ∀ r, byRun s' !! r ≠ Some old
         | None => True
         end
     else s' = s)
  ∧ match byRun s !! rid' with
    | Some ref =>
        (unregisterDeferredDiscordStatus rid' s).1 = Some ref
        ∧ byRun (unregisterDeferredDiscordStatus rid' s).2 = delete rid' (byRun s)
        ∧ timerOf ref (unregisterDeferredDiscordStatus rid' s).2 = TNull
    | None => unregisterDeferredDiscordStatus rid' s = (None, s)
    end.
Proof.
  intros s rid s'.
  assert (Hwf : wf s) by apply wf_run, wf_init.
  split_and!.
  - intros r1 r2 ref1 ref2 e1 e2 Hr1 Hr2 He1 He2 Hid.
    destruct (wf_key _ Hwf _ _ Hr1) as (e1' & He1' & Hid1).
    destruct (wf_key _ Hwf _ _ Hr2) as (e2' & He2' & Hid2).
    assert (r1 = r2) as -> by congruence. split; congruence.
  - apply (wf_armed _ Hwf).
  - destruct (truthy rid) eqn:Ht.
    + destruct (register_effect entry s Ht) as (Hb & Hh & _ & Hold).
      fold rid s' in Hb, Hh, Hold. split_and!; [done..|].
      destruct (byRun s !! rid) as [old|] eqn:Hr; [|done].
      destruct (wf_key _ Hwf _ _ Hr) as (e & He & Hid).
      assert (Hne : old ≠ nextRef s) by (apply (wf_fresh _ Hwf) in He; lia).
      split_and!; [done|by apply Hold|].
      intros r. rewrite Hb, lookup_insert. case_decide; [congruence|].
      intros Hr'. destruct (wf_key _ Hwf _ _ Hr') as (e' & He' & Hid').
      congruence.
    + unfold s', registerDeferredDiscordStatus. fold rid. by rewrite Ht.
  - apply unregister_effect.
Qed.

End RegistryProperties.

(** ** The status reaction controller: semantic phases *)

Section CtlPhase.

Import Ctl.

Variable toLowerCase : jsstring → jsstring.
Variable p : params.

Local Abbreviation step' := (step toLowerCase p).
Local Abbreviation run' := (run toLowerCase p).
Local Abbreviation order := DISCORD_STATUS_PHASE_ORDER.




Lemma transition_frame (next : DiscordStatusSemanticPhase) (s : state) :
  let s' := (transitionSemanticPhase next s).2 in
  finished s' = finished s ∧ chain s' = chain s ∧ escaped s' = escaped s
  ∧ log s' = log s ∧ now s' = now s.
Proof. unfold transitionSemanticPhase. by repeat case_match. Qed.










Lemma restoreInitial_effect (s : state) :
  semanticPhase (restoreInitial p s) = semanticPhase s
  ∧ chain (restoreInitial p s)
    = if enabled p && truthy (initialEmoji p)
         && negb (hasReachedActivePhase s
                  && bool_decide (initialEmoji p = DISCORD_STATUS_STALL_SOFT_EMOJI))
      then chain s ++ [Apply (initialEmoji p)]
      else chain s.
Proof.
  unfold restoreInitial, requestEmoji, regressionBlocked, hasReachedActivePhase.
  destruct (enabled p); simpl; [|done].
  destruct (truthy (initialEmoji p)); simpl; [|done].
  destruct (_ <=? _)%Z; simpl; [|done].
  rewrite andb_false_r, orb_false_r.
  by destruct (bool_decide (initialEmoji p = DISCORD_STATUS_STALL_SOFT_EMOJI)).
Qed.

Lemma initial_icon_blocked (immediate : bool) (s : state) :
  hasReachedActivePhase s = true →
  requestEmoji p (initialEmoji p) immediate false s = s.
Proof.
  intros Hact. unfold requestEmoji, regressionBlocked. rewrite Hact.
  destruct (negb (enabled p) || negb (truthy (initialEmoji p))); [done|].
  rewrite (bool_decide_eq_true_2 (initialEmoji p = initialEmoji p)) by done.
  simpl. by rewrite orb_true_r.
Qed.





End CtlPhase.


(** ** The reaction status machine: invariants *)

Section RSMInvariants.

Import RSM.

Variable toLowerCase : jsstring → jsstring.
Variable hasOnError : bool.

Local Abbreviation step' := (step toLowerCase hasOnError).
Local Abbreviation run' := (run toLowerCase hasOnError).

Lemma setsOf_app (l1 l2 : list obs) : setsOf (l1 ++ l2) = setsOf l1 ++ setsOf l2.
Proof. unfold setsOf. by rewrite fmap_app, join_app. Qed.

Lemma pendingSets_app (l1 l2 : list task) :
  pendingSets (l1 ++ l2) = pendingSets l1 ++ pendingSets l2.
Proof. unfold pendingSets. by rewrite fmap_app, join_app. Qed.

Lemma pendingSets_cons (t : task) (l : list task) :
  pendingSets (t :: l) = pendingSet t ++ pendingSets l.
Proof. done. Qed.

Lemma resolveToolStateEmoji_middle (toolText : option jsstring) :
  isTerminalEmoji (resolveToolStateEmoji toLowerCase toolText) = false.
Proof. unfold resolveToolStateEmoji. by repeat case_match. Qed.

Lemma onError_frame (m : string) (s : state) :
  setsOf (log (onError hasOnError m s)) = setsOf (log s)
  ∧ lane (onError hasOnError m s) = lane s
  ∧ terminal (onError hasOnError m s) = terminal s
  ∧ disposed (onError hasOnError m s) = disposed s
  ∧ pendingMiddleEmoji (onError hasOnError m s) = pendingMiddleEmoji s
  ∧ debounceTimer (onError hasOnError m s) = debounceTimer s.
Proof.
  unfold onError. destruct hasOnError; simpl; [|done].
  rewrite setsOf_app. simpl. by rewrite app_nil_r.
Qed.

(** What one lane step does to the icons set so far and to those the lane
    can still set: the first pending icon is set, or dropped, or stays. *)
Lemma laneStep_sets (r : response) (s : state) :
  let s' := laneStep hasOnError r s in
  terminal s' = terminal s ∧ disposed s' = disposed s
  ∧ pendingMiddleEmoji s' = pendingMiddleEmoji s
  ∧ debounceTimer s' = debounceTimer s
  ∧ ((setsOf (log s') = setsOf (log s)
      ∧ pendingSets (lane s') = pendingSets (lane s))
     ∨ (∃ e rest, pendingSets (lane s) = e :: rest
                  ∧ pendingSets (lane s') = rest
                  ∧ (setsOf (log s') = setsOf (log s)
                     ∨ setsOf (log s') = setsOf (log s) ++ [e]))).
Proof.
  unfold laneStep. destruct (lane s) as [|[b hold] rest] eqn:Hlane; simpl.
  { rewrite Hlane. split_and!; [done..|]. by left. }
  assert (Hresume : ∀ s0 : state,
    let s1 := resumeCaller hold (setLane rest s0) in
    terminal s1 = terminal s0 ∧ disposed s1 = disposed s0
    ∧ pendingMiddleEmoji s1 = pendingMiddleEmoji s0
    ∧ debounceTimer s1 = debounceTimer s0
    ∧ log s1 = log s0 ∧ lane s1 = rest).
  { intros s0. unfold resumeCaller. by destruct hold. }
  destruct b as [e|e|e|e]; simpl; rewrite ?pendingSets_cons; unfold pendingSet; simpl.
  - (* SetEmoji *)
    destruct (disposed s || bool_decide (Some e = currentEmoji s)); simpl.
    { destruct (Hresume s) as (-> & -> & -> & -> & -> & ->).
      split_and!; [done..|]. right. exists e, (pendingSets rest). split_and!; [done..|by left]. }
    destruct (currentEmoji s) as [prev|]; simpl.
    + destruct r as [|err|err]; simpl.
      * rewrite setsOf_app. simpl. rewrite app_nil_r.
        split_and!; [done..|]. by left.
      * destruct (onError_frame ("discord status remove reaction failed: " +:+ err)
                    (addLog [CallClear prev] s)) as (-> & _ & -> & -> & -> & ->).
        simpl. rewrite setsOf_app. simpl. rewrite app_nil_r.
        split_and!; [done..|]. by left.
      * destruct (Hresume (onError hasOnError ("discord status reaction failed: " +:+ err)
                             (addLog [CallClear prev] s)))
          as (-> & -> & -> & -> & -> & ->).
        destruct (onError_frame ("discord status reaction failed: " +:+ err)
                    (addLog [CallClear prev] s)) as (-> & _ & -> & -> & -> & ->).
        simpl. rewrite setsOf_app. simpl. rewrite app_nil_r.
        split_and!; [done..|]. right. exists e, (pendingSets rest). split_and!; [done..|by left].
    + unfold callSetReaction. destruct r as [|err|err]; simpl.
      * rewrite setsOf_app. simpl.
        split_and!; [done..|]. right. exists e, (pendingSets rest). split_and!; [done..|by right].
      * destruct (onError_frame ("discord status set reaction failed: " +:+ err)
                    (addLog [CallSet e] s)) as (-> & _ & -> & -> & -> & ->).
        simpl. rewrite setsOf_app. simpl.
        split_and!; [done..|]. right. exists e, (pendingSets rest). split_and!; [done..|by right].
      * destruct (Hresume (onError hasOnError ("discord status reaction failed: " +:+ err)
                             (addLog [CallSet e] s)))
          as (-> & -> & -> & -> & -> & ->).
        destruct (onError_frame ("discord status reaction failed: " +:+ err)
                    (addLog [CallSet e] s)) as (-> & _ & -> & -> & -> & ->).
        simpl. rewrite setsOf_app. simpl.
        split_and!; [done..|]. right. exists e, (pendingSets rest). split_and!; [done..|by right].
  - (* SetEmojiCleared *)
    unfold callSetReaction. destruct r as [|err|err]; simpl.
    + rewrite setsOf_app. simpl.
      split_and!; [done..|]. right. exists e, (pendingSets rest). split_and!; [done..|by right].
    + destruct (onError_frame ("discord status set reaction failed: " +:+ err)
                  (addLog [CallSet e] s)) as (-> & _ & -> & -> & -> & ->).
      simpl. rewrite setsOf_app. simpl.
      split_and!; [done..|]. right. exists e, (pendingSets rest). split_and!; [done..|by right].
    + destruct (Hresume (onError hasOnError ("discord status reaction failed: " +:+ err)
                           (addLog [CallSet e] s)))
        as (-> & -> & -> & -> & -> & ->).
      destruct (onError_frame ("discord status reaction failed: " +:+ err)
                  (addLog [CallSet e] s)) as (-> & _ & -> & -> & -> & ->).
      simpl. rewrite setsOf_app. simpl.
      split_and!; [done..|]. right. exists e, (pendingSets rest). split_and!; [done..|by right].
  - (* SetEmojiSet *)
    destruct (Hresume (setCurrentEmoji (Some e) s)) as (-> & -> & -> & -> & -> & ->).
    split_and!; [done..|]. by left.
  - (* ClearReaction *)
    destruct r as [|err|err]; simpl.
    + destruct (Hresume (addLog [CallClear e] s)) as (-> & -> & -> & -> & -> & ->).
      simpl. rewrite setsOf_app. simpl. rewrite app_nil_r.
      split_and!; [done..|]. by left.
    + destruct (Hresume (onError hasOnError ("discord status clear reaction failed: " +:+ err)
                           (addLog [CallClear e] s)))
        as (-> & -> & -> & -> & -> & ->).
      destruct (onError_frame ("discord status clear reaction failed: " +:+ err)
                  (addLog [CallClear e] s)) as (-> & _ & -> & -> & -> & ->).
      simpl. rewrite setsOf_app. simpl. rewrite app_nil_r.
      split_and!; [done..|]. by left.
    + destruct (Hresume (onError hasOnError ("discord status reaction failed: " +:+ err)
                           (addLog [CallClear e] s)))
        as (-> & -> & -> & -> & -> & ->).
      destruct (onError_frame ("discord status reaction failed: " +:+ err)
                  (addLog [CallClear e] s)) as (-> & _ & -> & -> & -> & ->).
      simpl. rewrite setsOf_app. simpl. rewrite app_nil_r.
      split_and!; [done..|]. by left.
Qed.

Lemma good_init (t0 : Z) : good (init t0).
Proof. split; simpl; [done| by intros _ [? [=]] |]. intros _ e H. by apply elem_of_nil in H. Qed.

Lemma good_markProgress (s : state) : good s → good (markProgress s).
Proof.
  intros [H1 H2 H3]. unfold markProgress, scheduleStallChecks.
  destruct (_ || _); split; simpl; done.
Qed.

Lemma good_scheduleMiddleState (e : DiscordWorkEmoji) (s : state) :
  isTerminalEmoji e = false → good s → good (scheduleMiddleState e s).
Proof.
  intros He Hs. unfold scheduleMiddleState. repeat case_match; try done.
  destruct Hs as [H1 H2 H3]. split; simpl; [by intros ? [= <-]|done..].
Qed.

Lemma good_enqueue (b : taskBody) (hold : option Z) (s : state) :
  (terminal s = false →
   ∀ e, e ∈ pendingSet {| body := b; holdMs := hold |} → isTerminalEmoji e = false) →
  good s → good (enqueue b hold s).
Proof.
  intros Hb [H1 H2 H3]. split; simpl; [done..|].
  intros Hterm e. rewrite pendingSets_app, app_assoc.
  intros [He|He]%elem_of_app; [by apply H3|].
  unfold pendingSets in He. simpl in He. rewrite app_nil_r in He. by apply Hb.
Qed.

Lemma good_dispose (s : state) : good s → good (dispose s).
Proof.
  intros Hs. unfold dispose. destruct (disposed s) eqn:Hd; [done|].
  assert (Hs' : good (setCurrentEmoji None (clearTimers (setDisposed true s)))).
  { destruct Hs as [H1 H2 H3]. split; simpl; done. }
  simpl. destruct (currentEmoji s); [|done].
  apply good_enqueue; [|done]. intros _ e He. by apply elem_of_nil in He.
Qed.

Lemma good_finish (e : DiscordWorkEmoji) (hold : Z) (s : state) :
  good s → good (finish e hold s).
Proof.
  intros Hs. unfold finish. destruct (_ || _) eqn:Hlive; [done|].
  apply orb_false_elim in Hlive as [Hd Ht].
  apply good_enqueue.
  { intros Hterm. by destruct (timerSet _). }
  destruct Hs as [H1 H2 H3].
  destruct (timerSet (debounceTimer (setTerminalFlag true s))) eqn:Hset;
    split; simpl in *; done.
Qed.

Lemma good_debounceCallback (s : state) : good s → good (debounceCallback s).
Proof.
  intros Hs. unfold debounceCallback.
  assert (Hs' : good (setDebounce None TNull s)).
  { destruct Hs as [H1 H2 H3]. split; simpl; [done| by intros _ [? [=]] |done]. }
  destruct (pendingMiddleEmoji s) as [e|] eqn:He; [|done].
  destruct (_ || _); [done|].
  apply good_enqueue; [|done].
  intros _ e' ->%list_elem_of_singleton. by apply (good_middle _ Hs).
Qed.

Lemma good_laneStep (r : response) (s : state) :
  good s → good (laneStep hasOnError r s).
Proof.
  intros [H1 H2 H3].
  destruct (laneStep_sets r s) as (Ht & Hd & Hp & Hdb & Hsets).
  cbn zeta in *. split.
  - by rewrite Hp.
  - by rewrite Hd, Hp, Hdb.
  - rewrite Ht. intros Hterm e He. apply (H3 Hterm).
    destruct Hsets as [[E1 E2]|(e0 & rest & Hq & E2 & [E1|E1])];
      rewrite E1, E2 in He; rewrite ?Hq; [done|..].
    + apply elem_of_app in He as [He|He]; apply elem_of_app; [by left|].
      right. by apply elem_of_cons; right.
    + rewrite <-app_assoc in He. done.
Qed.

Lemma good_step (ev : event) (s : state) : good s → good (step' ev s).
Proof.
  intros Hs. destruct ev; simpl.
  - unfold start. destruct (disposed s); [done|].
    apply good_enqueue; [|by apply good_markProgress].
    by intros _ e ->%list_elem_of_singleton.
  - unfold thinking. destruct (_ || _); [done|].
    by apply good_scheduleMiddleState, good_markProgress.
  - unfold tool. destruct (_ || _); [done|].
    apply good_scheduleMiddleState, good_markProgress; [|done].
    apply resolveToolStateEmoji_middle.
  - unfold progress. destruct (_ || _); [done|]. by apply good_markProgress.
  - by apply good_finish.
  - by apply good_finish.
  - by apply good_dispose.
  - destruct (timerDue _ _); [|done]. by apply good_debounceCallback.
  - destruct (timerDue _ _); [|done].
    assert (Hs' : good (setStallTimers TSpent (hardStallTimer s) s))
      by (destruct Hs; by split).
    unfold softStallCallback. repeat case_match; try done.
    by apply good_scheduleMiddleState.
  - destruct (timerDue _ _); [|done].
    assert (Hs' : good (setStallTimers (softStallTimer s) TSpent s))
      by (destruct Hs; by split).
    unfold hardStallCallback. repeat case_match; try done.
    by apply good_scheduleMiddleState.
  - destruct (timerDue _ _); [|done].
    apply good_dispose. destruct Hs; by split.
  - by apply good_laneStep.
  - destruct Hs; by split.
Qed.

Lemma good_run (evs : list event) (s : state) : good s → good (run' evs s).
Proof.
  revert s. induction evs as [|ev evs IH]; intros s Hs; simpl; [done|].
  by apply IH, good_step.
Qed.

Lemma nothing_after_last {A} (x : A) (l l1 l2 : list A) :
  x ∉ l → l1 ++ x :: l2 = l ++ [x] → l2 = [].
Proof.
  intros Hx Heq. destruct l2 as [|y l2 _] using rev_ind; [done|].
  change (x :: l2 ++ [y]) with ((x :: l2) ++ [y]) in Heq.
  rewrite app_assoc in Heq. apply app_inj_tail in Heq as [<- _].
  exfalso. apply Hx, elem_of_app. right. by apply elem_of_cons; left.
Qed.

Lemma sealed_frame (term : DiscordWorkEmoji) (s s' : state) :
  terminal s' = terminal s → log s' = log s →
  pendingSets (lane s') = pendingSets (lane s) →
  sealed term s → sealed term s'.
Proof. unfold sealed. by intros -> -> ->. Qed.

Lemma dispose_frame (s : state) :
  terminal (dispose s) = terminal s ∧ log (dispose s) = log s
  ∧ pendingSets (lane (dispose s)) = pendingSets (lane s).
Proof.
  unfold dispose. destruct (disposed s); [done|]. simpl.
  destruct (currentEmoji s); simpl; [|done].
  rewrite pendingSets_app. unfold pendingSets at 2. simpl. by rewrite app_nil_r.
Qed.

Lemma sealed_laneStep (term : DiscordWorkEmoji) (r : response) (s : state) :
  sealed term s → sealed term (laneStep hasOnError r s).
Proof.
  intros [Hterm Hcase].
  destruct (laneStep_sets r s) as (Ht & _ & _ & _ & Hsets). cbn zeta in *.
  split; [by rewrite Ht|].
  destruct Hsets as [[E1 E2]|(e & rest & Hq & E2 & E1)].
  { by rewrite E1, E2. }
  destruct Hcase as [(Hnot & q & Hpend & Hq')|(Hnil & _)]; [|congruence].
  rewrite Hq in Hpend. rewrite E2.
  destruct q as [|e' q]; simplify_eq/=.
  - (* the terminal icon itself is at the head *)
    right. split; [done|]. intros l1 l2 Hl.
    destruct E1 as [E1|E1]; rewrite E1 in Hl.
    + exfalso. apply Hnot. rewrite Hl. apply elem_of_app. right.
      by apply elem_of_cons; left.
    + by eapply (nothing_after_last term (setsOf (log s))).
  - (* an earlier icon is at the head *)
    left. apply not_elem_of_cons in Hq' as [Hne Hq'].
    split; [|by eauto].
    destruct E1 as [-> | ->]; [done|].
    rewrite elem_of_app, list_elem_of_singleton. intros [?|?]; done.
Qed.

(** After the terminal call, no event other than [start] breaks the seal. *)
Lemma sealed_step (term : DiscordWorkEmoji) (ev : event) (s : state) :
  isStart ev = false → sealed term s → sealed term (step' ev s).
Proof.
  intros Hev Hs. pose proof Hs as [Hterm _].
  destruct ev; simplify_eq/=.
  - unfold thinking. by rewrite Hterm, orb_true_r.
  - unfold tool. by rewrite Hterm, orb_true_r.
  - unfold progress. by rewrite Hterm, orb_true_r.
  - unfold succeed, finish. by rewrite Hterm, orb_true_r.
  - unfold fail, finish. by rewrite Hterm, orb_true_r.
  - destruct (dispose_frame s) as (? & ? & ?). by eapply sealed_frame.
  - destruct (timerDue _ _); [|done]. unfold debounceCallback. simpl.
    rewrite Hterm, orb_true_r. by destruct (pendingMiddleEmoji s).
  - destruct (timerDue _ _); [|done]. unfold softStallCallback. simpl.
    by rewrite Hterm, orb_true_r.
  - destruct (timerDue _ _); [|done]. unfold hardStallCallback. simpl.
    by rewrite Hterm, orb_true_r.
  - destruct (timerDue _ _); [|done].
    destruct (dispose_frame (setClearTimer TSpent s)) as (? & ? & ?).
    by eapply sealed_frame.
  - by apply sealed_laneStep.
  - done.
Qed.

Lemma sealed_run (term : DiscordWorkEmoji) (evs : list event) (s : state) :
  forallb (λ ev, negb (isStart ev)) evs = true →
  sealed term s → sealed term (run' evs s).
Proof.
  revert s. induction evs as [|ev evs IH]; intros s Hevs Hs; simpl; [done|].
  simpl in Hevs. apply andb_prop in Hevs as [Hev Hevs].
  apply IH; [done|]. apply sealed_step; [|done]. by apply negb_true_iff.
Qed.

(** What a terminal call does to a machine that is neither disposed nor
    terminal yet. *)
Lemma finish_effect (e : DiscordWorkEmoji) (hold : Z) (s : state) :
  good s → disposed s = false → terminal s = false →
  let s1 := finish e hold s in
  terminal s1 = true ∧ disposed s1 = false
  ∧ pendingMiddleEmoji s1 = None ∧ debounceTimer s1 = TNull
  ∧ softStallTimer s1 = TNull ∧ hardStallTimer s1 = TNull
  ∧ lane s1 = lane s ++ [{| body := SetEmoji e; holdMs := Some hold |}]
  ∧ log s1 = log s ∧ currentEmoji s1 = currentEmoji s.
Proof.
  intros Hs Hd Ht. unfold finish. rewrite Hd, Ht. simpl.
  destruct (debounceTimer s) eqn:Hdb; simpl; split_and!; try done.
  destruct (pendingMiddleEmoji s) eqn:Hp; [|done].
  pose proof (good_debounce _ Hs Hd) as Hset. rewrite Hp, Hdb in Hset.
  by specialize (Hset (mk_is_Some _ _ eq_refl)).
Qed.

Lemma finish_seals (e : DiscordWorkEmoji) (hold : Z) (s : state) :
  isTerminalEmoji e = true →
  good s → disposed s = false → terminal s = false →
  sealed e (finish e hold s).
Proof.
  intros He Hs Hd Ht.
  destruct (finish_effect e hold s Hs Hd Ht) as (Ht1 & _ & _ & _ & _ & _ & Hl & Hlog & _).
  cbn zeta in *. split; [done|]. left. rewrite Hlog, Hl, pendingSets_app.
  assert (Hfresh : e ∉ setsOf (log s) ++ pendingSets (lane s)).
  { intros Hin. apply (good_fresh _ Hs Ht) in Hin. congruence. }
  apply not_elem_of_app in Hfresh as [Hf1 Hf2].
  split; [done|]. by exists (pendingSets (lane s)).
Qed.

(** The terminal flag is never reset. *)
Lemma terminal_stays (ev : event) (s : state) :
  terminal s = true → terminal (step' ev s) = true.
Proof.
  intros Ht. destruct ev; simpl.
  - unfold start, markProgress, scheduleStallChecks. cbn. rewrite Ht, orb_true_r.
    by destruct (disposed s).
  - unfold thinking. by rewrite Ht, orb_true_r.
  - unfold tool. by rewrite Ht, orb_true_r.
  - unfold progress. by rewrite Ht, orb_true_r.
  - unfold succeed, finish. by rewrite Ht, orb_true_r.
  - unfold fail, finish. by rewrite Ht, orb_true_r.
  - by rewrite (proj1 (dispose_frame s)).
  - destruct (timerDue _ _); [|done]. unfold debounceCallback. simpl.
    rewrite Ht, orb_true_r. by destruct (pendingMiddleEmoji s).
  - destruct (timerDue _ _); [|done]. unfold softStallCallback. simpl.
    by rewrite Ht, orb_true_r.
  - destruct (timerDue _ _); [|done]. unfold hardStallCallback. simpl.
    by rewrite Ht, orb_true_r.
  - destruct (timerDue _ _); [|done].
    by rewrite (proj1 (dispose_frame (setClearTimer TSpent s))).
  - destruct (laneStep_sets r s) as (-> & _). done.
  - done.
Qed.

Lemma terminal_stays_run (evs : list event) (s : state) :
  terminal s = true → terminal (run' evs s) = true.
Proof.
  revert s. induction evs as [|ev evs IH]; intros s Ht; simpl; [done|].
  by apply IH, terminal_stays.
Qed.

(** C10.  Take a machine, in any state it can reach, that is neither
    disposed nor terminal, and let [succeed] (or [fail]) run.  The pending
    middle-state icon is gone and the debounce timer and both stall timers
    are cleared.  Whatever happens next, every [thinking], [tool],
    [progress], [succeed] or [fail] call leaves the state exactly as it is.
    And as long as what happens next is anything but [start] (those calls,
    timers, lane steps with any outcome, time passing, [dispose]),
    [setReaction] is never called again once it has been called with the
    terminal icon; [dispose] then queues the removal of the icon shown.
    [start] is the exception: it has no [terminal] guard, and called on the
    machine before [dispose] it stamps the time and queues the closure that
    sets the eyes, without arming any timer. *)
Theorem terminal_call_is_final (t0 : Z) (history later : list event)
    (success : bool) :
  let s := run' history (init t0) in
  let fin := if success then Succeed else Fail in
  let term := if success then Check else Cross in
  let s1 := step' fin s in
  let s2 := run' later s1 in
  disposed s = false → terminal s = false →
  (terminal s1 = true ∧ pendingMiddleEmoji s1 = None
   ∧ debounceTimer s1 = TNull ∧ softStallTimer s1 = TNull
   ∧ hardStallTimer s1 = TNull)
  ∧ (step' Thinking s2 = s2 ∧ (∀ toolText, step' (Tool toolText) s2 = s2)
     ∧ step' Progress s2 = s2 ∧ step' Succeed s2 = s2 ∧ step' Fail s2 = s2)
  ∧ (forallb (λ ev, negb (isStart ev)) later = true →
     ∀ l1 l2, setsOf (log s2) = l1 ++ term :: l2 → l2 = [])
  ∧ (disposed s2 = false → ∀ e, currentEmoji s2 = Some e →
     lane (step' Dispose s2)
     = lane s2 ++ [{| body := ClearReaction e; holdMs := None |}]
     ∧ currentEmoji (step' Dispose s2) = None)
  ∧ (disposed s2 = false →
     lane (step' Start s2)
     = lane s2 ++ [{| body := SetEmoji Eyes; holdMs := None |}]
     ∧ lastProgressAt (step' Start s2) = now s2
     ∧ terminal (step' Start s2) = true
     ∧ pendingMiddleEmoji (step' Start s2) = pendingMiddleEmoji s2
     ∧ debounceTimer (step' Start s2) = debounceTimer s2
     ∧ softStallTimer (step' Start s2) = softStallTimer s2
     ∧ hardStallTimer (step' Start s2) = hardStallTimer s2
     ∧ clearTimer (step' Start s2) = clearTimer s2
     ∧ log (step' Start s2) = log s2).
Proof.
  intros s fin term s1 s2 Hd Ht.
  assert (Hs : good s) by apply good_run, good_init.
  assert (Hfin : s1 = finish term (if success then SUCCESS_HOLD_MS else FAILURE_HOLD_MS) s).
  { unfold s1, fin, term. by destruct success. }
  assert (Hterm : isTerminalEmoji term = true) by (unfold term; by destruct success).
  destruct (finish_effect term (if success then SUCCESS_HOLD_MS else FAILURE_HOLD_MS)
              s Hs Hd Ht) as (F1 & _ & F2 & F3 & F4 & F5 & _).
  cbn zeta in *. rewrite <-Hfin in F1, F2, F3, F4, F5.
  assert (Ht2 : terminal s2 = true) by (by apply terminal_stays_run).
  split_and!; try done.
  - simpl. unfold thinking. by rewrite Ht2, orb_true_r.
  - intros toolText. simpl. unfold tool. by rewrite Ht2, orb_true_r.
  - simpl. unfold progress. by rewrite Ht2, orb_true_r.
  - simpl. unfold succeed, finish. by rewrite Ht2, orb_true_r.
  - simpl. unfold fail, finish. by rewrite Ht2, orb_true_r.
  - intros Hlater.
    assert (Hseal : sealed term s2).
    { apply sealed_run; [done|]. rewrite Hfin. by apply finish_seals. }
    destruct Hseal as [_ [(Hnot & _)|(_ & Hlast)]]; [|done].
    intros l1 l2 Hl. exfalso. apply Hnot. rewrite Hl.
    apply elem_of_app. right. by apply elem_of_cons; left.
  - intros Hd2 e He. simpl. unfold dispose. rewrite Hd2. simpl. by rewrite He.
  - intros Hd2. simpl. unfold start, markProgress, scheduleStallChecks.
    rewrite Hd2. cbn. rewrite Hd2, Ht2. cbn. by split_and!.
Qed.

End RSMInvariants.

Section RSMExamples.

Import RSM.

Lemma terminal_call_is_final_witness :
  let history := [Start; LaneStep Resolved; Thinking; Advance 100] in
  let later := [LaneStep Resolved; FireDebounce; LaneStep (Rejected "down");
                LaneStep Resolved; LaneStep Resolved; Thinking;
                Advance 1500; FireClear; LaneStep Resolved] in
  let s2 := run asciiLower true later
              (step asciiLower true Succeed (run asciiLower true history (init 0))) in
  setsOf (log s2) = [Eyes; Check]
  ∧ ∀ l1 l2, setsOf (log s2) = l1 ++ Check :: l2 → l2 = [].
Proof.
  split; [reflexivity|].
  refine (proj1 (proj2 (proj2
    (terminal_call_is_final asciiLower true 0
       [Start; LaneStep Resolved; Thinking; Advance 100]
       [LaneStep Resolved; FireDebounce; LaneStep (Rejected "down");
        LaneStep Resolved; LaneStep Resolved; Thinking;
        Advance 1500; FireClear; LaneStep Resolved]
       true _ _))) _); reflexivity.
Defined.

(** [start] is outside the seal: it has no [terminal] guard.  Here the
    machine shows the eyes, [succeed] puts the check mark in their place,
    and [start] is called again while the check mark is held: the lane
    removes the check mark and sets the eyes, before [dispose] and the
    clear timer have run. *)
Lemma start_after_succeed :
  let s := run asciiLower true
             [Start; LaneStep Resolved; LaneStep Resolved;
              Succeed; LaneStep Resolved; LaneStep Resolved; LaneStep Resolved]
             (init 0) in
  let s' := run asciiLower true
              [Start; LaneStep Resolved; LaneStep Resolved; LaneStep Resolved] s in
  (terminal s = true ∧ disposed s = false ∧ currentEmoji s = Some Check
   ∧ setsOf (log s) = [Eyes; Check])
  ∧ (disposed s' = false ∧ clearTimer s' = TArmed 1500
     ∧ setsOf (log s') = [Eyes; Check; Eyes]
     ∧ clearsOf (log s') = [Eyes; Check]
     ∧ currentEmoji s' = Some Eyes).
Proof. split; split_and!; reflexivity. Qed.

End RSMExamples.

(** ** Failures of external calls: the controller of the message handler *)

Section CtlFailures.

Import Ctl.

Variable toLowerCase : jsstring → jsstring.
Variable p : params.

Local Abbreviation step' := (step toLowerCase p).
Local Abbreviation run' := (run toLowerCase p).

Lemma requestEmoji_quiet (emoji : jsstring) (immediate allow : bool) (s : state) :
  log (requestEmoji p emoji immediate allow s) = log s
  ∧ escaped (requestEmoji p emoji immediate allow s) = escaped s.
Proof. unfold requestEmoji. by repeat case_match. Qed.

(** What [clearLoop] does in one step: nothing is left to remove and it is
    done, or it removes one icon, logs the failure if there is one, and
    suspends with fewer icons left. *)
Lemma clearLoop_spec (r : response) (rest : list jsstring) (s : state) :
  clearLoop r rest s = (s, Done)
  ∨ ∃ emoji rest',
      clearLoop r rest s
      = (addLog (Remove emoji :: reportOf r) s, Suspend (ClearLoop rest'))
      ∧ (length rest' < length rest)%nat.
Proof.
  induction rest as [|emoji rest IH]; simpl; [by left|].
  destruct (truthy emoji); simpl.
  - right. exists emoji, rest. split; [|lia].
    unfold reportOf. destruct (failureOf r); simpl; [|done].
    unfold addLog; simpl. by rewrite <-app_assoc.
  - destruct IH as [->|(e' & rest' & -> & Hlen)]; [by left|].
    right. exists e', rest'. split; [done|lia].
Qed.

Lemma setOf_length (seen l : list jsstring) : (length (setOf seen l) ≤ length l)%nat.
Proof.
  revert seen. induction l as [|x l IH]; intros seen; simpl; [done|].
  case_bool_decide; simpl; [specialize (IH seen)|specialize (IH (x :: seen))]; lia.
Qed.

Lemma cleanupCandidates_length (s : state) :
  (length (cleanupCandidates p s) ≤ 10)%nat.
Proof. unfold cleanupCandidates. etrans; [apply setOf_length|]. done. Qed.

(** Resuming a closure under the [catch] of the chain: it never comes out
    rejected; at most one external call is made, and its failure is logged
    right after it; and what is left of the closure is lighter. *)
Lemma chainTask_spec (r : response) (t : task) (s : state) :
  ∃ s1 o,
    catchLog (runTask p r t s) = (s1, o)
    ∧ chain s1 = chain s ∧ escaped s1 = escaped s
    ∧ (log s1 = log s
       ∨ ∃ call, isCall call = true ∧ log s1 = log s ++ call :: reportOf r)
    ∧ match o with
      | Done => True
      | Suspend t' => (weight t' < weight t)%nat
      | Raise _ => False
      end.
Proof.
  destruct t as [emoji|emoji prev| |cands]; unfold runTask.
  - destruct (_ || _); simpl.
    { eexists _, _. split_and!; [done..|by left|done]. }
    unfold reportOf. destruct (failureOf r) as [err|]; simpl;
      eexists _, _; (split_and!; [done..| |simpl; done || lia]);
      right; exists (React emoji); simpl; by rewrite <-?app_assoc.
  - destruct prev as [prev|]; simpl.
    2:{ eexists _, _. split_and!; [done..|by left|done]. }
    destruct (_ && _); simpl.
    2:{ eexists _, _. split_and!; [done..|by left|done]. }
    unfold reportOf. destruct (failureOf r) as [err|]; simpl;
      eexists _, _; (split_and!; [done..| |simpl; done || lia]);
      right; exists (Remove prev); simpl; by rewrite <-?app_assoc.
  - pose proof (cleanupCandidates_length s) as Hlen.
    destruct (clearLoop_spec r (cleanupCandidates p s) (setActiveEmoji None s))
      as [->|(e' & rest' & -> & Hlt)]; cbn [catchLog].
    + eexists _, _. split_and!; [done..|by left|done].
    + eexists _, _. split_and!; [done..| |cbn [weight]; lia].
      right. by exists (Remove e').
  - destruct (clearLoop_spec r cands s) as [->|(e' & rest' & -> & Hlt)];
      cbn [catchLog].
    + eexists _, _. split_and!; [done..|by left|done].
    + eexists _, _. split_and!; [done..| |cbn [weight]; lia].
      right. by exists (Remove e').
Qed.

(** One step of the chain. *)
Lemma chainStep_spec (r : response) (s : state) :
  let s' := chainStep p r s in
  escaped s' = escaped s
  ∧ (log s' = log s
     ∨ ∃ call, isCall call = true ∧ log s' = log s ++ call :: reportOf r)
  ∧ (chain s ≠ [] → (chainWeight (chain s') < chainWeight (chain s))%nat).
Proof.
  unfold chainStep. destruct (chain s) as [|t rest] eqn:Hchain.
  { split_and!; [done|by left|done]. }
  destruct (chainTask_spec r t s) as (s1 & o & -> & Hc & He & Hlog & Ho).
  unfold chainWeight. destruct o as [|t'|err]; [| |done]; cbn.
  - split_and!; [done..|]. intros _. destruct t; simpl; lia.
  - split_and!; [done..|]. intros _. lia.
Qed.

(** Only chain steps talk to the platform. *)
Lemma call_quiet (ev : event) (s : state) :
  isChainStep ev = false →
  log (step' ev s) = log s ∧ escaped (step' ev s) = escaped s.
Proof.
  intros Hev. destruct ev; simplify_eq/=;
    unfold setQueued, setWaiting, setPhase, setTerminal, setRetryableError,
      clear, restoreInitial, pendingCallback, softStallCallback,
      hardStallCallback, transitionSemanticPhase;
    repeat (case_match; simplify_eq/=);
    rewrite ?(proj1 (requestEmoji_quiet _ _ _ _)),
            ?(proj2 (requestEmoji_quiet _ _ _ _));
    simpl; try done;
    unfold scheduleStallTimers; by repeat case_match.
Qed.

Lemma no_escape_step (ev : event) (s : state) :
  escaped (step' ev s) = escaped s.
Proof.
  destruct (isChainStep ev) eqn:Hev.
  - destruct ev; simplify_eq/=. apply chainStep_spec.
  - by apply call_quiet.
Qed.

Lemma no_escape_run (evs : list event) (s : state) :
  escaped (run' evs s) = escaped s.
Proof.
  revert s. induction evs as [|ev evs IH]; intros s; simpl; [done|].
  by rewrite IH, no_escape_step.
Qed.

(** Enough chain steps, with any outcomes, empty the chain. *)
Lemma chain_drains (rs : list response) (s : state) :
  (chainWeight (chain s) ≤ length rs)%nat →
  chain (run' (ChainStep <$> rs) s) = [].
Proof.
  revert s. induction rs as [|r rs IH]; intros s Hw; simpl in *.
  - destruct (chain s) as [|t rest]; [done|].
    unfold chainWeight in Hw. simpl in Hw. destruct t; simpl in Hw; lia.
  - apply IH. destruct (chainStep_spec r s) as (_ & _ & Hlt). cbn zeta in Hlt.
    destruct (chain s) as [|t rest] eqn:Hchain.
    + unfold chainStep. rewrite !Hchain. unfold chainWeight. simpl. lia.
    + specialize (Hlt ltac:(done)). lia.
Qed.

(** On an idle chain, an icon handed to [applyEmoji] is the active icon two
    resolved steps later. *)
Lemma applyEmoji_applies (emoji : jsstring) (s : state) :
  enabled p = true → truthy emoji = true → chain s = [] →
  let s' := run' [ChainStep Resolved; ChainStep Resolved] (applyEmoji emoji s) in
  activeEmoji s' = Some emoji ∧ chain s' = [].
Proof.
  intros Hen Hemoji Hidle. cbn [run foldl step].
  unfold applyEmoji, enqueue. rewrite Hidle. unfold chainStep at 2.
  cbn. rewrite Hen, Hemoji. cbn.
  case_bool_decide as Hsame; cbn.
  { unfold chainStep. by cbn. }
  unfold chainStep. cbn.
  destruct (activeEmoji s) as [prev|]; cbn; [|done].
  by destruct (truthy prev && negb (bool_decide (prev = emoji))).
Qed.

End CtlFailures.

(** ** Failures of external calls: the reaction status machine *)

Section RSMFailures.

Import RSM.

Variable toLowerCase : jsstring → jsstring.
Variable hasOnError : bool.

Local Abbreviation step' := (step toLowerCase hasOnError).
Local Abbreviation run' := (run toLowerCase hasOnError).

Lemma onError_log (prefix e : string) (call : obs) (s : state) (r : response) :
  failureOf r = Some e →
  log (onError hasOnError (prefix +:+ e) (addLog [call] s))
  = log s ++ call :: reportOf hasOnError prefix r
  ∧ lane (onError hasOnError (prefix +:+ e) (addLog [call] s)) = lane s
  ∧ escaped (onError hasOnError (prefix +:+ e) (addLog [call] s)) = escaped s.
Proof.
  intros Hr. unfold onError, reportOf. rewrite Hr.
  destruct hasOnError; simpl; by rewrite <-?app_assoc.
Qed.

(** Resuming a closure under the [catch] of the lane: it never comes out
    rejected; at most one external call is made, and its failure is reported
    to [onError] (when there is one) right after it; and what is left of the
    closure is lighter. *)
Lemma laneTask_spec (r : response) (b : taskBody) (hold : option Z) (s : state) :
  ∃ s1 o,
    catchLane hasOnError (runTask hasOnError r b s) = (s1, o)
    ∧ lane s1 = lane s ∧ escaped s1 = escaped s
    ∧ (log s1 = log s
       ∨ ∃ call prefix, isCall call = true
           ∧ log s1 = log s ++ call :: reportOf hasOnError prefix r)
    ∧ match o with
      | Done => True
      | Suspend b' =>
          (weight {| body := b'; holdMs := hold |}
           < weight {| body := b; holdMs := hold |})%nat
      | Raise _ => False
      end.
Proof.
  assert (Hset : ∀ e,
    ∃ s1 o,
      catchLane hasOnError (callSetReaction hasOnError r e s) = (s1, o)
      ∧ lane s1 = lane s ∧ escaped s1 = escaped s
      ∧ (∃ call prefix, isCall call = true
           ∧ log s1 = log s ++ call :: reportOf hasOnError prefix r)
      ∧ (o = Done ∨ o = Suspend (SetEmojiSet e))).
  { intros e. unfold callSetReaction. destruct r as [|err|err]; cbn [catchLane].
    - eexists _, _. split_and!; [done..| |by right].
      by exists (CallSet e), "".
    - destruct (onError_log "discord status set reaction failed: " err
                  (CallSet e) s (Rejected err) eq_refl) as (Hl & Hn & He).
      eexists _, _. split_and!; [done..| |by right].
      by exists (CallSet e), "discord status set reaction failed: ".
    - destruct (onError_log "discord status reaction failed: " err
                  (CallSet e) s (Thrown err) eq_refl) as (Hl & Hn & He).
      eexists _, _. split_and!; [done..| |by left].
      by exists (CallSet e), "discord status reaction failed: ". }
  destruct b as [e|e|e|e]; unfold runTask.
  - destruct (_ || _).
    { eexists _, _. split_and!; [done..|by left|done]. }
    destruct (currentEmoji s) as [prev|].
    + destruct r as [|err|err]; cbn [catchLane].
      * eexists _, _. split_and!; [done..| |cbn; lia].
        right. by exists (CallClear prev), "".
      * destruct (onError_log "discord status remove reaction failed: " err
                    (CallClear prev) s (Rejected err) eq_refl) as (Hl & Hn & He).
        eexists _, _. split_and!; [done..| |cbn; lia].
        right. by exists (CallClear prev), "discord status remove reaction failed: ".
      * destruct (onError_log "discord status reaction failed: " err
                    (CallClear prev) s (Thrown err) eq_refl) as (Hl & Hn & He).
        eexists _, _. split_and!; [done..| |done].
        right. by exists (CallClear prev), "discord status reaction failed: ".
    + destruct (Hset e) as (s1 & o & -> & Hn & He & Hl & [-> | ->]);
        eexists _, _; (split_and!; [done..|by right|cbn; done || lia]).
  - destruct (Hset e) as (s1 & o & -> & Hn & He & Hl & [-> | ->]);
      eexists _, _; (split_and!; [done..|by right|cbn; done || lia]).
  - eexists _, _. split_and!; [done..|by left|done].
  - destruct r as [|err|err]; cbn [catchLane].
    + eexists _, _. split_and!; [done..| |done].
      right. by exists (CallClear e), "".
    + destruct (onError_log "discord status clear reaction failed: " err
                  (CallClear e) s (Rejected err) eq_refl) as (Hl & Hn & He).
      eexists _, _. split_and!; [done..| |done].
      right. by exists (CallClear e), "discord status clear reaction failed: ".
    + destruct (onError_log "discord status reaction failed: " err
                  (CallClear e) s (Thrown err) eq_refl) as (Hl & Hn & He).
      eexists _, _. split_and!; [done..| |done].
      right. by exists (CallClear e), "discord status reaction failed: ".
Qed.

(** One step of the lane. *)
Lemma laneStep_spec (r : response) (s : state) :
  let s' := laneStep hasOnError r s in
  escaped s' = escaped s
  ∧ (log s' = log s
     ∨ ∃ call prefix, isCall call = true
         ∧ log s' = log s ++ call :: reportOf hasOnError prefix r)
  ∧ (lane s ≠ [] → (laneWeight (lane s') < laneWeight (lane s))%nat).
Proof.
  unfold laneStep. destruct (lane s) as [|[b hold] rest] eqn:Hlane.
  { split_and!; [done|by left|done]. }
  cbn [body holdMs].
  destruct (laneTask_spec r b hold s) as (s1 & o & -> & Hn & He & Hlog & Ho).
  unfold laneWeight. destruct o as [|b'|err]; [| |done].
  - assert (Hr : ∀ s0 : state,
      escaped (resumeCaller hold (setLane rest s0)) = escaped s0
      ∧ log (resumeCaller hold (setLane rest s0)) = log s0
      ∧ lane (resumeCaller hold (setLane rest s0)) = rest).
    { intros s0. unfold resumeCaller. by destruct hold. }
    destruct (Hr s1) as (-> & -> & ->).
    split_and!; [done..|]. intros _. cbn. destruct b; cbn; lia.
  - cbn. split_and!; [done..|]. intros _. cbn in Ho. lia.
Qed.

(** Only lane steps talk to the platform. *)
Lemma call_quiet_machine (ev : event) (s : state) :
  isLaneStep ev = false →
  log (step' ev s) = log s ∧ escaped (step' ev s) = escaped s.
Proof.
  intros Hev. destruct ev; simplify_eq/=;
    unfold start, thinking, tool, progress, succeed, fail, finish, dispose,
      debounceCallback, softStallCallback, hardStallCallback, markProgress,
      scheduleMiddleState, scheduleStallChecks, clearTimers;
    cbn; repeat (case_match; simplify_eq/=); done.
Qed.

Lemma no_escape_step_machine (ev : event) (s : state) :
  escaped (step' ev s) = escaped s.
Proof.
  destruct (isLaneStep ev) eqn:Hev.
  - destruct ev; simplify_eq/=. apply laneStep_spec.
  - by apply call_quiet_machine.
Qed.

Lemma no_escape_run_machine (evs : list event) (s : state) :
  escaped (run' evs s) = escaped s.
Proof.
  revert s. induction evs as [|ev evs IH]; intros s; simpl; [done|].
  by rewrite IH, no_escape_step_machine.
Qed.

(** Enough lane steps, with any outcomes, empty the lane; no lane step
    disposes of the machine. *)
Lemma lane_drains (rs : list response) (s : state) :
  (laneWeight (lane s) ≤ length rs)%nat →
  lane (run' (LaneStep <$> rs) s) = []
  ∧ disposed (run' (LaneStep <$> rs) s) = disposed s.
Proof.
  revert s. induction rs as [|r rs IH]; intros s Hw; simpl in *.
  - destruct (lane s) as [|[b h] rest]; [done|].
    unfold laneWeight in Hw. cbn in Hw. destruct b; cbn in Hw; lia.
  - destruct (laneStep_sets hasOnError r s) as (_ & Hd & _). cbn zeta in Hd.
    rewrite <-Hd. apply IH.
    destruct (laneStep_spec r s) as (_ & _ & Hlt). cbn zeta in Hlt.
    destruct (lane s) as [|t rest] eqn:Hlane.
    + unfold laneStep. rewrite !Hlane. unfold laneWeight. simpl. lia.
    + specialize (Hlt ltac:(done)). lia.
Qed.

Lemma setEmoji_applies (e : DiscordWorkEmoji) (s : state) :
  disposed s = false → lane s = [] →
  let s' := laneStep hasOnError Resolved
              (laneStep hasOnError Resolved
                 (laneStep hasOnError Resolved (enqueue (SetEmoji e) None s))) in
  currentEmoji s' = Some e ∧ lane s' = [].
Proof.
  destruct s as [cur pend last disp term db soft hard clr ln nw lg esc].
  simpl. intros -> ->. unfold enqueue, laneStep. cbn.
  case_bool_decide as Hsame; cbn; [done|].
  destruct cur as [prev|]; cbn; done.
Qed.

Lemma markProgress_frame (s : state) :
  disposed (markProgress s) = disposed s ∧ lane (markProgress s) = lane s.
Proof. unfold markProgress, scheduleStallChecks. by destruct (_ || _). Qed.

(** On an idle machine that is not disposed, [start] has its icon shown
    three resolved steps later. *)
Lemma start_applies (s : state) :
  disposed s = false → lane s = [] →
  let s' := run' [Start; LaneStep Resolved; LaneStep Resolved; LaneStep Resolved] s in
  currentEmoji s' = Some Eyes ∧ lane s' = [].
Proof.
  intros Hd Hidle. cbn [run foldl step]. unfold start. rewrite Hd.
  destruct (markProgress_frame s) as [Hd' Hl'].
  apply setEmoji_applies; congruence.
Qed.

End RSMFailures.

(** ** Stall timers *)

Section RSMStall.

Import RSM.

Variable toLowerCase : jsstring → jsstring.
Variable hasOnError : bool.

Local Abbreviation step' := (step toLowerCase hasOnError).
Local Abbreviation run' := (run toLowerCase hasOnError).

Lemma laneStep_clock (r : response) (s : state) :
  now (laneStep hasOnError r s) = now s.
Proof.
  unfold laneStep. destruct (lane s) as [|[b hold] rest]; [done|].
  assert (Hresume : ∀ s0, now (resumeCaller hold (setLane rest s0)) = now s0).
  { intros s0. unfold resumeCaller. by destruct hold. }
  unfold runTask, callSetReaction, onError.
  destruct b; cbn; repeat case_match; simplify_eq/=; rewrite ?Hresume;
    try done; unfold onError; by destruct hasOnError.
Qed.

Lemma debounceBound_scheduleMiddleState (e : DiscordWorkEmoji) (s : state) :
  debounceBound s → debounceBound (scheduleMiddleState e s).
Proof.
  intros Hs. unfold scheduleMiddleState. repeat case_match; try done.
  intros _ _. simpl. eexists. split; [done|]. lia.
Qed.

Lemma debounceBound_markProgress (s : state) :
  debounceBound s → debounceBound (markProgress s).
Proof.
  intros Hs. unfold markProgress, scheduleStallChecks.
  by destruct (_ || _).
Qed.

Lemma debounceBound_dispose (s : state) : debounceBound (dispose s).
Proof.
  unfold dispose. destruct (disposed s) eqn:Hd.
  - intros Hd'. congruence.
  - intros Hd'. exfalso. revert Hd'. cbn. by destruct (currentEmoji s).
Qed.

Lemma debounceBound_step (ev : event) (s : state) :
  debounceBound s → debounceBound (step' ev s).
Proof.
  intros Hs. destruct ev; simpl.
  - unfold start. destruct (disposed s) eqn:Hd; [done|].
    apply debounceBound_markProgress in Hs. revert Hs.
    unfold debounceBound, enqueue. by cbn.
  - unfold thinking. destruct (_ || _); [done|].
    by apply debounceBound_scheduleMiddleState, debounceBound_markProgress.
  - unfold tool. destruct (_ || _); [done|].
    by apply debounceBound_scheduleMiddleState, debounceBound_markProgress.
  - unfold progress. destruct (_ || _); [done|].
    by apply debounceBound_markProgress.
  - unfold succeed, finish. destruct (_ || _) eqn:Hlive; [done|].
    apply orb_false_elim in Hlive as [Hd _].
    unfold debounceBound, enqueue. cbn.
    destruct (debounceTimer s) eqn:Hdb; cbn; intros _ Hp; try by destruct Hp.
    destruct (Hs Hd Hp) as (d & Hd' & _). congruence.
  - unfold fail, finish. destruct (_ || _) eqn:Hlive; [done|].
    apply orb_false_elim in Hlive as [Hd _].
    unfold debounceBound, enqueue. cbn.
    destruct (debounceTimer s) eqn:Hdb; cbn; intros _ Hp; try by destruct Hp.
    destruct (Hs Hd Hp) as (d & Hd' & _). congruence.
  - apply debounceBound_dispose.
  - destruct (timerDue _ _); [|done]. unfold debounceCallback.
    assert (Hnone : debounceBound (setDebounce None TNull s))
      by (intros _ Hp; by destruct Hp).
    destruct (pendingMiddleEmoji s); [|done].
    destruct (_ || _); [done|]. revert Hnone. unfold debounceBound, enqueue. by cbn.
  - destruct (timerDue _ _); [|done].
    assert (Hs' : debounceBound (setStallTimers TSpent (hardStallTimer s) s)) by done.
    unfold softStallCallback. repeat case_match; try done.
    by apply debounceBound_scheduleMiddleState.
  - destruct (timerDue _ _); [|done].
    assert (Hs' : debounceBound (setStallTimers (softStallTimer s) TSpent s)) by done.
    unfold hardStallCallback. repeat case_match; try done.
    by apply debounceBound_scheduleMiddleState.
  - destruct (timerDue _ _); [|done]. apply debounceBound_dispose.
  - destruct (laneStep_sets hasOnError r s) as (_ & Hd & Hp & Hdb & _).
    cbn zeta in *. unfold debounceBound.
    by rewrite Hd, Hp, Hdb, laneStep_clock.
  - intros Hd Hp. destruct (Hs Hd Hp) as (d & Hd' & Hle).
    exists d. split; [done|]. simpl. lia.
Qed.

Lemma debounceBound_run (evs : list event) (s : state) :
  debounceBound s → debounceBound (run' evs s).
Proof.
  revert s. induction evs as [|ev evs IH]; intros s Hs; simpl; [done|].
  by apply IH, debounceBound_step.
Qed.










End RSMStall.

Section CtlStall.

Import Ctl.

Variable toLowerCase : jsstring → jsstring.
Variable p : params.

Local Abbreviation step' := (step toLowerCase p).
Local Abbreviation run' := (run toLowerCase p).

Lemma requestEmoji_timers (emoji : jsstring) (immediate allow : bool) (s : state) :
  let s' := requestEmoji p emoji immediate allow s in
  finished s' = finished s ∧ softStallTimer s' = softStallTimer s
  ∧ hardStallTimer s' = hardStallTimer s ∧ now s' = now s.
Proof. unfold requestEmoji. by repeat case_match. Qed.

(** A progress signal on an indicator that is enabled, not finished and not
    terminal arms both stall timers for their full windows. *)
Lemma progress_rearms_ctl (ev : event) (s : state) :
  isProgress ev = true → transitionsAllowed p = true →
  finished s = false → semanticPhase s ≠ PTerminal →
  let s0 := step' ev s in
  softStallTimer s0 = TArmed (now s + DISCORD_STATUS_STALL_SOFT_MS)
  ∧ hardStallTimer s0 = TArmed (now s + DISCORD_STATUS_STALL_HARD_MS)
  ∧ finished s0 = false ∧ now s0 = now s.
Proof.
  intros Hev Hon Hlive Hphase.
  assert (Hset : ∀ emoji,
    let s0 := setPhase p emoji s in
    softStallTimer s0 = TArmed (now s + DISCORD_STATUS_STALL_SOFT_MS)
    ∧ hardStallTimer s0 = TArmed (now s + DISCORD_STATUS_STALL_HARD_MS)
    ∧ finished s0 = false ∧ now s0 = now s).
  { intros emoji. unfold setPhase. rewrite Hon, Hlive. cbn.
    unfold transitionSemanticPhase.
    rewrite bool_decide_eq_false_2 by done.
    destruct (_ <? _)%Z eqn:Hlt.
    { apply Z.ltb_lt in Hlt. destruct (semanticPhase s); simpl in Hlt; done || lia. }
    cbn. destruct (requestEmoji_timers emoji false false
                     (scheduleStallTimers p (setSemanticPhase PActive s)))
      as (-> & -> & -> & ->).
    unfold scheduleStallTimers. rewrite Hon. cbn. by rewrite Hlive. }
  destruct ev; simplify_eq/=; apply Hset.
Qed.












End CtlStall.

(** ** Properties shared by both indicators *)



Example machine_soft_stall_not_before_10s :
  RSM.pendingMiddleEmoji
    (RSM.run asciiLower true
       [RSM.Thinking; RSM.Advance 9999; RSM.FireSoftStall 10000] (RSM.init 0))
  = Some RSM.Brain.
Proof. reflexivity. Qed.

Example machine_soft_stall_at_10s :
  RSM.pendingMiddleEmoji
    (RSM.run asciiLower true
       [RSM.Thinking; RSM.Advance 10000; RSM.FireSoftStall 10000] (RSM.init 0))
  = Some RSM.Hourglass.
Proof. reflexivity. Qed.

Example machine_hard_stall_at_30s :
  RSM.pendingMiddleEmoji
    (RSM.run asciiLower true
       [RSM.Thinking; RSM.Advance 30000; RSM.FireSoftStall 30000;
        RSM.FireHardStall 30000] (RSM.init 0))
  = Some RSM.Warning.
Proof. reflexivity. Qed.

Example machine_progress_resets_window :
  RSM.pendingMiddleEmoji
    (RSM.run asciiLower true
       [RSM.Thinking; RSM.Advance 9000; RSM.Progress; RSM.Advance 9000;
        RSM.FireSoftStall 18000] (RSM.init 0))
  = Some RSM.Brain.
Proof. reflexivity. Qed.

(** In the controller the request of the soft-stall icon goes through in
    the queued phase and is dropped by [requestEmoji] once the active phase
    is reached; the hard-stall icon goes through in both. *)
Example controller_stall_requests :
  let p := {| Ctl.enabled := true; Ctl.transitionMode := Ctl.Full;
              Ctl.initialEmoji := [0xD83D; 0xDC40] |} in
  Ctl.chain (Ctl.run asciiLower p
               [Ctl.SetQueued; Ctl.ChainStep Resolved; Ctl.ChainStep Resolved;
                Ctl.Advance 10000; Ctl.FireSoftStall] (Ctl.init 0))
  = [Ctl.Apply Ctl.DISCORD_STATUS_STALL_SOFT_EMOJI]
  ∧ Ctl.chain (Ctl.run asciiLower p
                 [Ctl.SetThinking; Ctl.Advance 10000; Ctl.FireSoftStall]
                 (Ctl.init 0))
    = []
  ∧ Ctl.chain (Ctl.run asciiLower p
                 [Ctl.SetThinking; Ctl.Advance 30000; Ctl.FireHardStall]
                 (Ctl.init 0))
    = [Ctl.Apply Ctl.DISCORD_STATUS_STALL_HARD_EMOJI].
Proof. split_and!; reflexivity. Qed.

(** C8.  For the status controller of the message handler and for the
    reaction status machine alike, in every state they can reach: no
    rejection has ever left the promise chain, so nothing a caller awaits
    rejects; a controller call, a timer or the clock never calls the
    platform, only a step of the chain does; such a step makes at most one
    external call, and when that call fails (by throwing or by rejecting)
    the failure is logged right after it ([logAckFailure] in the controller,
    [onError] in the machine when the callback was given); and whatever
    failed before, enough further steps empty the chain, after which a new
    request is carried out: the icon handed to [applyEmoji] becomes the
    active one, and [start] on a machine that is not disposed shows its
    icon. *)
Theorem indicator_failures_are_contained
    (toLowerCase : jsstring → jsstring) (hasOnError : bool) (p : Ctl.params)
    (t0 : Z) (hc : list Ctl.event) (hm : list RSM.event)
    (r : response) (rs : list response) (emoji : jsstring) :
  let c := Ctl.run toLowerCase p hc (Ctl.init t0) in
  let c1 := Ctl.run toLowerCase p (Ctl.ChainStep <$> rs) c in
  let c2 := Ctl.run toLowerCase p
              [Ctl.ChainStep Resolved; Ctl.ChainStep Resolved]
              (Ctl.applyEmoji emoji c1) in
  let m := RSM.run toLowerCase hasOnError hm (RSM.init t0) in
  let m1 := RSM.run toLowerCase hasOnError (RSM.LaneStep <$> rs) m in
  let m2 := RSM.run toLowerCase hasOnError
              [RSM.Start; RSM.LaneStep Resolved; RSM.LaneStep Resolved;
               RSM.LaneStep Resolved] m1 in
  (Ctl.escaped c = [] ∧ Ctl.escaped c2 = []
   ∧ (∀ ev, Ctl.isChainStep ev = false →
            Ctl.log (Ctl.step toLowerCase p ev c) = Ctl.log c)
   ∧ (Ctl.log (Ctl.chainStep p r c) = Ctl.log c
      ∨ ∃ call, Ctl.isCall call = true
          ∧ Ctl.log (Ctl.chainStep p r c) = Ctl.log c ++ call :: Ctl.reportOf r)
   ∧ ((Ctl.chainWeight (Ctl.chain c) ≤ length rs)%nat →
      Ctl.chain c1 = []
      ∧ (Ctl.enabled p = true → truthy emoji = true →
         Ctl.activeEmoji c2 = Some emoji ∧ Ctl.chain c2 = [])))
  ∧ (RSM.escaped m = [] ∧ RSM.escaped m2 = []
     ∧ (∀ ev, RSM.isLaneStep ev = false →
              RSM.log (RSM.step toLowerCase hasOnError ev m) = RSM.log m)
     ∧ (RSM.log (RSM.laneStep hasOnError r m) = RSM.log m
        ∨ ∃ call prefix, RSM.isCall call = true
            ∧ RSM.log (RSM.laneStep hasOnError r m)
              = RSM.log m ++ call :: RSM.reportOf hasOnError prefix r)
     ∧ ((RSM.laneWeight (RSM.lane m) ≤ length rs)%nat →
        RSM.lane m1 = []
        ∧ (RSM.disposed m = false →
           RSM.currentEmoji m2 = Some RSM.Eyes ∧ RSM.lane m2 = []))).
Proof.
  intros c c1 c2 m m1 m2. split.
  - split_and!.
    + apply (no_escape_run toLowerCase p).
    + unfold c2. rewrite no_escape_run. unfold Ctl.applyEmoji, Ctl.enqueue. simpl.
      unfold c1, c. by rewrite !no_escape_run.
    + intros ev Hev. by apply call_quiet.
    + apply chainStep_spec.
    + intros Hw. pose proof (chain_drains toLowerCase p rs c Hw) as Hidle.
      split; [done|]. intros Hen Hemoji.
      by apply applyEmoji_applies.
  - split_and!.
    + apply (no_escape_run_machine toLowerCase hasOnError).
    + unfold m2, m1, m. by rewrite !no_escape_run_machine.
    + intros ev Hev. by apply call_quiet_machine.
    + apply laneStep_spec.
    + intros Hw.
      destruct (lane_drains toLowerCase hasOnError rs m Hw) as [Hidle Hd].
      split; [done|]. intros Hlive.
      apply start_applies; [|done]. unfold m1. by rewrite Hd.
Qed.

Example controller_recovers_from_failed_reaction :
  let p := {| Ctl.enabled := true; Ctl.transitionMode := Ctl.Full;
              Ctl.initialEmoji := [0xD83D; 0xDC40] |} in
  let s := Ctl.run asciiLower p
             [Ctl.SetQueued; Ctl.ChainStep (Rejected "down");
              Ctl.SetThinking; Ctl.Advance 150; Ctl.FirePending;
              Ctl.ChainStep Resolved; Ctl.ChainStep Resolved] (Ctl.init 0) in
  Ctl.log s = [Ctl.React [0xD83D; 0xDC40]; Ctl.AckFailure "down";
               Ctl.React Ctl.DISCORD_STATUS_THINKING_EMOJI]
  ∧ Ctl.activeEmoji s = Some Ctl.DISCORD_STATUS_THINKING_EMOJI
  ∧ Ctl.escaped s = [] ∧ Ctl.chain s = [].
Proof. split_and!; reflexivity. Qed.

Example machine_recovers_from_thrown_call :
  let s := RSM.run asciiLower true
             [RSM.Start; RSM.LaneStep (Thrown "boom"); RSM.Thinking;
              RSM.Advance 700; RSM.FireDebounce;
              RSM.LaneStep Resolved; RSM.LaneStep Resolved] (RSM.init 0) in
  RSM.log s = [RSM.CallSet RSM.Eyes;
               RSM.OnError "discord status reaction failed: boom";
               RSM.CallSet RSM.Brain]
  ∧ RSM.currentEmoji s = Some RSM.Brain
  ∧ RSM.escaped s = [] ∧ RSM.lane s = [].
Proof. split_and!; reflexivity. Qed.

Example registry_replaces_entry :
  let s := Registry.run
             [Registry.Register (Registry.sampleEntry "run-1" 1);
              Registry.AgentEvent (Registry.lifecycleEvent (js "run-1") "error");
              Registry.Register (Registry.sampleEntry " run-1" 2)]
             (Registry.init 0) in
  Registry.byRun s !! js "run-1" = Some 1%nat
  ∧ size (Registry.byRun s) = 1%nat
  ∧ Registry.timerOf 0 s = TNull
  ∧ Registry.controller <$> Registry.heap s !! 1%nat = Some 2%nat.
Proof. split_and!; vm_compute; reflexivity. Qed.

Example controller_rollback_rejected :
  let p := {| Ctl.enabled := true; Ctl.transitionMode := Ctl.Full;
              Ctl.initialEmoji := [0xD83D; 0xDC40] |} in
  Ctl.phasesAlong asciiLower p [Ctl.SetQueued; Ctl.SetThinking; Ctl.SetWaiting]
    (Ctl.init 0)
  = [Ctl.PQueued; Ctl.PActive; Ctl.PActive]
  ∧ Ctl.phasesAlong asciiLower p
      [Ctl.SetQueued; Ctl.SetThinking; Ctl.SetTool (Some (js "web_search"));
       Ctl.SetThinking] (Ctl.init 0)
    = [Ctl.PQueued; Ctl.PActive; Ctl.PActive; Ctl.PActive].
Proof. split; reflexivity. Qed.

(** * Further properties of the embedded code *)

(** ** [trim] is a normal form *)

Lemma trimStart_suffix (s : jsstring) :
  ∃ pre, s = pre ++ trimStart s ∧ forallb isJsWhiteSpace pre = true.
Proof.
  induction s as [|c s (pre & Heq & Hpre)]; [by exists []|].
  simpl. destruct (isJsWhiteSpace c) eqn:Hc.
  - exists (c :: pre). simpl. rewrite Hc, Hpre. split; [|done].
    by rewrite <-Heq.
  - by exists [].
Qed.

Lemma trimStart_head (s : jsstring) (c : N) (r : jsstring) :
  trimStart s = c :: r → isJsWhiteSpace c = false.
Proof.
  induction s as [|d s IH]; simpl; [done|].
  destruct (isJsWhiteSpace d) eqn:Hd; [done|]. by intros [= <- _].
Qed.

Lemma trimStart_idem (s : jsstring) : trimStart (trimStart s) = trimStart s.
Proof.
  destruct (trimStart s) as [|c r] eqn:E; [done|].
  simpl. by rewrite (trimStart_head s c r E).
Qed.

Lemma trimEnd_keeps_head (c : N) (r : jsstring) :
  isJsWhiteSpace c = false → ∃ r', trimEnd (c :: r) = c :: r'.
Proof.
  intros Hc. unfold trimEnd. simpl rev.
  destruct (trimStart_suffix (rev r ++ [c])) as (pre & Heq & Hpre).
  destruct (trimStart (rev r ++ [c])) as [|y t _] using rev_ind.
  - rewrite app_nil_r in Heq. subst pre.
    rewrite forallb_app in Hpre. simpl in Hpre.
    rewrite Hc in Hpre. by destruct (forallb isJsWhiteSpace (rev r)).
  - rewrite app_assoc in Heq. apply app_inj_tail in Heq as [_ <-].
    exists (rev t). by rewrite rev_app_distr.
Qed.

Lemma trim_idem (s : jsstring) : trim (trim s) = trim s.
Proof.
  unfold trim. destruct (trimStart s) as [|c r] eqn:E; [done|].
  destruct (trimEnd_keeps_head c r (trimStart_head s c r E)) as [r' Hr'].
  assert (Hfix : trimStart (trimEnd (c :: r)) = trimEnd (c :: r)).
  { rewrite Hr'. simpl. by rewrite (trimStart_head s c r E). }
  rewrite Hfix. unfold trimEnd. by rewrite rev_involutive, trimStart_idem.
Qed.

(** ** Identifiers of queue outcomes *)

Section QueueOutcomeIdentifiers.

Import QueueOutcome.

(** The run after [resolveQueueOutcomeRunId] holds an identifier that trims
    to the one returned. *)
Lemma resolved_run_id (rnd : N) (r : FollowupRun) :
  ∃ e, runId (run (resolveQueueOutcomeRunId rnd r).2) = Some e
       ∧ trim e = (resolveQueueOutcomeRunId rnd r).1
       ∧ truthy (trim e) = true
       ∧ onQueueOutcome (resolveQueueOutcomeRunId rnd r).2 = onQueueOutcome r.
Proof.
  destruct (randomUUID_trim rnd) as [Hfix Hne].
  assert (Hgen : ∀ h,
    ∃ e, runId (run {| run := {| runId := Some (randomUUID rnd) |};
                       onQueueOutcome := h |}) = Some e
         ∧ trim e = randomUUID rnd ∧ truthy (trim e) = true).
  { intros h. exists (randomUUID rnd). by rewrite Hfix. }
  destruct r as [[[e|]] h].
  - destruct (truthy (trim e)) eqn:Ht.
    + erewrite resolve_existing; [|reflexivity|done]. by exists e.
    + rewrite resolve_generated; [|simpl; by rewrite Ht].
      destruct (Hgen h) as (e' & ? & ? & ?). by exists e'.
  - rewrite resolve_generated; [|done].
    destruct (Hgen h) as (e' & ? & ? & ?). by exists e'.
Qed.

(** X1.  Whatever the run holds, the identifier [resolveQueueOutcomeRunId]
    returns is not empty and has no surrounding white space, and the
    identifier stored in the run afterwards trims to it; the outcome callback
    of the run is left as it was. *)
Theorem resolveQueueOutcomeRunId_normalised (rnd : N) (r : FollowupRun) :
  let res := resolveQueueOutcomeRunId rnd r in
  truthy res.1 = true
  ∧ trim res.1 = res.1
  ∧ trim <$> runId (run res.2) = Some res.1
  ∧ onQueueOutcome res.2 = onQueueOutcome r.
Proof.
  destruct (randomUUID_trim rnd) as [Hfix Hne].
  destruct r as [[[e|]] h]; cbn zeta.
  - destruct (truthy (trim e)) eqn:Ht.
    + erewrite resolve_existing; [|reflexivity|done]. simpl.
      by rewrite trim_idem.
    + rewrite resolve_generated; [|simpl; by rewrite Ht]. simpl.
      by rewrite Hfix.
  - rewrite resolve_generated; [|done]. simpl. by rewrite Hfix.
Qed.

Lemma resolve_again (rnd rnd' : N) (r : FollowupRun) :
  resolveQueueOutcomeRunId rnd' (resolveQueueOutcomeRunId rnd r).2
  = resolveQueueOutcomeRunId rnd r.
Proof.
  destruct (resolved_run_id rnd r) as (e & Hrun & Hid & Hne & _).
  destruct (resolveQueueOutcomeRunId rnd r) as [id r1]. simpl in *.
  erewrite resolve_existing; [|exact Hrun|exact Hne]. by rewrite Hid.
Qed.

Lemma emit_delivers (rnd : N) (r : FollowupRun) (h : handler)
    (status : FollowupQueueOutcomeStatus) (reason : jsstring) :
  onQueueOutcome r = Some h →
  let res := emitFollowupQueueOutcome rnd r status reason in
  e_run res = (resolveQueueOutcomeRunId rnd r).2
  ∧ e_delivered res = Some {| o_runId := (resolveQueueOutcomeRunId rnd r).1;
                              o_status := status; o_reason := reason |}.
Proof.
  intros Hh. unfold emitFollowupQueueOutcome. rewrite Hh.
  destruct (resolveQueueOutcomeRunId rnd r) as [id r1]. simpl.
  destruct (h _) as [|[[]|e]|e]; done.
Qed.

(** X2.  Two outcome reports for the same run carry the same identifier:
    the second [emitFollowupQueueOutcome], made on the run as the first one
    left it, delivers the identifier the first one delivered and leaves the
    run unchanged, whatever the callback did with the first report and
    whatever entropy the second call could draw. *)
Theorem emitFollowupQueueOutcome_same_id (rnd1 rnd2 : N)
    (rid : option jsstring) (h : handler)
    (st1 st2 : FollowupQueueOutcomeStatus) (re1 re2 : jsstring) :
  let r := {| run := {| runId := rid |}; onQueueOutcome := Some h |} in
  let res1 := emitFollowupQueueOutcome rnd1 r st1 re1 in
  let res2 := emitFollowupQueueOutcome rnd2 (e_run res1) st2 re2 in
  ∃ id, truthy id = true
        ∧ e_delivered res1
          = Some {| o_runId := id; o_status := st1; o_reason := re1 |}
        ∧ e_delivered res2
          = Some {| o_runId := id; o_status := st2; o_reason := re2 |}
        ∧ e_run res2 = e_run res1.
Proof.
  intros r res1 res2.
  destruct (emit_delivers rnd1 r h st1 re1 eq_refl) as [Hrun1 Hd1].
  fold res1 in Hrun1, Hd1.
  destruct (resolved_run_id rnd1 r) as (e & _ & Hid & Hne & Hh).
  rewrite Hid in Hne. rewrite <-Hrun1 in Hh.
  destruct (emit_delivers rnd2 (e_run res1) h st2 re2 Hh) as [Hrun2 Hd2].
  fold res2 in Hrun2, Hd2.
  rewrite Hrun1, resolve_again in Hrun2, Hd2.
  exists (resolveQueueOutcomeRunId rnd1 r).1. by rewrite Hrun1.
Qed.

End QueueOutcomeIdentifiers.

(** ** The event bridge of the deferred status registry *)

Section RegistryBridge.

Import Registry.

Lemma clearRetry_frame (ref : nat) (s : state) :
  let s' := clearDeferredDiscordRetryCleanup ref s in
  nextRef s' = nextRef s ∧ bridgeReady s' = bridgeReady s
  ∧ now s' = now s ∧ trace s' = trace s.
Proof. unfold clearDeferredDiscordRetryCleanup. by destruct (timerSet _). Qed.

Lemma subscriptions_app (l1 l2 : list effect) :
  subscriptions (l1 ++ l2) = (subscriptions l1 + subscriptions l2)%nat.
Proof. unfold subscriptions. by rewrite List.filter_app, length_app. Qed.

Lemma concerns_not_subscribed (ctl ref : nat) (l : list effect) :
  forallb (concerns ctl ref) l = true → subscriptions l = 0%nat.
Proof.
  induction l as [|f l IH]; [done|]. simpl.
  intros [Hf Hl]%andb_prop. unfold subscriptions in *. simpl.
  destruct f; simpl in *; try done; by apply IH.
Qed.

(** What the listener does for an event whose run is registered: it only
    adds effects that address the entry's own controller and callback. *)
Lemma bridgeListener_effects (evt : agentEvent) (s : state) (ref : nat)
    (e : DeferredDiscordStatusEntry) :
  byRun s !! ev_runId evt = Some ref → heap s !! ref = Some e →
  ∃ l, trace (bridgeListener evt s) = trace s ++ l
       ∧ forallb (concerns (controller e) ref) l = true
       ∧ bridgeReady (bridgeListener evt s) = bridgeReady s.
Proof.
  intros Hr He. unfold bridgeListener. rewrite Hr, He.
  destruct (clearRetry_frame ref s) as (_ & Hb1 & _ & Ht1).
  destruct (unregister_frame (ev_runId evt) s) as (_ & Hb2 & _ & Ht2).
  assert (Hsch : bridgeReady (scheduleDeferredDiscordRetryCleanup ref s)
                 = bridgeReady s
                 ∧ trace (scheduleDeferredDiscordRetryCleanup ref s) = trace s).
  { unfold scheduleDeferredDiscordRetryCleanup. simpl. by rewrite Hb1, Ht1. }
  destruct Hsch as [Hb3 Ht3]. cbn zeta in *.
  unfold settleDeferredDiscordStatus.
  repeat case_match; simpl; rewrite ?Hb1, ?Ht1, ?Hb2, ?Ht2, ?Hb3, ?Ht3;
    first [ by exists []; rewrite app_nil_r
          | eexists; split; [reflexivity|]; simpl;
            by rewrite ?bool_decide_eq_true_2 by done ].
Qed.

Lemma bridged_step (ev : event) (s : state) : bridged s → bridged (step ev s).
Proof.
  unfold bridged. intros Hinv.
  destruct ev as [entry|rid|evt|ref|dt]; simpl.
  - unfold registerDeferredDiscordStatus. destruct (truthy _); simpl; [|done].
    set (s1 := ensureDeferredDiscordStatusBridge s).
    destruct (unregister_frame (trim (i_runId entry)) s1) as (_ & Hb & _ & Ht).
    cbn zeta in Hb, Ht. rewrite Hb, Ht. unfold s1.
    rewrite (ensureBridge_ready s). unfold ensureDeferredDiscordStatusBridge.
    destruct (bridgeReady s); [done|]. simpl.
    destruct Hinv as [-> _]. by exists [].
  - destruct (unregister_frame rid s) as (_ & Hb & _ & Ht). cbn zeta in Hb, Ht.
    rewrite Hb, Ht, unregister_byRun. destruct (bridgeReady s); [done|].
    destruct Hinv as [-> ->]. by rewrite delete_empty.
  - destruct (bridgeReady s) eqn:Hb; [|by rewrite Hb].
    destruct (byRun s !! ev_runId evt) as [ref|] eqn:Hr;
      [|unfold bridgeListener; by rewrite Hr, Hb].
    destruct (heap s !! ref) as [e|] eqn:He;
      [|unfold bridgeListener; by rewrite Hr, He, Hb].
    destruct (bridgeListener_effects evt s ref e Hr He) as (l & Ht & Hl & Hb').
    rewrite Hb', Hb, Ht. destruct Hinv as (l0 & -> & Hl0).
    exists (l0 ++ l). split; [done|].
    by rewrite subscriptions_app, Hl0, (concerns_not_subscribed _ _ _ Hl).
  - unfold fireCleanup. destruct (timerDue _ _); [|done].
    unfold cleanupCallback.
    destruct (heap (setTimer ref TSpent s) !! ref) as [entry|]; [|done].
    case_decide as Hcur; [|done]. simpl in *.
    destruct (bridgeReady s); [done|].
    destruct Hinv as [_ Hempty]. by rewrite Hempty, lookup_empty in Hcur.
  - done.
Qed.

Lemma bridged_run (evs : list event) (s : state) :
  bridged s → bridged (run evs s).
Proof.
  revert s. induction evs as [|ev evs IH]; intros s Hinv; simpl; [done|].
  by apply IH, bridged_step.
Qed.

(** X3.  The listener of the agent event channel is subscribed exactly once,
    by the first registration under a non-blank identifier, and before any
    other effect: in every reachable state either nothing has happened yet
    (empty trace, empty map), or the trace starts with the subscription and
    holds no second one.  Registering a non-blank identifier always leaves
    the bridge ready. *)
Theorem bridge_subscribed_once (t0 : Z) (history : list event)
    (entry : entryInput) :
  let s := run history (init t0) in
  (if bridgeReady s
   then ∃ l, trace s = Subscribed :: l ∧ subscriptions l = 0%nat
   else trace s = [] ∧ byRun s = ∅)
  ∧ (if truthy (trim (i_runId entry))
     then bridgeReady (registerDeferredDiscordStatus entry s) = true
     else registerDeferredDiscordStatus entry s = s).
Proof.
  intros s. split.
  - apply (bridged_run history (init t0)). by split.
  - destruct (truthy _) eqn:Ht.
    + by destruct (register_effect entry s Ht) as (_ & _ & Hb & _).
    + unfold registerDeferredDiscordStatus. by rewrite Ht.
Qed.

End RegistryBridge.

Section RegistryLifecycle.

Import Registry.

Lemma lifecycle_start_effect (rid : jsstring) (ref : nat)
    (e : DeferredDiscordStatusEntry) (s : state) :
  bridgeReady s = true → byRun s !! rid = Some ref → heap s !! ref = Some e →
  let s1 := step (AgentEvent (lifecycleEvent rid "start")) s in
  byRun s1 = byRun s
  ∧ heap s1 !! ref = Some (withTimer TNull e)
  ∧ now s1 = now s
  ∧ trace s1 = trace s
               ++ (if onLifecycleStart e then [LifecycleStarted ref] else [])
               ++ [Call (controller e) SetThinking].
Proof.
  intros Hb Hr He. simpl. rewrite Hb. unfold bridgeListener. simpl.
  rewrite Hr, He. simpl.
  destruct (clearRetry_frame ref s) as (_ & _ & Hn & Ht). cbn zeta in Hn, Ht.
  rewrite clearRetry_byRun, (clearRetry_heap_eq _ _ _ He), Hn, Ht. done.
Qed.

Lemma lifecycle_end_effect (rid : jsstring) (ref : nat)
    (e : DeferredDiscordStatusEntry) (s : state) :
  bridgeReady s = true → byRun s !! rid = Some ref → heap s !! ref = Some e →
  let s1 := step (AgentEvent (lifecycleEvent rid "end")) s in
  byRun s1 = delete rid (byRun s)
  ∧ heap s1 !! ref = Some (withTimer TNull e)
  ∧ trace s1 = trace s ++ settleDeferredDiscordStatus e false.
Proof.
  intros Hb Hr He. simpl. rewrite Hb. unfold bridgeListener. simpl.
  rewrite Hr, He. simpl.
  destruct (unregister_frame rid s) as (_ & _ & _ & Ht). cbn zeta in Ht.
  rewrite unregister_byRun, Ht. split_and!; [done| |done].
  unfold unregisterDeferredDiscordStatus. rewrite Hr. simpl.
  by apply clearRetry_heap_eq.
Qed.

(** X4.  A [lifecycle/start] event for a registered run cancels the entry's
    pending cleanup (the retry after an error has begun): the entry stays in
    the map with no timer, its [onLifecycleStart] callback, if it has one, is
    called and then its controller's [setThinking].  Whatever events for
    other runs follow and however much time passes, the entry stays
    registered and a run of its former cleanup timer changes nothing. *)
Theorem lifecycle_start_cancels_cleanup (t0 : Z) (history quiet : list event)
    (rid : jsstring) (ref : nat) :
  let s := run history (init t0) in
  let s1 := step (AgentEvent (lifecycleEvent rid "start")) s in
  let s2 := run quiet s1 in
  byRun s !! rid = Some ref →
  forallb (quietFor rid ref) quiet = true →
  timerOf ref s1 = TNull
  ∧ byRun s1 = byRun s
  ∧ (∃ e, heap s !! ref = Some e
          ∧ trace s1 = trace s
                       ++ (if onLifecycleStart e then [LifecycleStarted ref] else [])
                       ++ [Call (controller e) SetThinking])
  ∧ byRun s2 !! rid = Some ref
  ∧ step (FireCleanup ref) s2 = s2.
Proof.
  intros s s1 s2 Hr Hq.
  assert (Hwf : wf s) by apply wf_run, wf_init.
  destruct (wf_key _ Hwf _ _ Hr) as (e & He & Hid).
  pose proof (wf_bridge _ Hwf _ _ Hr) as Hb.
  destruct (lifecycle_start_effect rid ref e s Hb Hr He) as (Hb1 & Hh1 & _ & Ht1).
  fold s1 in Hb1, Hh1, Ht1.
  assert (Hwf1 : wf s1) by apply wf_step, Hwf.
  assert (Hr1 : byRun s1 !! rid = Some ref) by (by rewrite Hb1).
  destruct (quiet_run rid ref _ quiet s1 Hwf1 Hr1 Hh1 Hq) as (Hr2 & Hh2 & _).
  fold s2 in Hr2, Hh2.
  split_and!.
  - unfold timerOf. by rewrite Hh1.
  - done.
  - by exists e.
  - done.
  - simpl. unfold fireCleanup, timerOf. by rewrite Hh2.
Qed.

Lemma lifecycle_start_cancels_cleanup_witness :
  let s := run [Register (sampleEntry "run-1" 7);
                AgentEvent (lifecycleEvent (js "run-1") "error")] (init 0) in
  let s1 := step (AgentEvent (lifecycleEvent (js "run-1") "start")) s in
  let s2 := run [Advance 60000] s1 in
  timerOf 0 s = TArmed 45000
  ∧ timerOf 0 s1 = TNull
  ∧ byRun s2 !! js "run-1" = Some 0%nat
  ∧ step (FireCleanup 0) s2 = s2.
Proof.
  destruct (lifecycle_start_cancels_cleanup 0
              [Register (sampleEntry "run-1" 7);
               AgentEvent (lifecycleEvent (js "run-1") "error")]
              [Advance 60000] (js "run-1") 0%nat)
    as (Hnull & _ & _ & Hreg & Hfire); [vm_compute; reflexivity..|].
  split; [vm_compute; reflexivity|].
  exact (conj Hnull (conj Hreg Hfire)).
Defined.

(** X5.  A [lifecycle/end] event for a registered run retires its entry:
    the key leaves the map, the entry's timer is cleared, and its controller
    is told [setDone] and then either, after the hold of 1.5 s, [clear] (when
    the acknowledgement is to be removed) or [restoreInitial].  From then on
    no event for that run and no run of the entry's former timer changes
    anything. *)
Theorem lifecycle_end_retires_entry (t0 : Z) (history : list event)
    (rid : jsstring) (ref : nat) :
  let s := run history (init t0) in
  let s1 := step (AgentEvent (lifecycleEvent rid "end")) s in
  byRun s !! rid = Some ref →
  byRun s1 = delete rid (byRun s)
  ∧ timerOf ref s1 = TNull
  ∧ (∃ e, heap s !! ref = Some e
          ∧ trace s1
            = trace s ++ Call (controller e) SetDone
                         :: (if removeAckAfterReply e
                             then [Sleep 1500; Call (controller e) Clear]
                             else [Call (controller e) RestoreInitial]))
  ∧ (∀ evt, ev_runId evt = rid → step (AgentEvent evt) s1 = s1)
  ∧ step (FireCleanup ref) s1 = s1.
Proof.
  intros s s1 Hr.
  assert (Hwf : wf s) by apply wf_run, wf_init.
  destruct (wf_key _ Hwf _ _ Hr) as (e & He & Hid).
  pose proof (wf_bridge _ Hwf _ _ Hr) as Hb.
  destruct (lifecycle_end_effect rid ref e s Hb Hr He) as (Hb1 & Hh1 & Ht1).
  fold s1 in Hb1, Hh1, Ht1.
  assert (Hnull : timerOf ref s1 = TNull) by (unfold timerOf; by rewrite Hh1).
  split_and!.
  - done.
  - done.
  - by exists e.
  - intros evt <-. apply unknown_run_noop. by rewrite Hb1, lookup_delete_eq.
  - simpl. unfold fireCleanup. by rewrite Hnull.
Qed.

Lemma lifecycle_end_retires_entry_witness :
  let s := run [Register (sampleEntry "run-1" 7);
                AgentEvent (lifecycleEvent (js "run-1") "error")] (init 0) in
  let s1 := step (AgentEvent (lifecycleEvent (js "run-1") "end")) s in
  byRun s1 = delete (js "run-1") (byRun s)
  ∧ timerOf 0 s1 = TNull
  ∧ step (FireCleanup 0) s1 = s1.
Proof.
  destruct (lifecycle_end_retires_entry 0
              [Register (sampleEntry "run-1" 7);
               AgentEvent (lifecycleEvent (js "run-1") "error")]
              (js "run-1") 0%nat)
    as (Hgone & Hnull & _ & _ & Hfire); [vm_compute; reflexivity|].
  exact (conj Hgone (conj Hnull Hfire)).
Defined.

(** X6.  An event on the channel only ever reaches the entry registered
    under the event's own run identifier: the effects it adds address that
    entry's controller and callback and nothing else, and every other key of
    the map keeps its entry object exactly as it was.  An event that is not a
    lifecycle event changes neither the map nor any entry: it adds at most
    one [setTool] call carrying the event's tool name. *)
Theorem bridge_event_isolated (t0 : Z) (history : list event)
    (evt : agentEvent) (ref : nat) (e : DeferredDiscordStatusEntry) :
  let s := run history (init t0) in
  let s1 := step (AgentEvent evt) s in
  byRun s !! ev_runId evt = Some ref → heap s !! ref = Some e →
  (∃ l, trace s1 = trace s ++ l
        ∧ forallb (concerns (controller e) ref) l = true)
  ∧ (∀ rid' ref' e', rid' ≠ ev_runId evt →
       byRun s !! rid' = Some ref' → heap s !! ref' = Some e' →
       byRun s1 !! rid' = Some ref' ∧ heap s1 !! ref' = Some e')
  ∧ (ev_stream evt ≠ js "lifecycle" →
       byRun s1 = byRun s ∧ heap s1 = heap s
       ∧ (trace s1 = trace s
          ∨ trace s1 = trace s ++ [Call (controller e) (SetTool (ev_name evt))])).
Proof.
  intros s s1 Hr He.
  assert (Hwf : wf s) by apply wf_run, wf_init.
  pose proof (wf_bridge _ Hwf _ _ Hr) as Hb.
  split_and!.
  - destruct (bridgeListener_effects evt s ref e Hr He) as (l & Ht & Hl & _).
    exists l. unfold s1. simpl. by rewrite Hb.
  - intros rid' ref' e' Hne Hr' He'.
    destruct (quiet_step rid' ref' e' (AgentEvent evt) s Hwf Hr' He')
      as (? & ? & _); [|done].
    simpl. apply negb_true_iff, bool_decide_eq_false. congruence.
  - intros Hstream.
    assert (Hno : streq (ev_stream evt) (js "lifecycle") = false)
      by (by apply bool_decide_eq_false_2).
    unfold s1. simpl. rewrite Hb. unfold bridgeListener.
    rewrite Hr, He, Hno.
    destruct (_ && _); simpl; auto.
Qed.

Lemma bridge_event_isolated_witness :
  let s := run [Register (sampleEntry "run-1" 1);
                Register (sampleEntry "run-2" 2)] (init 0) in
  let s1 := step (AgentEvent (toolEvent (js "run-1") "start" (Some (js "exec")))) s in
  (∃ l, trace s1 = trace s ++ l ∧ forallb (concerns 1 0) l = true)
  ∧ byRun s1 !! js "run-2" = Some 1%nat.
Proof.
  destruct (bridge_event_isolated 0
              [Register (sampleEntry "run-1" 1); Register (sampleEntry "run-2" 2)]
              (toolEvent (js "run-1") "start" (Some (js "exec"))) 0%nat
              {| runId := js "run-1"; channelId := js "chan";
                 messageId := js "msg"; removeAckAfterReply := false;
                 controller := 1; onLifecycleStart := true;
                 retryCleanupTimer := TNull |})
    as (Hl & Hother & _); [vm_compute; reflexivity..|].
  split; [exact Hl|].
  refine (proj1 (Hother (js "run-2") 1%nat
            {| runId := js "run-2"; channelId := js "chan";
               messageId := js "msg"; removeAckAfterReply := false;
               controller := 2; onLifecycleStart := true;
               retryCleanupTimer := TNull |} _ _ _));
    [vm_compute; discriminate|vm_compute; reflexivity..].
Defined.

End RegistryLifecycle.

(** ** The controller when transitions are switched off *)

Section CtlModes.

Import Ctl.

Variable toLowerCase : jsstring → jsstring.
Variable p : params.

Local Abbreviation step' := (step toLowerCase p).
Local Abbreviation run' := (run toLowerCase p).

Lemma disabled_step (ev : event) (t : Z) :
  enabled p = false → ∃ t', step' ev (init t) = init t'.
Proof.
  intros Hen.
  destruct ev; simpl;
    unfold setQueued, setWaiting, setPhase, setTerminal, setRetryableError,
      clear, restoreInitial, transitionsAllowed, chainStep;
    rewrite ?Hen; simpl; by eexists.
Qed.

Lemma disabled_run (evs : list event) (t : Z) :
  enabled p = false → ∃ t', run' evs (init t) = init t'.
Proof.
  intros Hen. revert t. induction evs as [|ev evs IH]; intros t; simpl.
  - by exists t.
  - destruct (disabled_step ev t Hen) as [t' ->]. apply IH.
Qed.

(** X7.  A controller created with [enabled = false] is inert: whatever
    calls, timer runs and chain steps reach it, it stays in its initial state
    (only the clock moves): no call to the platform, no closure queued, no
    timer armed, no phase change. *)
Theorem disabled_controller_inert (t0 : Z) (evs : list event) :
  enabled p = false →
  let s := run' evs (init t0) in
  s = init (now s) ∧ log s = [] ∧ chain s = [].
Proof.
  intros Hen. cbn zeta. destruct (disabled_run evs t0 Hen) as [t' ->]. done.
Qed.

Lemma reactsOf_app (l1 l2 : list obs) :
  reactsOf (l1 ++ l2) = reactsOf l1 ++ reactsOf l2.
Proof. apply omap_app. Qed.

Lemma removesOf_app (l1 l2 : list obs) :
  removesOf (l1 ++ l2) = removesOf l1 ++ removesOf l2.
Proof. apply omap_app. Qed.

Lemma reactsOf_report (r : response) : reactsOf (reportOf r) = [].
Proof. unfold reportOf. by destruct (failureOf r). Qed.

Lemma removesOf_report (r : response) : removesOf (reportOf r) = [].
Proof. unfold reportOf. by destruct (failureOf r). Qed.

(** One step of the chain, by the closure at its head: a closure of
    [applyEmoji] that has not run yet is skipped, or reacts with its icon and
    then either fails or goes on to remove the previous icon; every other
    closure reacts with nothing. *)
Lemma chainStep_cases (r : response) (t : task) (rest : list task) (s : state) :
  chain s = t :: rest →
  let s' := chainStep p r s in
  ∃ l c', log s' = log s ++ l ∧ chain s' = c' ++ rest ∧ sameControl s s'
    ∧ match t with
      | Apply e =>
          (l = [] ∧ c' = [])
          ∨ (reactsOf l = [e]
             ∧ (c' = [] ∨ c' = [ApplyReacted e (activeEmoji s)]))
      | _ => reactsOf l = []
             ∧ (c' = [] ∨ ∃ rest', c' = [ClearLoop rest'])
      end.
Proof.
  intros Hchain. cbn zeta. unfold chainStep. rewrite Hchain.
  destruct t as [emoji|emoji prev| |cands]; unfold runTask.
  - destruct (_ || _); cbn.
    { exists [], []. rewrite app_nil_r. split_and!; [done..|by left]. }
    destruct (failureOf r) as [err|]; cbn.
    + exists [React emoji; AckFailure err], [].
      rewrite <-app_assoc. split_and!; [done..|]. right. by split; [|left].
    + exists [React emoji], [ApplyReacted emoji (activeEmoji s)].
      split_and!; [done..|]. right. by split; [|right].
  - destruct prev as [prev|]; cbn.
    2:{ exists [], []. rewrite app_nil_r. split_and!; first [done|by left]. }
    destruct (_ && _); cbn.
    2:{ exists [], []. rewrite app_nil_r. split_and!; first [done|by left]. }
    destruct (failureOf r) as [err|]; cbn.
    + exists [Remove prev; AckFailure err], [].
      rewrite <-app_assoc. split_and!; first [done|by left].
    + exists [Remove prev], []. split_and!; first [done|by left].
  - destruct (clearLoop_spec r (cleanupCandidates p s) (setActiveEmoji None s))
      as [->|(e' & rest' & -> & _)]; cbn [catchLog].
    + exists [], []. cbn. rewrite app_nil_r. split_and!; first [done|by left].
    + exists (Remove e' :: reportOf r), [ClearLoop rest']. cbn.
      split_and!; first [done|apply reactsOf_report|eauto].
  - destruct (clearLoop_spec r cands s) as [->|(e' & rest' & -> & _)];
      cbn [catchLog].
    + exists [], []. cbn. rewrite app_nil_r. split_and!; first [done|by left].
    + exists (Remove e' :: reportOf r), [ClearLoop rest']. cbn.
      split_and!; first [done|apply reactsOf_report|eauto].
Qed.

End CtlModes.

Section CtlAckOnly.

Import Ctl.

Variable toLowerCase : jsstring → jsstring.
Variable p : params.

Local Abbreviation step' := (step toLowerCase p).
Local Abbreviation run' := (run toLowerCase p).

Lemma ackOnly_init (t0 : Z) : ackOnly (initialEmoji p) (init t0).
Proof. by split. Qed.

Lemma ackOnly_finish (s : state) :
  ackOnly (initialEmoji p) s →
  ackOnly (initialEmoji p)
    (clearPendingDebounce (clearStallTimers (setFinished true s))).
Proof. intros [H1 H2 H3 H4 H5]. by split. Qed.

Lemma ackOnly_requestInitial (allow : bool) (s : state) :
  ackOnly (initialEmoji p) s →
  ackOnly (initialEmoji p) (requestEmoji p (initialEmoji p) true allow s).
Proof.
  intros Hinv. unfold requestEmoji. repeat case_match; try done.
  destruct Hinv as [H1 H2 H3 H4 H5]. split; simpl; try done.
  apply Forall_app. split; [done|]. by apply Forall_singleton.
Qed.

Lemma ackOnly_chainStep (r : response) (s : state) :
  ackOnly (initialEmoji p) s → ackOnly (initialEmoji p) (chainStep p r s).
Proof.
  intros Hinv. destruct (chain s) as [|t rest] eqn:Hchain.
  { unfold chainStep. by rewrite Hchain. }
  destruct (chainStep_cases p r t rest s Hchain)
    as (l & c' & Hlog & Hc & (Hpe & _ & _ & _ & Hsoft & Hhard & _) & Hcase).
  destruct Hinv as [H1 H2 H3 H4 H5]. rewrite Hchain in H4.
  apply Forall_cons in H4 as [Ht Hrest].
  split.
  - by rewrite Hsoft.
  - by rewrite Hhard.
  - by rewrite Hpe.
  - rewrite Hc. apply Forall_app. split; [|done].
    destruct t as [e|e prev| |cands]; simpl in Ht.
    + destruct Hcase as [[_ ->]|[_ [->| ->]]]; [done..|].
      by apply Forall_singleton.
    + by destruct Hcase as [_ [->|[rest' ->]]]; [|apply Forall_singleton].
    + by destruct Hcase as [_ [->|[rest' ->]]]; [|apply Forall_singleton].
    + by destruct Hcase as [_ [->|[rest' ->]]]; [|apply Forall_singleton].
  - rewrite Hlog, reactsOf_app. apply Forall_app. split; [done|].
    destruct t as [e|e prev| |cands]; simpl in Ht.
    + destruct Hcase as [[-> _]|[-> _]]; [done|]. by apply Forall_singleton.
    + destruct Hcase as [-> _]. done.
    + destruct Hcase as [-> _]. done.
    + destruct Hcase as [-> _]. done.
Qed.

Lemma ackOnly_step (ev : event) (s : state) :
  transitionsAllowed p = false →
  ackOnly (initialEmoji p) s → ackOnly (initialEmoji p) (step' ev s).
Proof.
  intros Hta Hinv.
  destruct ev; simpl;
    unfold setQueued, setWaiting, setPhase, setTerminal, setRetryableError,
      clear, restoreInitial;
    rewrite ?Hta; simpl; try done.
  - destruct (_ || _); [done|]. by apply ackOnly_requestInitial.
  - destruct (negb _); [done|].
    destruct (ackOnly_finish s Hinv) as [H1 H2 H3 H4 H5].
    split; simpl in *; try done.
    apply Forall_app. split; [done|]. by apply Forall_singleton.
  - destruct (negb _); [done|].
    by apply ackOnly_requestInitial, ackOnly_finish.
  - destruct (timerDue _ _); [|done]. unfold pendingCallback.
    rewrite (ack_pending _ _ Hinv). destruct Hinv. by split.
  - by rewrite (ack_soft _ _ Hinv).
  - by rewrite (ack_hard _ _ Hinv).
  - by apply ackOnly_chainStep.
  - destruct Hinv. by split.
Qed.

Lemma ackOnly_run (evs : list event) (s : state) :
  transitionsAllowed p = false →
  ackOnly (initialEmoji p) s → ackOnly (initialEmoji p) (run' evs s).
Proof.
  intros Hta. revert s. induction evs as [|ev evs IH]; intros s Hinv; simpl.
  - done.
  - by apply IH, ackOnly_step.
Qed.

(** X8.  When status transitions are not allowed (the controller is
    disabled, or its mode is ack-only), the only icon the controller ever
    reacts with is the initial one: whatever calls, timer runs and chain
    steps reach it, progress, waiting, stall, done and error icons are never
    sent, no stall timer is ever armed and no icon ever waits in the
    debounce. *)
Theorem ack_only_never_leaves_ack (t0 : Z) (evs : list event) :
  transitionsAllowed p = false →
  let s := run' evs (init t0) in
  Forall (λ e, e = initialEmoji p) (reactsOf (log s))
  ∧ softStallTimer s = TNull ∧ hardStallTimer s = TNull
  ∧ pendingEmoji s = None.
Proof.
  intros Hta. cbn zeta.
  by destruct (ackOnly_run evs (init t0) Hta (ackOnly_init t0)).
Qed.

End CtlAckOnly.

Lemma disabled_controller_inert_witness :
  let p := {| Ctl.enabled := false; Ctl.transitionMode := Ctl.Full;
              Ctl.initialEmoji := [0xD83D; 0xDC40] |} in
  let s := Ctl.run asciiLower p
             [Ctl.SetQueued; Ctl.SetThinking; Ctl.Advance 200; Ctl.FirePending;
              Ctl.ChainStep Resolved; Ctl.SetDone; Ctl.Clear] (Ctl.init 0) in
  s = Ctl.init (Ctl.now s) ∧ Ctl.log s = [] ∧ Ctl.chain s = [].
Proof.
  apply (disabled_controller_inert asciiLower
           {| Ctl.enabled := false; Ctl.transitionMode := Ctl.Full;
              Ctl.initialEmoji := [0xD83D; 0xDC40] |} 0). reflexivity.
Defined.

Lemma ack_only_never_leaves_ack_witness :
  let p := {| Ctl.enabled := true; Ctl.transitionMode := Ctl.AckOnly;
              Ctl.initialEmoji := [0xD83D; 0xDC40] |} in
  let s := Ctl.run asciiLower p
             [Ctl.SetQueued; Ctl.ChainStep Resolved; Ctl.ChainStep Resolved;
              Ctl.SetThinking; Ctl.SetTool (Some (js "exec"));
              Ctl.Advance 30000; Ctl.FireSoftStall; Ctl.FireHardStall;
              Ctl.SetDone; Ctl.RestoreInitial; Ctl.ChainStep Resolved]
             (Ctl.init 0) in
  Forall (λ e, e = [0xD83D; 0xDC40]) (Ctl.reactsOf (Ctl.log s))
  ∧ Ctl.softStallTimer s = TNull ∧ Ctl.hardStallTimer s = TNull
  ∧ Ctl.pendingEmoji s = None.
Proof.
  apply (ack_only_never_leaves_ack asciiLower
           {| Ctl.enabled := true; Ctl.transitionMode := Ctl.AckOnly;
              Ctl.initialEmoji := [0xD83D; 0xDC40] |} 0). reflexivity.
Defined.

(** ** [clear]: removing every icon the controller may have shown *)

Section CtlClear.

Import Ctl.

Variable toLowerCase : jsstring → jsstring.
Variable p : params.

Local Abbreviation step' := (step toLowerCase p).
Local Abbreviation run' := (run toLowerCase p).

Lemma setOf_elem (seen l : list jsstring) (x : jsstring) :
  x ∈ setOf seen l ↔ x ∈ l ∧ x ∉ seen.
Proof.
  revert seen. induction l as [|y l IH]; intros seen; simpl.
  { split; [by intros ?%elem_of_nil|by intros [?%elem_of_nil _]]. }
  case_bool_decide as Hy.
  - rewrite IH, elem_of_cons. split; [by intros [? ?]; auto|].
    intros [[->|Hl] Hn]; done.
  - rewrite !elem_of_cons, IH, elem_of_cons. split.
    + intros [->|[Hl Hn]]; [by auto|]. split; [by right|]. intros Hs.
      apply Hn. by right.
    + intros [[->|Hl] Hn]; [by left|].
      destruct (decide (x = y)) as [->|Hne]; [by left|].
      right. split; [done|]. by intros [?|?].
Qed.

Lemma setOf_NoDup (seen l : list jsstring) : NoDup (setOf seen l).
Proof.
  revert seen. induction l as [|y l IH]; intros seen; simpl; [constructor|].
  case_bool_decide as Hy; [done|]. constructor; [|done].
  rewrite setOf_elem. intros [_ Hn]. apply Hn. by left.
Qed.

Lemma idle_chain_run (rs : list response) (s : state) :
  chain s = [] → run' (ChainStep <$> rs) s = s.
Proof.
  intros Hidle. induction rs as [|r rs IH]; simpl; [done|].
  unfold chainStep. by rewrite Hidle.
Qed.

(** One pass of the removal loop, with the icons it has yet to try. *)
Lemma clearLoop_filter (r : response) (rest : list jsstring) (s : state) :
  (clearLoop r rest s = (s, Done) ∧ List.filter truthy rest = [])
  ∨ ∃ emoji rest',
      clearLoop r rest s
      = (addLog (Remove emoji :: reportOf r) s, Suspend (ClearLoop rest'))
      ∧ List.filter truthy rest = emoji :: List.filter truthy rest'
      ∧ (length rest' < length rest)%nat.
Proof.
  induction rest as [|emoji rest IH]; simpl; [by left|].
  destruct (truthy emoji); simpl.
  - right. exists emoji, rest. split_and!; [|done|lia].
    unfold reportOf. destruct (failureOf r); simpl; [|done].
    unfold addLog; simpl. by rewrite <-app_assoc.
  - destruct IH as [[-> ->]|(e' & rest' & -> & -> & Hlen)]; [by left|].
    right. exists e', rest'. split_and!; [done..|lia].
Qed.

Lemma chainStep_clearLoop (r : response) (rest : list jsstring)
    (tl : list task) (s : state) :
  chain s = ClearLoop rest :: tl →
  (chainStep p r s = setChain tl s ∧ List.filter truthy rest = [])
  ∨ ∃ emoji rest',
      chainStep p r s
      = setChain (ClearLoop rest' :: tl) (addLog (Remove emoji :: reportOf r) s)
      ∧ List.filter truthy rest = emoji :: List.filter truthy rest'
      ∧ (length rest' < length rest)%nat.
Proof.
  intros Hchain. unfold chainStep. rewrite Hchain. unfold runTask.
  destruct (clearLoop_filter r rest s)
    as [[-> Hnone]|(e & rest' & -> & Hsome & Hlt)]; cbn [catchLog].
  - by left.
  - right. by exists e, rest'.
Qed.

Lemma chainStep_clearAll (r : response) (tl : list task) (s : state) :
  chain s = ClearAll :: tl →
  (chainStep p r s = setChain tl (setActiveEmoji None s)
   ∧ List.filter truthy (cleanupCandidates p s) = [])
  ∨ ∃ emoji rest',
      chainStep p r s
      = setChain (ClearLoop rest' :: tl)
          (addLog (Remove emoji :: reportOf r) (setActiveEmoji None s))
      ∧ List.filter truthy (cleanupCandidates p s)
        = emoji :: List.filter truthy rest'
      ∧ (length rest' < length (cleanupCandidates p s))%nat.
Proof.
  intros Hchain. unfold chainStep. rewrite Hchain. unfold runTask.
  destruct (clearLoop_filter r (cleanupCandidates p s) (setActiveEmoji None s))
    as [[-> Hnone]|(e & rest' & -> & Hsome & Hlt)]; cbn [catchLog].
  - by left.
  - right. by exists e, rest'.
Qed.

Lemma log_step_removes (e : jsstring) (r : response) (l : list obs) :
  removesOf (l ++ Remove e :: reportOf r) = removesOf l ++ [e]
  ∧ reactsOf (l ++ Remove e :: reportOf r) = reactsOf l.
Proof.
  rewrite removesOf_app, reactsOf_app.
  change (removesOf (Remove e :: reportOf r)) with (e :: removesOf (reportOf r)).
  change (reactsOf (Remove e :: reportOf r)) with (reactsOf (reportOf r)).
  by rewrite removesOf_report, reactsOf_report, app_nil_r.
Qed.

(** The loop runs to its end whatever the removals answer, trying every
    truthy icon in order. *)
Lemma clearLoop_run (rs : list response) (rest : list jsstring) (s : state) :
  chain s = [ClearLoop rest] → (length rest < length rs)%nat →
  let s' := run' (ChainStep <$> rs) s in
  chain s' = []
  ∧ removesOf (log s') = removesOf (log s) ++ List.filter truthy rest
  ∧ reactsOf (log s') = reactsOf (log s)
  ∧ activeEmoji s' = activeEmoji s
  ∧ sameControl s s'.
Proof.
  revert rest s. induction rs as [|r rs IH]; intros rest s Hchain Hlen;
    [simpl in Hlen; lia|].
  cbn zeta. cbn [fmap list_fmap run foldl step].
  change (foldl _ ?a ?l) with (run' l a).
  destruct (chainStep_clearLoop r rest [] s Hchain)
    as [[-> Hnone]|(e & rest' & -> & Hsome & Hlt)].
  - rewrite idle_chain_run by done. simpl. rewrite Hnone, app_nil_r.
    by repeat split.
  - set (s1 := setChain [ClearLoop rest'] (addLog (Remove e :: reportOf r) s)).
    destruct (IH rest' s1 eq_refl) as (Hc & Hrm & Hre & Ha & Hsame).
    { simpl in Hlen. lia. }
    cbn zeta in *.
    destruct (log_step_removes e r (log s)) as [Hrm1 Hre1].
    split_and!.
    + done.
    + rewrite Hrm, Hsome. unfold s1. cbn [log setChain addLog].
      by rewrite Hrm1, <-app_assoc.
    + rewrite Hre. unfold s1. cbn [log setChain addLog]. by rewrite Hre1.
    + by rewrite Ha.
    + exact Hsame.
Qed.

(** X9.  [clear] takes every icon off the message, whatever the platform
    answers: on an idle chain, eleven chain steps with any outcomes (each
    removal may fail) finish the closure of [clear]; it has then tried to
    remove, once each and in this order, the initial icon, the icon that was
    active and the eight status icons (the empty string left out), it has
    reacted with nothing, no icon is active, and the controller is finished
    with no timer or pending icon left.  The candidates hold no icon twice. *)
Theorem clear_removes_every_icon (rs : list response) (s : state) :
  enabled p = true → chain s = [] → (11 ≤ length rs)%nat →
  let s' := run' (ChainStep <$> rs) (clear p s) in
  chain s' = []
  ∧ removesOf (log s')
    = removesOf (log s) ++ List.filter truthy (cleanupCandidates p s)
  ∧ reactsOf (log s') = reactsOf (log s)
  ∧ activeEmoji s' = None ∧ finished s' = true
  ∧ pendingEmoji s' = None ∧ pendingTimer s' = TNull
  ∧ softStallTimer s' = TNull ∧ hardStallTimer s' = TNull
  ∧ NoDup (cleanupCandidates p s)
  ∧ ∀ e, e ∈ cleanupCandidates p s
         ↔ e = initialEmoji p ∨ e = default [] (activeEmoji s) ∨ e ∈ statusEmojis.
Proof.
  intros Hen Hidle Hlen. cbn zeta.
  assert (Hcands : NoDup (cleanupCandidates p s)
    ∧ ∀ e, e ∈ cleanupCandidates p s
           ↔ e = initialEmoji p ∨ e = default [] (activeEmoji s) ∨ e ∈ statusEmojis).
  { split; [apply setOf_NoDup|]. intros e. unfold cleanupCandidates.
    rewrite setOf_elem.
    change (e ∈ initialEmoji p :: default [] (activeEmoji s) :: statusEmojis
            ∧ e ∉ [] ↔ e = initialEmoji p ∨ e = default [] (activeEmoji s)
                        ∨ e ∈ statusEmojis).
    rewrite !elem_of_cons. split; [by intros [? _]|].
    intros H. split; [done|]. by intros ?%elem_of_nil. }
  destruct Hcands as [Hnd Hmem].
  unfold clear. rewrite Hen. cbn [negb].
  set (s0 := enqueue ClearAll
               (clearPendingDebounce (clearStallTimers (setFinished true s)))).
  assert (Hchain0 : chain s0 = [ClearAll]).
  { unfold s0, enqueue. cbn. by rewrite Hidle. }
  assert (Hcand0 : cleanupCandidates p s0 = cleanupCandidates p s) by done.
  pose proof (cleanupCandidates_length p s) as Hten.
  destruct rs as [|r rs]; [simpl in Hlen; lia|].
  cbn [fmap list_fmap run foldl step].
  change (foldl _ ?a ?l) with (run' l a).
  destruct (chainStep_clearAll r [] s0 Hchain0)
    as [[-> Hnone]|(e & rest' & -> & Hsome & Hlt)]; rewrite Hcand0 in *.
  - rewrite idle_chain_run by done. rewrite Hnone, app_nil_r.
    by split_and!.
  - set (s1 := setChain [ClearLoop rest'] _).
    destruct (clearLoop_run rs rest' s1 eq_refl)
      as (Hc & Hrm & Hre & Ha & Hpe & Hpt & Hf & _ & Hsoft & Hhard & _).
    { simpl in Hlen. lia. }
    cbn zeta in *. rewrite Hc, Hrm, Hre, Ha, Hpe, Hpt, Hf, Hsoft, Hhard, Hsome.
    destruct (log_step_removes e r (log s)) as [Hrm1 Hre1].
    unfold s1. cbn [log setChain addLog setActiveEmoji].
    change (log s0) with (log s). rewrite Hrm1, Hre1, <-app_assoc.
    by split_and!.
Qed.

End CtlClear.

Lemma clear_removes_every_icon_witness :
  let p := {| Ctl.enabled := true; Ctl.transitionMode := Ctl.Full;
              Ctl.initialEmoji := [0xD83D; 0xDC40] |} in
  let s' := Ctl.run asciiLower p (Ctl.ChainStep <$> replicate 11 (Rejected "gone"))
              (Ctl.clear p (Ctl.init 0)) in
  Ctl.chain s' = [] ∧ Ctl.activeEmoji s' = None ∧ Ctl.finished s' = true
  ∧ Ctl.reactsOf (Ctl.log s') = [].
Proof.
  destruct (clear_removes_every_icon asciiLower
              {| Ctl.enabled := true; Ctl.transitionMode := Ctl.Full;
                 Ctl.initialEmoji := [0xD83D; 0xDC40] |}
              (replicate 11 (Rejected "gone")) (Ctl.init 0))
    as (Hc & _ & Hre & Ha & Hf & _); [reflexivity|reflexivity|simpl; lia|].
  exact (conj Hc (conj Ha (conj Hf Hre))).
Defined.

(** ** The debounce of the controller *)

Section CtlDebounce.

Import Ctl.

Variable toLowerCase : jsstring → jsstring.
Variable p : params.

Local Abbreviation step' := (step toLowerCase p).
Local Abbreviation run' := (run toLowerCase p).

Lemma resolveToolStatusEmoji_cases (toolName : option jsstring) :
  let e := resolveToolStatusEmoji toLowerCase toolName in
  e = DISCORD_STATUS_TOOL_EMOJI ∨ e = DISCORD_STATUS_CODING_EMOJI
  ∨ e = DISCORD_STATUS_WEB_EMOJI.
Proof. cbn zeta. unfold resolveToolStatusEmoji. repeat case_match; auto. Qed.

Lemma progress_emoji (ev : event) (e : jsstring) :
  emojiOf toLowerCase ev = Some e →
  truthy e = true ∧ e ≠ DISCORD_STATUS_STALL_SOFT_EMOJI.
Proof.
  destruct ev; simpl; try done; intros [= <-]; [done|].
  by destruct (resolveToolStatusEmoji_cases toolName) as [->|[->| ->]].
Qed.

(** A progress signal on a controller that is still running. *)
Lemma progress_step_live (sig : event) (e : jsstring) (s : state) :
  transitionsAllowed p = true → finished s = false →
  semanticPhase s ≠ PTerminal → emojiOf toLowerCase sig = Some e →
  let s' := step' sig s in
  chain s' = chain s ∧ log s' = log s ∧ activeEmoji s' = activeEmoji s
  ∧ finished s' = false ∧ semanticPhase s' = PActive ∧ now s' = now s
  ∧ (e ≠ initialEmoji p →
       pendingEmoji s' = Some e
       ∧ pendingTimer s' = TArmed (now s + DISCORD_STATUS_DEBOUNCE_MS)
       ∧ pendingAllowRegression s' = false).
Proof.
  intros Hta Hfin Hph He.
  destruct (progress_emoji sig e He) as [Htruthy Hsoft].
  assert (Hen : enabled p = true).
  { unfold transitionsAllowed in Hta. by apply andb_prop in Hta as [? _]. }
  assert (Hstep : step' sig s = setPhase p e s).
  { destruct sig; simpl in He; try done; by injection He as <-. }
  cbn zeta. rewrite Hstep. unfold setPhase. rewrite Hta, Hfin. cbn [negb orb].
  assert (Htr : transitionSemanticPhase PActive s
                = (true, setSemanticPhase PActive s)).
  { unfold transitionSemanticPhase.
    rewrite bool_decide_eq_false_2 by done. by destruct (semanticPhase s). }
  rewrite Htr. cbn [negb].
  unfold scheduleStallTimers. rewrite Hta. cbn [negb orb finished setSemanticPhase].
  rewrite Hfin. unfold requestEmoji. rewrite Hen, Htruthy. cbn [negb orb].
  unfold regressionBlocked, hasReachedActivePhase. cbn.
  rewrite (bool_decide_eq_false_2 (e = DISCORD_STATUS_STALL_SOFT_EMOJI)) by done.
  cbn. case_bool_decide as Hinit; cbn.
  - by split_and!.
  - by split_and!.
Qed.

Lemma burst_run (pre : list event) (s : state) :
  transitionsAllowed p = true → finished s = false →
  semanticPhase s ≠ PTerminal → forallb burstEvent pre = true →
  let s' := run' pre s in
  chain s' = chain s ∧ log s' = log s ∧ activeEmoji s' = activeEmoji s
  ∧ finished s' = false ∧ semanticPhase s' ≠ PTerminal.
Proof.
  intros Hta. revert s. induction pre as [|ev pre IH]; intros s Hfin Hph Hb;
    cbn zeta; [done|].
  simpl in Hb. apply andb_prop in Hb as [Hev Hpre]. cbn [run foldl].
  change (foldl _ ?a ?l) with (run' l a).
  assert (Hstep : chain (step' ev s) = chain s ∧ log (step' ev s) = log s
                  ∧ activeEmoji (step' ev s) = activeEmoji s
                  ∧ finished (step' ev s) = false
                  ∧ semanticPhase (step' ev s) ≠ PTerminal).
  { destruct (emojiOf toLowerCase ev) as [e|] eqn:He.
    - destruct (progress_step_live ev e s Hta Hfin Hph He)
        as (? & ? & ? & ? & Hact & _).
      split_and!; [done..|]. by rewrite Hact.
    - destruct ev; simplify_eq/=. done. }
  destruct Hstep as (Hc & Hl & Ha & Hf & Hp).
  destruct (IH (step' ev s) Hf Hp Hpre) as (Hc' & Hl' & Ha' & Hf' & Hp').
  cbn zeta in *. rewrite Hc', Hl', Ha'. by split_and!.
Qed.

(** X10.  Debounced requests coalesce, and the latest one wins.  Take a
    controller that is running (transitions allowed, not finished, not
    terminal), any burst of progress signals and time passing, and one more
    progress signal for an icon that is not the initial one.  Nothing has
    been queued or sent by then; the icon of the last signal, and only it,
    waits in the debounce, due 150 ms after that signal.  The timer cannot
    run earlier; when it runs, exactly one closure is queued, for that icon,
    unless the icon is already the active one. *)
Theorem debounce_latest_request_wins (pre : list event) (sig : event)
    (e : jsstring) (dt : Z) (s : state) :
  transitionsAllowed p = true → finished s = false →
  semanticPhase s ≠ PTerminal →
  forallb burstEvent pre = true →
  emojiOf toLowerCase sig = Some e → e ≠ initialEmoji p →
  (150 ≤ dt)%Z →
  let s1 := step' sig (run' pre s) in
  let s2 := step' FirePending (step' (Advance dt) s1) in
  chain s1 = chain s ∧ log s1 = log s
  ∧ pendingEmoji s1 = Some e ∧ pendingTimer s1 = TArmed (now s1 + 150)
  ∧ step' FirePending s1 = s1
  ∧ chain s2 = (if bool_decide (Some e = activeEmoji s)
                then chain s else chain s ++ [Apply e])
  ∧ pendingEmoji s2 = None ∧ pendingTimer s2 = TNull ∧ log s2 = log s.
Proof.
  intros Hta Hfin Hph Hb He Hinit Hdt.
  destruct (progress_emoji sig e He) as [Htruthy Hsoft].
  destruct (burst_run pre s Hta Hfin Hph Hb) as (Hc & Hl & Ha & Hf & Hp).
  destruct (progress_step_live sig e (run' pre s) Hta Hf Hp He)
    as (Hc1 & Hl1 & Ha1 & Hf1 & Hp1 & Hn1 & Hpend).
  destruct (Hpend Hinit) as (Hpe & Hpt & Hallow).
  cbn zeta in *. set (s1 := step' sig (run' pre s)) in *.
  unfold DISCORD_STATUS_DEBOUNCE_MS in Hpt. rewrite <-Hn1 in Hpt.
  assert (Hearly : step' FirePending s1 = s1).
  { simpl. rewrite Hpt. simpl. by rewrite (proj2 (Z.leb_gt _ _)) by lia. }
  assert (Hfire : step' FirePending (step' (Advance dt) s1)
                  = (if bool_decide (Some e = activeEmoji s1)
                     then setPending None TNull false (step' (Advance dt) s1)
                     else applyEmoji e
                            (setPending None TNull false (step' (Advance dt) s1)))).
  { cbn [step]. cbn [pendingTimer now setNow]. rewrite Hpt. cbn [timerDue].
    rewrite (proj2 (Z.leb_le _ _)) by lia.
    unfold pendingCallback. cbn [pendingEmoji pendingAllowRegression setNow].
    rewrite Hpe, Hallow, Htruthy. cbn [negb orb].
    cbn [activeEmoji setPending setNow].
    case_bool_decide as Hsame; [done|].
    unfold regressionBlocked, hasReachedActivePhase.
    cbn [semanticPhase setPending setNow]. rewrite Hp1.
    rewrite (bool_decide_eq_false_2 (e = DISCORD_STATUS_STALL_SOFT_EMOJI)) by done.
    by rewrite (bool_decide_eq_false_2 (e = initialEmoji p)) by done. }
  rewrite Ha1, Ha in Hfire. rewrite Hfire. clear Hfire.
  split_and!; try done; try (by rewrite Hl1);
    destruct (bool_decide (Some e = activeEmoji s)); cbn;
    by rewrite ?Hc1, ?Hc, ?Hl1, ?Hl.
Qed.

End CtlDebounce.

Lemma debounce_latest_request_wins_witness :
  let p := {| Ctl.enabled := true; Ctl.transitionMode := Ctl.Full;
              Ctl.initialEmoji := [0xD83D; 0xDC40] |} in
  let s1 := Ctl.step asciiLower p (Ctl.SetTool (Some (js "web_search")))
              (Ctl.run asciiLower p
                 [Ctl.SetThinking; Ctl.Advance 100; Ctl.SetTool (Some (js "exec"));
                  Ctl.Advance 100] (Ctl.init 0)) in
  let s2 := Ctl.step asciiLower p Ctl.FirePending
              (Ctl.step asciiLower p (Ctl.Advance 150) s1) in
  Ctl.pendingEmoji s1 = Some Ctl.DISCORD_STATUS_WEB_EMOJI
  ∧ Ctl.chain s2 = [Ctl.Apply Ctl.DISCORD_STATUS_WEB_EMOJI].
Proof.
  destruct (debounce_latest_request_wins asciiLower
              {| Ctl.enabled := true; Ctl.transitionMode := Ctl.Full;
                 Ctl.initialEmoji := [0xD83D; 0xDC40] |}
              [Ctl.SetThinking; Ctl.Advance 100; Ctl.SetTool (Some (js "exec"));
               Ctl.Advance 100]
              (Ctl.SetTool (Some (js "web_search")))
              Ctl.DISCORD_STATUS_WEB_EMOJI 150 (Ctl.init 0))
    as (_ & _ & Hpe & _ & _ & Hc & _);
    [reflexivity|reflexivity|discriminate|reflexivity|reflexivity
    |discriminate|lia|].
  exact (conj Hpe Hc).
Defined.

(** ** After the terminal icon of the controller *)

Section CtlTerminal.

Import Ctl.

Variable toLowerCase : jsstring → jsstring.
Variable p : params.

Local Abbreviation step' := (step toLowerCase p).
Local Abbreviation run' := (run toLowerCase p).

Lemma pendingReacts_app (l1 l2 : list task) :
  pendingReacts (l1 ++ l2) = pendingReacts l1 ++ pendingReacts l2.
Proof. unfold pendingReacts. by rewrite fmap_app, concat_app. Qed.

(** On a finished controller with nothing in the debounce, an event other
    than a terminal call or [restoreInitial] queues no reaction: it reacts
    with the icon of the closure at the head of the chain, or drops that
    closure, or leaves the reactions alone. *)
Lemma closed_step (ev : event) (s : state) :
  afterTerminal ev = true → finished s = true → pendingEmoji s = None →
  let s' := step' ev s in
  finished s' = true ∧ pendingEmoji s' = None
  ∧ semanticPhase s' = semanticPhase s
  ∧ ∃ X, reactsOf (log s') = reactsOf (log s) ++ X
         ∧ X ++ pendingReacts (chain s') `sublist_of` pendingReacts (chain s).
Proof.
  intros Hev Hfin Hpe. cbn zeta.
  assert (Hsame : ∀ s', finished s' = true → pendingEmoji s' = None →
            semanticPhase s' = semanticPhase s → log s' = log s →
            pendingReacts (chain s') = pendingReacts (chain s) →
            finished s' = true ∧ pendingEmoji s' = None
            ∧ semanticPhase s' = semanticPhase s
            ∧ ∃ X, reactsOf (log s') = reactsOf (log s) ++ X
                   ∧ X ++ pendingReacts (chain s') `sublist_of` pendingReacts (chain s)).
  { intros s' ? ? ? Hl Hc. split_and!; [done..|]. exists [].
    by rewrite Hl, Hc, app_nil_r. }
  destruct ev; simplify_eq/=;
    unfold setQueued, setWaiting, setPhase, setRetryableError;
    rewrite ?Hfin, ?orb_true_r; try (by apply Hsame).
  - unfold clear. destruct (negb _); [by apply Hsame|].
    apply Hsame; try done.
    change (pendingReacts (chain s ++ [ClearAll]) = pendingReacts (chain s)).
    by rewrite pendingReacts_app, app_nil_r.
  - destruct (timerDue _ _); [|by apply Hsame].
    unfold pendingCallback. rewrite Hpe. by apply Hsame.
  - destruct (timerDue _ _); [|by apply Hsame].
    unfold softStallCallback. cbn. rewrite Hfin. by apply Hsame.
  - destruct (timerDue _ _); [|by apply Hsame].
    unfold hardStallCallback. cbn. rewrite Hfin. by apply Hsame.
  - destruct (chain s) as [|t rest] eqn:Hchain.
    { unfold chainStep. rewrite Hchain. apply Hsame; try done. by rewrite Hchain. }
    destruct (chainStep_cases p r t rest s Hchain)
      as (l & c' & Hlog & Hc & (Hpe' & _ & Hfin' & Hph' & _) & Hcase).
    cbn zeta in *. rewrite Hpe', Hfin', Hph', Hlog, Hc, reactsOf_app.
    split_and!; [done..|].
    rewrite pendingReacts_app.
    destruct t as [e|e prev| |cands].
    + destruct Hcase as [[-> ->]|[-> [->| ->]]].
      * exists []. split; [done|]. cbn. by apply sublist_cons.
      * by exists [e].
      * by exists [e].
    + destruct Hcase as [-> [->|[rest' ->]]]; by exists [].
    + destruct Hcase as [-> [->|[rest' ->]]]; by exists [].
    + destruct Hcase as [-> [->|[rest' ->]]]; by exists [].
  - split_and!; [done..|]. exists []. by rewrite app_nil_r.
Qed.

Lemma closed_run (evs : list event) (s : state) :
  forallb afterTerminal evs = true → finished s = true → pendingEmoji s = None →
  let s' := run' evs s in
  finished s' = true ∧ pendingEmoji s' = None
  ∧ semanticPhase s' = semanticPhase s
  ∧ ∃ X, reactsOf (log s') = reactsOf (log s) ++ X
         ∧ X ++ pendingReacts (chain s') `sublist_of` pendingReacts (chain s).
Proof.
  revert s. induction evs as [|ev evs IH]; intros s Hevs Hfin Hpe; cbn zeta.
  { split_and!; [done..|]. exists []. by rewrite app_nil_r. }
  simpl in Hevs. apply andb_prop in Hevs as [Hev Hevs]. cbn [run foldl].
  change (foldl _ ?a ?l) with (run' l a).
  destruct (closed_step ev s Hev Hfin Hpe) as (Hf1 & Hp1 & Hph1 & X1 & Hl1 & Hs1).
  destruct (IH (step' ev s) Hevs Hf1 Hp1) as (Hf2 & Hp2 & Hph2 & X2 & Hl2 & Hs2).
  cbn zeta in *. split_and!; [done|done|congruence|].
  exists (X1 ++ X2). rewrite Hl2, Hl1, <-!app_assoc. split; [done|].
  etrans; [|exact Hs1]. by apply sublist_app.
Qed.

(** X11.  Nothing is queued behind the terminal icon.  Let [setDone] (or
    [setError]) be called on a controller whose transitions are allowed and
    whose initial icon is not the terminal icon asked for.  The call queues
    the terminal icon last in the chain and finishes the controller.
    Whatever follows, short of a further terminal call or [restoreInitial]
    (progress and waiting signals, [setQueued], [setRetryableError],
    [clear], timer runs, chain steps with any outcomes, time passing), the
    controller stays finished and terminal, and the icons it reacts with
    from then on are, in order, among those that were queued at the call,
    the terminal icon being the last of them. *)
Theorem terminal_icon_is_last (ok : bool) (later : list event) (s : state) :
  let term := if ok then DISCORD_STATUS_DONE_EMOJI
              else DISCORD_STATUS_ERROR_EMOJI in
  let s1 := step' (if ok then SetDone else SetError) s in
  let s2 := run' later s1 in
  transitionsAllowed p = true → term ≠ initialEmoji p →
  forallb afterTerminal later = true →
  chain s1 = chain s ++ [Apply term] ∧ log s1 = log s
  ∧ finished s2 = true ∧ semanticPhase s2 = PTerminal
  ∧ pendingEmoji s2 = None
  ∧ ∃ X, reactsOf (log s2) = reactsOf (log s) ++ X
         ∧ X ++ pendingReacts (chain s2)
           `sublist_of` pendingReacts (chain s) ++ [term].
Proof.
  intros term s1 s2 Hta Hinit Hlater.
  assert (Hen : enabled p = true).
  { unfold transitionsAllowed in Hta. by apply andb_prop in Hta as [? _]. }
  assert (Hterm : truthy term = true ∧ term ≠ DISCORD_STATUS_STALL_SOFT_EMOJI)
    by (by destruct ok).
  destruct Hterm as [Htruthy Hsoft].
  assert (Hs1 : s1 = applyEmoji term
                       (clearPendingDebounce
                          (clearStallTimers
                             (setFinished true (setSemanticPhase PTerminal s))))
                ∨ (semanticPhase s = PTerminal
                   ∧ s1 = applyEmoji term
                            (clearPendingDebounce
                               (clearStallTimers (setFinished true s))))).
  { assert (Hstep : s1 = setTerminal p term s) by (unfold s1; by destruct ok).
    rewrite Hstep. unfold setTerminal. rewrite Hta. cbn [negb].
    unfold transitionSemanticPhase. case_bool_decide as Hph.
    - right. split; [done|]. cbn [negb bool_decide decide_rel].
      rewrite bool_decide_eq_true_2 by done. cbn [negb].
      unfold requestEmoji. rewrite Hen, Htruthy. cbn [negb orb].
      unfold regressionBlocked.
      rewrite (bool_decide_eq_false_2 (term = DISCORD_STATUS_STALL_SOFT_EMOJI)) by done.
      rewrite (bool_decide_eq_false_2 (term = initialEmoji p)) by done.
      by rewrite !andb_false_r.
    - left. assert (Hlt : (DISCORD_STATUS_PHASE_ORDER PTerminal
                           <? DISCORD_STATUS_PHASE_ORDER (semanticPhase s))%Z = false)
        by (by destruct (semanticPhase s)).
      rewrite Hlt. cbn [negb].
      unfold requestEmoji. rewrite Hen, Htruthy. cbn [negb orb].
      unfold regressionBlocked.
      rewrite (bool_decide_eq_false_2 (term = DISCORD_STATUS_STALL_SOFT_EMOJI)) by done.
      rewrite (bool_decide_eq_false_2 (term = initialEmoji p)) by done.
      by rewrite !andb_false_r. }
  assert (Hfacts : chain s1 = chain s ++ [Apply term] ∧ log s1 = log s
                   ∧ finished s1 = true ∧ pendingEmoji s1 = None
                   ∧ semanticPhase s1 = PTerminal).
  { destruct Hs1 as [->|[Hph ->]]; by split_and!. }
  destruct Hfacts as (Hc1 & Hl1 & Hf1 & Hp1 & Hph1).
  destruct (closed_run later s1 Hlater Hf1 Hp1) as (Hf2 & Hp2 & Hph2 & X & Hl2 & Hs2).
  fold s2 in Hf2, Hp2, Hph2, Hl2, Hs2.
  split_and!; [done|done|done|congruence|done|].
  exists X. rewrite Hl2, Hl1. split; [done|].
  by rewrite Hc1, pendingReacts_app in Hs2.
Qed.

End CtlTerminal.

Lemma terminal_icon_is_last_witness :
  let p := {| Ctl.enabled := true; Ctl.transitionMode := Ctl.Full;
              Ctl.initialEmoji := [0xD83D; 0xDC40] |} in
  let s := Ctl.run asciiLower p
             [Ctl.SetQueued; Ctl.ChainStep Resolved; Ctl.ChainStep Resolved;
              Ctl.SetThinking] (Ctl.init 0) in
  let s1 := Ctl.step asciiLower p Ctl.SetDone s in
  let s2 := Ctl.run asciiLower p
              [Ctl.Advance 150; Ctl.FirePending; Ctl.SetThinking;
               Ctl.ChainStep Resolved; Ctl.ChainStep Resolved;
               Ctl.Advance 30000; Ctl.FireHardStall; Ctl.ChainStep Resolved] s1 in
  Ctl.chain s1 = [Ctl.Apply Ctl.DISCORD_STATUS_DONE_EMOJI]
  ∧ Ctl.finished s2 = true
  ∧ Ctl.pendingEmoji s2 = None.
Proof.
  destruct (terminal_icon_is_last asciiLower
              {| Ctl.enabled := true; Ctl.transitionMode := Ctl.Full;
                 Ctl.initialEmoji := [0xD83D; 0xDC40] |} true
              [Ctl.Advance 150; Ctl.FirePending; Ctl.SetThinking;
               Ctl.ChainStep Resolved; Ctl.ChainStep Resolved;
               Ctl.Advance 30000; Ctl.FireHardStall; Ctl.ChainStep Resolved]
              (Ctl.run asciiLower
                 {| Ctl.enabled := true; Ctl.transitionMode := Ctl.Full;
                    Ctl.initialEmoji := [0xD83D; 0xDC40] |}
                 [Ctl.SetQueued; Ctl.ChainStep Resolved; Ctl.ChainStep Resolved;
                  Ctl.SetThinking] (Ctl.init 0)))
    as (Hc & _ & Hf & _ & Hp & _); [reflexivity|discriminate|reflexivity|].
  exact (conj Hc (conj Hf Hp)).
Defined.

(** ** The reaction status machine: holding and removing the terminal icon *)

Section RSMHold.

Import RSM.

Variable toLowerCase : jsstring → jsstring.
Variable hasOnError : bool.

Local Abbreviation step' := (step toLowerCase hasOnError).
Local Abbreviation run' := (run toLowerCase hasOnError).

(** A closure of [setEmojiImmediate] alone in the lane is through after
    three steps, whatever the promises of its calls do: its icon is the
    current one, and its caller has gone on. *)
Lemma setEmoji_runs (e : DiscordWorkEmoji) (hold : option Z)
    (r1 r2 r3 : response) (s : state) :
  disposed s = false → lane s = [{| body := SetEmoji e; holdMs := hold |}] →
  returnsPromise r1 = true → returnsPromise r2 = true →
  returnsPromise r3 = true →
  let s' := run' [LaneStep r1; LaneStep r2; LaneStep r3] s in
  lane s' = [] ∧ currentEmoji s' = Some e
  ∧ clearTimer s' = match hold with
                    | Some h => TArmed (now s + h)
                    | None => clearTimer s
                    end
  ∧ disposed s' = false ∧ terminal s' = terminal s ∧ now s' = now s
  ∧ setsOf (log s')
    = setsOf (log s) ++ (if bool_decide (Some e = currentEmoji s) then [] else [e])
  ∧ clearsOf (log s') = clearsOf (log s) ++ option_list
                          (if bool_decide (Some e = currentEmoji s) then None
                           else currentEmoji s).
Proof.
  destruct s as [cur pend last disp term db soft hard clr ln nw lg esc].
  simpl. intros -> -> H1 H2 H3.
  assert (Hsets : ∀ l1 l2, setsOf (l1 ++ l2) = setsOf l1 ++ setsOf l2).
  { intros. unfold setsOf. by rewrite fmap_app, join_app. }
  assert (Hclears : ∀ l1 l2, clearsOf (l1 ++ l2) = clearsOf l1 ++ clearsOf l2).
  { intros. apply omap_app. }
  unfold laneStep, onError. cbn -[setsOf clearsOf].
  case_bool_decide as Hsame; cbn -[setsOf clearsOf].
  { rewrite !app_nil_r. destruct hold; cbn; by split_and!. }
  destruct cur as [prev|]; cbn -[setsOf clearsOf].
  - destruct r1 as [|e1|e1]; [| |done]; destruct r2 as [|e2|e2]; try done;
      destruct hasOnError, hold; cbn -[setsOf clearsOf];
      rewrite ?Hsets, ?Hclears; cbn; by rewrite ?app_nil_r.
  - destruct r1 as [|e1|e1]; [| |done];
      destruct hasOnError, hold; cbn -[setsOf clearsOf];
      rewrite ?Hsets, ?Hclears; cbn; by rewrite ?app_nil_r.
Qed.

(** X12.  The terminal icon is held, then removed.  On a machine that is
    neither disposed nor terminal and whose lane is idle, [succeed] (or
    [fail]) has, once its closure has run (three lane steps, whether the
    platform's promises resolve or reject), the terminal icon as the current
    one and the clear timer armed 1.5 s (or 4 s) ahead.  The timer cannot run
    earlier; when it runs, the machine is disposed with every timer cleared
    and one closure queued, which calls [clearReaction] for the terminal
    icon. *)
Theorem terminal_icon_held_then_removed (ok : bool) (r1 r2 r3 r4 : response)
    (dt : Z) (s : state) :
  let term := if ok then Check else Cross in
  let hold := if ok then 1500%Z else 4000%Z in
  let s2 := run' [if ok then Succeed else Fail;
                  LaneStep r1; LaneStep r2; LaneStep r3] s in
  let s3 := step' FireClear (step' (Advance dt) s2) in
  disposed s = false → terminal s = false → lane s = [] →
  returnsPromise r1 = true → returnsPromise r2 = true →
  returnsPromise r3 = true →
  lane s2 = [] ∧ currentEmoji s2 = Some term
  ∧ clearTimer s2 = TArmed (now s + hold)
  ∧ terminal s2 = true ∧ disposed s2 = false
  ∧ ((dt < hold)%Z → s3 = step' (Advance dt) s2)
  ∧ ((hold ≤ dt)%Z →
       disposed s3 = true ∧ currentEmoji s3 = None
       ∧ lane s3 = [{| body := ClearReaction term; holdMs := None |}]
       ∧ clearTimer s3 = TNull ∧ debounceTimer s3 = TNull
       ∧ softStallTimer s3 = TNull ∧ hardStallTimer s3 = TNull
       ∧ lane (step' (LaneStep r4) s3) = []
       ∧ clearsOf (log (step' (LaneStep r4) s3)) = clearsOf (log s3) ++ [term]).
Proof.
  intros term hold s2 s3 Hd Ht Hidle H1 H2 H3.
  set (s1 := step' (if ok then Succeed else Fail) s).
  assert (Hs1 : disposed s1 = false ∧ terminal s1 = true ∧ now s1 = now s
                ∧ lane s1 = [{| body := SetEmoji term; holdMs := Some hold |}]).
  { assert (Hfin : s1 = finish term hold s) by (unfold s1; by destruct ok).
    rewrite Hfin. unfold finish. rewrite Hd, Ht. cbn [orb].
    unfold enqueue. destruct (timerSet _); cbn; by rewrite Hidle, ?Hd. }
  destruct Hs1 as (Hd1 & Ht1 & Hn1 & Hl1).
  destruct (setEmoji_runs term (Some hold) r1 r2 r3 s1 Hd1 Hl1 H1 H2 H3)
    as (Hl2 & Hc2 & Hclr2 & Hd2 & Ht2 & Hn2 & _).
  change (run' [LaneStep r1; LaneStep r2; LaneStep r3] s1) with s2 in *.
  rewrite Hn1 in Hclr2. rewrite Hn1 in Hn2.
  assert (Hpos : (0 < hold)%Z) by (unfold hold; destruct ok; lia).
  split_and!; [done|done|done|congruence|done|..].
  - intros Hdt. unfold s3. cbn [step]. cbn [clearTimer now setNow].
    rewrite Hclr2, Hn2. cbn [timerDue].
    by rewrite (proj2 (Z.leb_gt _ _)) by lia.
  - intros Hdt.
    assert (Hs3 : s3 = enqueue (ClearReaction term) None
                         (setCurrentEmoji None
                            (clearTimers
                               (setDisposed true
                                  (setClearTimer TSpent (step' (Advance dt) s2)))))).
    { unfold s3. cbn [step]. cbn [clearTimer now setNow].
      rewrite Hclr2, Hn2. cbn [timerDue].
      rewrite (proj2 (Z.leb_le _ _)) by lia.
      unfold dispose. cbn [disposed setClearTimer setNow]. rewrite Hd2.
      cbn [currentEmoji clearTimers setClearTimer setStallTimers setDebounce
             setDisposed setNow]. by rewrite Hc2. }
    rewrite Hs3. clear Hs3. clearbody s3 s2.
    unfold enqueue. cbn. rewrite Hl2. cbn.
    split_and!; try done.
    + unfold onError. destruct r4, hasOnError; reflexivity.
    + unfold onError.
      destruct r4, hasOnError; cbn -[clearsOf]; unfold clearsOf;
        rewrite ?omap_app; cbn; rewrite ?app_nil_r; reflexivity.
Qed.

End RSMHold.

Lemma terminal_icon_held_then_removed_witness :
  let s := RSM.run asciiLower true
             [RSM.Start; RSM.LaneStep Resolved; RSM.LaneStep Resolved]
             (RSM.init 0) in
  let s2 := RSM.run asciiLower true
              [RSM.Succeed; RSM.LaneStep (Rejected "gone");
               RSM.LaneStep Resolved; RSM.LaneStep Resolved] s in
  let s3 := RSM.step asciiLower true RSM.FireClear
              (RSM.step asciiLower true (RSM.Advance 1500) s2) in
  RSM.currentEmoji s2 = Some RSM.Check
  ∧ RSM.clearTimer s2 = TArmed (RSM.now s + 1500)
  ∧ RSM.disposed s3 = true.
Proof.
  intros s s2 s3.
  destruct (terminal_icon_held_then_removed asciiLower true true
              (Rejected "gone") Resolved Resolved Resolved 1500 s)
    as (_ & Hc & Hclr & _ & _ & _ & Hfire); [reflexivity..|].
  destruct Hfire as (Hd & _); [lia|].
  exact (conj Hc (conj Hclr Hd)).
Defined.

(** ** The debounce of the reaction status machine *)

Section RSMDebounce.

Import RSM.

Variable toLowerCase : jsstring → jsstring.
Variable hasOnError : bool.

Local Abbreviation step' := (step toLowerCase hasOnError).
Local Abbreviation run' := (run toLowerCase hasOnError).

(** A middle-state signal on a machine that is running. *)
Lemma signal_step_live (sig : event) (e : DiscordWorkEmoji) (s : state) :
  disposed s = false → terminal s = false →
  middleOf toLowerCase sig = Some e →
  let s' := step' sig s in
  lane s' = lane s ∧ log s' = log s ∧ currentEmoji s' = currentEmoji s
  ∧ disposed s' = false ∧ terminal s' = false
  ∧ (if bool_decide (currentEmoji s = Some e)
     then pendingMiddleEmoji s' = pendingMiddleEmoji s
          ∧ debounceTimer s' = debounceTimer s
     else pendingMiddleEmoji s' = Some e).
Proof.
  intros Hd Ht He.
  assert (Hstep : step' sig s = scheduleMiddleState e (markProgress s)).
  { destruct sig; simplify_eq/=; unfold thinking, tool; by rewrite Hd, Ht. }
  cbn zeta. rewrite Hstep.
  unfold scheduleMiddleState, markProgress, scheduleStallChecks. cbn.
  rewrite Hd, Ht. cbn. rewrite Hd, Ht. cbn.
  case_bool_decide as Hcur; cbn; [done|].
  case_bool_decide as Hpend; cbn; done.
Qed.

Lemma burst_run_machine (pre : list event) (s : state) :
  disposed s = false → terminal s = false →
  forallb burstEvent pre = true →
  let s' := run' pre s in
  lane s' = lane s ∧ log s' = log s ∧ currentEmoji s' = currentEmoji s
  ∧ disposed s' = false ∧ terminal s' = false.
Proof.
  revert s. induction pre as [|ev pre IH]; intros s Hd Ht Hb; cbn zeta; [done|].
  simpl in Hb. apply andb_prop in Hb as [Hev Hpre]. cbn [run foldl].
  change (foldl _ ?a ?l) with (run' l a).
  assert (Hstep : lane (step' ev s) = lane s ∧ log (step' ev s) = log s
                  ∧ currentEmoji (step' ev s) = currentEmoji s
                  ∧ disposed (step' ev s) = false
                  ∧ terminal (step' ev s) = false).
  { destruct (middleOf toLowerCase ev) as [e|] eqn:He.
    - by destruct (signal_step_live ev e s Hd Ht He) as (? & ? & ? & ? & ? & _).
    - destruct ev; simplify_eq/=; [|done].
      unfold progress, markProgress, scheduleStallChecks. rewrite Hd, Ht. cbn.
      by rewrite Hd, Ht. }
  destruct Hstep as (Hl & Hg & Hc & Hd1 & Ht1).
  destruct (IH (step' ev s) Hd1 Ht1 Hpre) as (Hl' & Hg' & Hc' & Hd' & Ht').
  cbn zeta in *. rewrite Hl', Hg', Hc'. by split_and!.
Qed.

(** X13.  The debounce of the machine coalesces a burst of signals.  Take
    any reachable state in which the machine is running (not disposed, not
    terminal), any burst of progress signals and time passing, and one more
    signal, for a middle-state icon.  The burst and the signal queue nothing
    and call nothing.  If the icon of the last signal is not the one on
    display, it is the pending icon afterwards, whatever was pending before,
    and the debounce timer runs at most 700 ms later; when it runs, exactly
    one closure is queued, for that icon.  (If the icon is the one on
    display, the signal leaves the debounce as it was.) *)
Theorem machine_debounce_coalesces (t0 dt : Z) (history pre : list event)
    (sig : event) (e : DiscordWorkEmoji) :
  let s := run' history (init t0) in
  let s0 := run' pre s in
  let s1 := step' sig s0 in
  let s2 := step' FireDebounce (step' (Advance dt) s1) in
  disposed s = false → terminal s = false →
  forallb burstEvent pre = true →
  middleOf toLowerCase sig = Some e →
  (700 ≤ dt)%Z →
  lane s1 = lane s ∧ log s1 = log s ∧ currentEmoji s1 = currentEmoji s
  ∧ (if bool_decide (currentEmoji s = Some e)
     then pendingMiddleEmoji s1 = pendingMiddleEmoji s0
          ∧ debounceTimer s1 = debounceTimer s0
     else pendingMiddleEmoji s1 = Some e
          ∧ lane s2 = lane s ++ [{| body := SetEmoji e; holdMs := None |}]
          ∧ pendingMiddleEmoji s2 = None ∧ debounceTimer s2 = TNull
          ∧ log s2 = log s).
Proof.
  intros s s0 s1 s2 Hd Ht Hb He Hdt.
  destruct (burst_run_machine pre s Hd Ht Hb) as (Hl0 & Hg0 & Hc0 & Hd0 & Ht0).
  fold s0 in Hl0, Hg0, Hc0, Hd0, Ht0.
  destruct (signal_step_live sig e s0 Hd0 Ht0 He) as (Hl1 & Hg1 & Hc1 & Hd1 & Ht1 & Hp1).
  fold s1 in Hl1, Hg1, Hc1, Hd1, Ht1, Hp1. rewrite Hc0 in Hp1.
  split_and!; [congruence..|].
  case_bool_decide as Hcur; [done|].
  assert (Hbound : debounceBound s1).
  { unfold s1, s0, s. apply debounceBound_step, debounceBound_run, debounceBound_run.
    intros _ Hp. by destruct Hp. }
  destruct (Hbound Hd1) as (d & Hdb & Hle); [by rewrite Hp1|].
  assert (Hfire : s2 = enqueue (SetEmoji e) None
                         (setDebounce None TNull (step' (Advance dt) s1))).
  { unfold s2. cbn [step]. cbn [debounceTimer now setNow]. rewrite Hdb.
    cbn [timerDue]. unfold MIDDLE_STATE_DEBOUNCE_MS in Hle.
    rewrite (proj2 (Z.leb_le _ _)) by lia.
    unfold debounceCallback. cbn [pendingMiddleEmoji setNow]. rewrite Hp1.
    cbn [disposed terminal currentEmoji setDebounce setNow].
    rewrite Hd1, Ht1, Hc1, Hc0. cbn [orb].
    rewrite bool_decide_eq_false_2; [done|]. congruence. }
  rewrite Hfire. unfold enqueue. cbn. by rewrite Hl1, Hl0, Hg1, Hg0.
Qed.

End RSMDebounce.

Lemma machine_debounce_coalesces_witness :
  let s := RSM.run asciiLower true
             [RSM.Start; RSM.LaneStep Resolved; RSM.LaneStep Resolved]
             (RSM.init 0) in
  let s1 := RSM.step asciiLower true RSM.Thinking
              (RSM.run asciiLower true
                 [RSM.Thinking; RSM.Advance 100;
                  RSM.Tool (Some (js "web_search")); RSM.Advance 100] s) in
  let s2 := RSM.step asciiLower true RSM.FireDebounce
              (RSM.step asciiLower true (RSM.Advance 700) s1) in
  RSM.pendingMiddleEmoji s1 = Some RSM.Brain
  ∧ RSM.lane s2
    = RSM.lane s ++ [{| RSM.body := RSM.SetEmoji RSM.Brain; RSM.holdMs := None |}].
Proof.
  intros s s1 s2.
  destruct (machine_debounce_coalesces asciiLower true 0 700
              [RSM.Start; RSM.LaneStep Resolved; RSM.LaneStep Resolved]
              [RSM.Thinking; RSM.Advance 100;
               RSM.Tool (Some (js "web_search")); RSM.Advance 100]
              RSM.Thinking RSM.Brain)
    as (_ & _ & _ & Hcase); [reflexivity|reflexivity|reflexivity|reflexivity|lia|].
  rewrite bool_decide_eq_false_2 in Hcase by (vm_compute; discriminate).
  destruct Hcase as (Hp & Hl & _).
  exact (conj Hp Hl).
Defined.

(** ** The status indicator in the message handler *)

Section CtlTerminalCall.

Import Ctl.

Variable toLowerCase : jsstring → jsstring.
Variable p : params.

(** What an accepted terminal call leaves behind. *)
Lemma terminal_call_effect (ok : bool) (s : state) :
  let term := if ok then DISCORD_STATUS_DONE_EMOJI
              else DISCORD_STATUS_ERROR_EMOJI in
  let s1 := step toLowerCase p (if ok then SetDone else SetError) s in
  transitionsAllowed p = true → term ≠ initialEmoji p →
  chain s1 = chain s ++ [Apply term] ∧ log s1 = log s
  ∧ finished s1 = true ∧ semanticPhase s1 = PTerminal
  ∧ pendingEmoji s1 = None ∧ pendingTimer s1 = TNull
  ∧ softStallTimer s1 = TNull ∧ hardStallTimer s1 = TNull
  ∧ activeEmoji s1 = activeEmoji s.
Proof.
  intros term s1 Hta Hinit.
  assert (Hen : enabled p = true).
  { unfold transitionsAllowed in Hta. by apply andb_prop in Hta as [? _]. }
  assert (Hterm : truthy term = true ∧ term ≠ DISCORD_STATUS_STALL_SOFT_EMOJI)
    by (by destruct ok).
  destruct Hterm as [Htruthy Hsoft].
  assert (Hstep : s1 = setTerminal p term s) by (unfold s1; by destruct ok).
  rewrite Hstep. unfold setTerminal. rewrite Hta. cbn [negb].
  assert (Hreq : ∀ s0, hasReachedActivePhase s0 = true →
            requestEmoji p term true false s0
            = applyEmoji term (clearPendingDebounce s0)).
  { intros s0 Hact. unfold requestEmoji. rewrite Hen, Htruthy. cbn [negb orb].
    unfold regressionBlocked. rewrite Hact.
    rewrite (bool_decide_eq_false_2 (term = DISCORD_STATUS_STALL_SOFT_EMOJI)) by done.
    by rewrite (bool_decide_eq_false_2 (term = initialEmoji p)) by done. }
  unfold transitionSemanticPhase. case_bool_decide as Hph.
  - rewrite bool_decide_eq_true_2 by done. cbn [negb].
    rewrite Hreq by (unfold hasReachedActivePhase; cbn; by rewrite Hph).
    by split_and!.
  - assert (Hlt : (DISCORD_STATUS_PHASE_ORDER PTerminal
                   <? DISCORD_STATUS_PHASE_ORDER (semanticPhase s))%Z = false)
      by (by destruct (semanticPhase s)).
    rewrite Hlt. cbn [negb]. rewrite Hreq by done. by split_and!.
Qed.

(** A terminal call whatever the initial icon is: when the terminal icon is
    the initial icon, [requestEmoji] drops the request, and with it the
    clearing of the debounce. *)
Lemma terminal_call_general (ok : bool) (s : state) :
  let term := if ok then DISCORD_STATUS_DONE_EMOJI
              else DISCORD_STATUS_ERROR_EMOJI in
  let s1 := step toLowerCase p (if ok then SetDone else SetError) s in
  transitionsAllowed p = true →
  chain s1 = chain s ++ (if bool_decide (initialEmoji p = term) then []
                         else [Apply term])
  ∧ finished s1 = true ∧ semanticPhase s1 = PTerminal
  ∧ pendingEmoji s1 = (if bool_decide (initialEmoji p = term)
                       then pendingEmoji s else None)
  ∧ softStallTimer s1 = TNull ∧ hardStallTimer s1 = TNull.
Proof.
  intros term s1 Hta.
  case_bool_decide as Hinit.
  - assert (Hen : enabled p = true).
    { unfold transitionsAllowed in Hta. by apply andb_prop in Hta as [? _]. }
    assert (Htruthy : truthy term = true) by (by destruct ok).
    assert (Hstep : s1 = setTerminal p term s) by (unfold s1; by destruct ok).
    rewrite Hstep. unfold setTerminal. rewrite Hta. cbn [negb].
    assert (Hreq : ∀ s0, hasReachedActivePhase s0 = true →
              requestEmoji p term true false s0 = s0).
    { intros s0 Hact. unfold requestEmoji. rewrite Hen, Htruthy. cbn [negb orb].
      unfold regressionBlocked. rewrite Hact.
      rewrite (bool_decide_eq_true_2 (term = initialEmoji p)) by done.
      cbn. by rewrite orb_true_r. }
    unfold transitionSemanticPhase. case_bool_decide as Hph.
    + rewrite bool_decide_eq_true_2 by done. cbn [negb].
      rewrite Hreq by (unfold hasReachedActivePhase; cbn; by rewrite Hph).
      rewrite app_nil_r. by split_and!.
    + assert (Hlt : (DISCORD_STATUS_PHASE_ORDER PTerminal
                     <? DISCORD_STATUS_PHASE_ORDER (semanticPhase s))%Z = false)
        by (by destruct (semanticPhase s)).
      rewrite Hlt. cbn [negb]. rewrite Hreq by done.
      rewrite app_nil_r. by split_and!.
  - destruct (terminal_call_effect ok s Hta) as (? & _ & ? & ? & ? & _ & ? & ? & _).
    { intros Heq. apply Hinit. symmetry. exact Heq. }
    by split_and!.
Qed.

Lemma restoreInitial_leaves (s : state) :
  enabled p = true →
  let s1 := restoreInitial p s in
  finished s1 = true ∧ pendingEmoji s1 = None ∧ pendingTimer s1 = TNull
  ∧ softStallTimer s1 = TNull ∧ hardStallTimer s1 = TNull.
Proof.
  intros Hen. unfold restoreInitial, requestEmoji. rewrite Hen. cbn.
  by repeat case_match.
Qed.

Lemma setWaiting_finished (s : state) :
  finished (setWaiting p s) = finished s.
Proof.
  unfold setWaiting, transitionSemanticPhase, requestEmoji.
  repeat (case_match; simplify_eq/=); done.
Qed.

End CtlTerminalCall.

Section HandlerProperties.

Import Handler.

Variable toLowerCase : jsstring → jsstring.

Lemma transitions_need_reactions (h : params) :
  statusTransitionsEnabled h = true →
  statusReactionsEnabled h = true ∧ truthy (ackReaction h) = true
  ∧ Ctl.transitionsAllowed (controllerParams h) = true.
Proof.
  intros Hta. split_and!; [| |exact Hta].
  - unfold statusTransitionsEnabled in Hta. by apply andb_prop in Hta as [? _].
  - unfold statusTransitionsEnabled, statusReactionsEnabled in Hta.
    by apply andb_prop in Hta as [[? _]%andb_prop _].
Qed.

(** X14.  A dispatch that ends with an error, or without any queue
    outcome, finishes the indicator.  With transitions enabled, the [finally]
    block calls [setError] (after an error, whatever queue outcome was
    recorded) or [setDone]; then, when the acknowledgement is to be removed,
    it leaves [clear] to a task that first sleeps 2.5 s (after an error) or
    1.5 s, and otherwise calls [restoreInitial] at once.  On the controller
    this queues the terminal icon, unless it is the acknowledgement icon
    itself, which [requestEmoji] drops once the active phase is reached;
    and, unless the acknowledgement is to be removed, it queues the
    acknowledgement icon right behind, unless that is the hourglass, which
    [requestEmoji] drops as well.  The controller is finished and terminal
    with no stall timer left, and with no pending icon left except when the
    terminal request was dropped and the acknowledgement is to be removed,
    where the debounce stays as it was. *)
Theorem plain_dispatch_finishes_indicator (h : params)
    (err started : bool) (v : vars) (c : Ctl.state) :
  let term := if err then Ctl.DISCORD_STATUS_ERROR_EMOJI
              else Ctl.DISCORD_STATUS_DONE_EMOJI in
  let f := finallyBlock h err started v in
  let c1 := Ctl.run toLowerCase (controllerParams h) (f_calls f) c in
  statusTransitionsEnabled h = true →
  err = true ∨ deferredQueueOutcome v = None →
  f_calls f = (if err then Ctl.SetError else Ctl.SetDone)
              :: (if removeAckAfterReply h then [] else [Ctl.RestoreInitial])
  ∧ f_later f = (if removeAckAfterReply h
                 then Some (if err then 2500%Z else 1500%Z, Ctl.Clear)
                 else None)
  ∧ f_vars f = v
  ∧ Ctl.chain c1
    = Ctl.chain c
      ++ (if bool_decide (ackReaction h = term) then [] else [Ctl.Apply term])
      ++ (if removeAckAfterReply h
             || bool_decide (ackReaction h = Ctl.DISCORD_STATUS_STALL_SOFT_EMOJI)
          then [] else [Ctl.Apply (ackReaction h)])
  ∧ Ctl.finished c1 = true ∧ Ctl.semanticPhase c1 = Ctl.PTerminal
  ∧ Ctl.pendingEmoji c1
    = (if removeAckAfterReply h && bool_decide (ackReaction h = term)
       then Ctl.pendingEmoji c else None)
  ∧ Ctl.softStallTimer c1 = TNull ∧ Ctl.hardStallTimer c1 = TNull.
Proof.
  intros term f c1 Hta Hplain.
  destruct (transitions_need_reactions h Hta) as (Hen & Hack & Hallowed).
  assert (Hf : f = {| f_vars := v;
                      f_calls := (if err then Ctl.SetError else Ctl.SetDone)
                                 :: (if removeAckAfterReply h then []
                                     else [Ctl.RestoreInitial]);
                      f_later := if removeAckAfterReply h
                                 then Some (if err then 2500%Z else 1500%Z, Ctl.Clear)
                                 else None |}).
  { unfold f, finallyBlock. rewrite Hen, Hta. cbn [negb].
    destruct err; cbn.
    - by destruct (removeAckAfterReply h).
    - destruct Hplain as [?| ->]; [done|]. cbn.
      by destruct (removeAckAfterReply h). }
  assert (Hev : (if negb err then Ctl.SetDone else Ctl.SetError)
                = (if err then Ctl.SetError else Ctl.SetDone))
    by (by destruct err).
  assert (Hicon : (if negb err then Ctl.DISCORD_STATUS_DONE_EMOJI
                   else Ctl.DISCORD_STATUS_ERROR_EMOJI) = term)
    by (by destruct err).
  pose proof (terminal_call_general toLowerCase (controllerParams h) (negb err) c
                Hallowed) as Hterm.
  cbn zeta in Hterm. rewrite Hev, Hicon in Hterm.
  change (Ctl.initialEmoji (controllerParams h)) with (ackReaction h) in Hterm.
  set (c0 := Ctl.step toLowerCase (controllerParams h)
               (if err then Ctl.SetError else Ctl.SetDone) c) in *.
  destruct Hterm as (Hc & Hfin & Hph & Hpe & Hs & Hh).
  unfold c1. rewrite Hf. cbn [f_calls f_later f_vars].
  split; [done|]. split; [done|]. split; [done|].
  destruct (removeAckAfterReply h); cbn [Ctl.run foldl orb andb]; fold c0.
  - rewrite app_nil_r. by split_and!.
  - destruct (restoreInitial_effect (controllerParams h) c0) as [Hr1 Hr2].
    destruct (restoreInitial_leaves (controllerParams h) c0) as (L1 & L2 & _ & L4 & L5).
    { exact (proj1 (andb_prop _ _ Hallowed)). }
    cbn zeta in L1, L2, L4, L5. cbn [Ctl.step].
    split_and!; [|exact L1|by rewrite Hr1|exact L2|exact L4|exact L5].
    rewrite Hr2, Hc.
    change (Ctl.initialEmoji (controllerParams h)) with (ackReaction h).
    change (Ctl.enabled (controllerParams h)) with (statusReactionsEnabled h).
    rewrite Hen, Hack. cbn [andb].
    unfold Ctl.hasReachedActivePhase. rewrite Hph. cbn [andb negb].
    change (Ctl.DISCORD_STATUS_PHASE_ORDER Ctl.PActive
            <=? Ctl.DISCORD_STATUS_PHASE_ORDER Ctl.PTerminal)%Z with true.
    cbn [andb].
    destruct (bool_decide (ackReaction h = Ctl.DISCORD_STATUS_STALL_SOFT_EMOJI));
      cbn [negb]; by rewrite <-?app_assoc, ?app_nil_r.
Qed.

End HandlerProperties.

Section HandlerOutcomes.

Import Handler.

Variable toLowerCase : jsstring → jsstring.

(** X15.  A run that was queued is left to the event bridge.  When
    [onFollowupQueued] reports the status [queued] under a non-blank
    identifier, the handler registers an entry for its own controller under
    the trimmed identifier.  If the dispatch then ends without error, the
    [finally] block makes no call that finishes or clears the indicator: it
    calls [setWaiting] when transitions are enabled and the deferred run has
    not started, and nothing otherwise, so the controller is as finished
    as it was.  The delayed [clear] is only set up when the acknowledgement
    is to be removed and the deferred run started while [setWaiting] was
    awaited. *)
Theorem queued_outcome_left_to_bridge (h : params) (self : nat) (o : outcome)
    (t0 : Z) (history : list Registry.event) (ls started : bool)
    (c : Ctl.state) :
  let reg := Registry.run history (Registry.init t0) in
  let rid := trim (o_runId o) in
  let res := onFollowupQueued h self o (initVars, reg) in
  let v := {| deferredQueueOutcome := deferredQueueOutcome res.1;
              deferredLifecycleStarted := ls;
              waitingTerminatedByOutcome := waitingTerminatedByOutcome res.1 |} in
  let f := finallyBlock h false started v in
  statusReactionsEnabled h = true → truthy rid = true →
  o_status o = js "queued" →
  Registry.byRun res.2 = <[rid := Registry.nextRef reg]> (Registry.byRun reg)
  ∧ Registry.heap res.2 !! Registry.nextRef reg
    = Some {| Registry.runId := rid;
              Registry.channelId := messageChannelId h;
              Registry.messageId := messageId h;
              Registry.removeAckAfterReply := removeAckAfterReply h;
              Registry.controller := self;
              Registry.onLifecycleStart := true;
              Registry.retryCleanupTimer := TNull |}
  ∧ f_calls f = (if statusTransitionsEnabled h && negb ls
                 then [Ctl.SetWaiting] else [])
  ∧ f_later f = (if removeAckAfterReply h && statusTransitionsEnabled h
                    && negb ls && started
                 then Some (1500%Z, Ctl.Clear) else None)
  ∧ existsb isCleanup (f_calls f) = false
  ∧ Ctl.finished (Ctl.run toLowerCase (controllerParams h) (f_calls f) c)
    = Ctl.finished c.
Proof.
  intros reg rid res v f Hen Hrid Hst.
  assert (Hres : res = (setDeferredQueueOutcome
                          {| o_runId := rid; o_status := o_status o;
                             o_reason := o_reason o |} initVars,
                        Registry.registerDeferredDiscordStatus
                          {| Registry.i_runId := rid;
                             Registry.i_channelId := messageChannelId h;
                             Registry.i_messageId := messageId h;
                             Registry.i_removeAckAfterReply := removeAckAfterReply h;
                             Registry.i_controller := self;
                             Registry.i_onLifecycleStart := true |} reg)).
  { unfold res, onFollowupQueued. rewrite Hen. cbn [negb]. fold rid.
    rewrite Hrid. cbn [negb]. by rewrite bool_decide_eq_true_2. }
  rewrite Hres. cbn [fst snd].
  pose proof (trim_idem (o_runId o)) as Hidem. fold rid in Hidem.
  destruct (register_effect
              {| Registry.i_runId := rid;
                 Registry.i_channelId := messageChannelId h;
                 Registry.i_messageId := messageId h;
                 Registry.i_removeAckAfterReply := removeAckAfterReply h;
                 Registry.i_controller := self;
                 Registry.i_onLifecycleStart := true |} reg)
    as (Hb & Hh & _); [cbn [Registry.i_runId]; by rewrite Hidem|].
  cbn [Registry.i_runId Registry.i_channelId Registry.i_messageId
       Registry.i_removeAckAfterReply Registry.i_controller
       Registry.i_onLifecycleStart] in Hb, Hh.
  rewrite Hidem in Hb, Hh.
  assert (Hf : f_calls f = (if statusTransitionsEnabled h && negb ls
                            then [Ctl.SetWaiting] else [])
               ∧ f_later f = (if removeAckAfterReply h && statusTransitionsEnabled h
                                 && negb ls && started
                              then Some (1500%Z, Ctl.Clear) else None)).
  { unfold f, v. rewrite Hres. unfold finallyBlock. rewrite Hen. cbn.
    rewrite Hst. cbn.
    destruct (statusTransitionsEnabled h), ls, (removeAckAfterReply h), started;
      by cbn. }
  destruct Hf as [Hcalls Hlater].
  split_and!; [done|done|done|done|..]; rewrite Hcalls;
    destruct (_ && _); cbn; try done.
  apply setWaiting_finished.
Qed.

End HandlerOutcomes.

Section HandlerTermination.

Import Handler.


End HandlerTermination.

Lemma plain_dispatch_finishes_indicator_witness :
  let h := {| Handler.ackReaction := [0xD83D; 0xDC40]; Handler.ackGate := true;
              Handler.statusReactionModeOff := false;
              Handler.removeAckAfterReply := false;
              Handler.messageChannelId := js "chan";
              Handler.messageId := js "msg" |} in
  let f := Handler.finallyBlock h false false Handler.initVars in
  Handler.f_calls f = [Ctl.SetDone; Ctl.RestoreInitial]
  ∧ Handler.f_later f = None.
Proof.
  intros h f.
  destruct (plain_dispatch_finishes_indicator asciiLower h false false
              Handler.initVars (Ctl.init 0))
    as (Hcalls & Hlater & _);
    [reflexivity|by right|].
  exact (conj Hcalls Hlater).
Defined.

Lemma queued_outcome_left_to_bridge_witness :
  let h := {| Handler.ackReaction := [0xD83D; 0xDC40]; Handler.ackGate := true;
              Handler.statusReactionModeOff := false;
              Handler.removeAckAfterReply := true;
              Handler.messageChannelId := js "chan";
              Handler.messageId := js "msg" |} in
  let o := {| Handler.o_runId := js " run-1 "; Handler.o_status := js "queued";
              Handler.o_reason := js "busy" |} in
  let res := Handler.onFollowupQueued h 7 o (Handler.initVars, Registry.init 0) in
  let v := {| Handler.deferredQueueOutcome := Handler.deferredQueueOutcome res.1;
              Handler.deferredLifecycleStarted := false;
              Handler.waitingTerminatedByOutcome :=
                Handler.waitingTerminatedByOutcome res.1 |} in
  let f := Handler.finallyBlock h false false v in
  Handler.f_calls f = [Ctl.SetWaiting] ∧ Handler.f_later f = None.
Proof.
  intros h o res v f.
  destruct (queued_outcome_left_to_bridge asciiLower h 7 o 0 [] false false
              (Ctl.init 0))
    as (_ & _ & Hcalls & Hlater & _); [reflexivity..|].
  exact (conj Hcalls Hlater).
Defined.


(** ** The draft preview of the message handler *)

Lemma startsWith_length (a b : jsstring) :
  startsWith a b = true → (length a ≤ length b)%nat.
Proof.
  revert b. induction a as [|x a IH]; intros [|y b]; simpl; try done; try lia.
  intros [_ H]%andb_prop. apply IH in H. lia.
Qed.

Lemma startsWith_same_length (a b : jsstring) :
  startsWith a b = true → length a = length b → a = b.
Proof.
  revert b. induction a as [|x a IH]; intros [|y b]; simpl; try done.
  intros [Hx H]%andb_prop [= Hlen]. apply N.eqb_eq in Hx as ->.
  f_equal. by apply IH.
Qed.

Lemma startsWith_app (a b : jsstring) : startsWith a (a ++ b) = true.
Proof.
  induction a as [|x a IH]; simpl; [done|]. by rewrite N.eqb_refl, IH.
Qed.

Lemma startsWith_trans (a b c : jsstring) :
  startsWith a b = true → startsWith b c = true → startsWith a c = true.
Proof.
  revert b c. induction a as [|x a IH]; intros [|y b] [|z c]; simpl; try done.
  intros [Hx Hab]%andb_prop [Hy Hbc]%andb_prop.
  apply N.eqb_eq in Hx as ->. rewrite Hy. simpl. by eapply IH.
Qed.

Lemma last_cons_default {A} (x d : A) (l : list A) :
  List.last (x :: l) d = List.last l x.
Proof.
  revert x d. induction l as [|y l IH]; intros x d; [done|].
  change (List.last (y :: l) d = List.last (y :: l) x).
  by rewrite (IH y d), (IH y x).
Qed.

Lemma last_app_default {A} (d : A) (l1 l2 : list A) :
  List.last (l1 ++ l2) d = List.last l2 (List.last l1 d).
Proof.
  revert d. induction l1 as [|x l1 IH]; intros d; [done|].
  change ((x :: l1) ++ l2) with (x :: (l1 ++ l2)).
  by rewrite !last_cons_default, IH.
Qed.

Section DraftProperties.

Import Draft.

Variable chunker : Type.
Variable chunkerReset : chunker → chunker.
Variable chunkerAppend : jsstring → chunker → chunker.
Variable chunkerDrain : bool → chunker → list jsstring * chunker.
Variable chunkerHasBuffered : chunker → bool.
Variable p : params.

Local Abbreviation update :=
  (updateDraftFromPartial chunker chunkerReset chunkerAppend chunkerDrain p).
Local Abbreviation state := (Draft.state chunker).

(** One partial text in partial mode: nothing is sent, or the text itself
    is, and then it is neither empty nor a prefix of the text sent before. *)
Lemma partial_step (text : option jsstring) (s : state) :
  discordStreamMode p = Partial →
  draftText (update text s) = draftText s
  ∧ ((calls (update text s) = calls s
      ∧ lastPartialText (update text s) = lastPartialText s)
     ∨ ∃ t, calls (update text s) = calls s ++ [Update t]
            ∧ lastPartialText (update text s) = t
            ∧ truthy t = true
            ∧ startsWith t (lastPartialText s) = false).
Proof.
  intros Hmode. unfold updateDraftFromPartial.
  destruct text as [t|]; [|by split; [|left]].
  destruct (negb (canStreamDraft p) || negb (truthy t)) eqn:Hgo;
    [by split; [|left]|].
  apply orb_false_elim in Hgo as [_ Ht]. apply negb_false_iff in Ht.
  case_bool_decide as Hsame; [by split; [|left]|].
  rewrite bool_decide_eq_true_2 by done. cbn [lastPartialText setHasStreamedMessage].
  destruct (truthy (lastPartialText s) && startsWith t (lastPartialText s)
            && (length t <? length (lastPartialText s))%nat) eqn:Hshrink;
    [by split; [|left]|].
  split; [done|]. right. exists t. split_and!; [done..|].
  destruct (startsWith t (lastPartialText s)) eqn:Hpre; [|done].
  exfalso. pose proof (startsWith_length _ _ Hpre) as Hle.
  destruct (decide (length t = length (lastPartialText s))) as [Heq|Hne].
  { by apply Hsame, startsWith_same_length. }
  assert (Hlt : (length t <? length (lastPartialText s))%nat = true)
    by (apply Nat.ltb_lt; lia).
  assert (Hlast : truthy (lastPartialText s) = true).
  { destruct (lastPartialText s); [|done]. by destruct t. }
  by rewrite Hlast, Hlt in Hshrink.
Qed.

(** X17.  In partial mode the preview never flickers back.  Whatever
    partial texts arrive (absent, empty, repeated, shorter, unrelated),
    every text handed to [draftStream.update] is non-empty and is not a
    prefix of the text handed over before it (so it is neither a repetition
    nor a shortened form of it); the first one is compared with the last
    partial text of the state the texts arrive in.  [lastPartialText] is the
    last text handed over, and the block draft is not touched.  The start of
    a new assistant message makes no call on the stream in this mode and,
    when there is a stream, empties [lastPartialText], so that the next
    non-empty text is handed over whatever it is. *)
Theorem partial_preview_never_shrinks (texts : list (option jsstring))
    (s : state) :
  discordStreamMode p = Partial →
  let s' := foldl (λ s text, update text s) s texts in
  let s'' := onAssistantMessageStart chunker chunkerReset p s' in
  (∃ new, calls s' = calls s ++ (Update <$> new)
          ∧ neverShrinks (lastPartialText s) new = true
          ∧ lastPartialText s' = List.last new (lastPartialText s)
          ∧ draftText s' = draftText s)
  ∧ calls s'' = calls s'
  ∧ lastPartialText s''
    = (if canStreamDraft p then [] else lastPartialText s').
Proof.
  intros Hmode. cbn zeta. split.
  - revert s. induction texts as [|text texts IH]; intros s.
    { exists []. simpl. by rewrite app_nil_r. }
    cbn [foldl]. destruct (IH (update text s)) as (new & Hc & Hn & Hl & Hd).
    destruct (partial_step text s Hmode)
      as [Hd1 [[Hc1 Hl1]|(t & Hc1 & Hl1 & Ht & Hpre)]].
    + exists new. rewrite Hc, Hl, Hd, Hc1, Hl1, Hd1. split_and!; try done.
      by rewrite <-Hl1.
    + exists (t :: new). rewrite Hc, Hl, Hd, Hc1, Hl1, Hd1, <-app_assoc.
      split_and!; try done.
      * simpl. rewrite Ht, Hpre. simpl. by rewrite <-Hl1.
      * by rewrite last_cons_default.
  - unfold onAssistantMessageStart, resetChunker, shouldSplitPreviewMessages,
      hasDraftChunker.
    rewrite Hmode. destruct (canStreamDraft p); cbn; done.
Qed.

Lemma updates_app (l1 l2 : list call) :
  updatesOf (l1 ++ l2) = updatesOf l1 ++ updatesOf l2.
Proof. apply omap_app. Qed.

(** The [emit] callback, chunk after chunk. *)
Lemma emitChunks_spec (chunks : list jsstring) (s : state) :
  let s' := emitChunks chunks s in
  calls s' = calls s ++ (Update <$> accumulate (draftText s) chunks)
  ∧ draftText s' = draftText s ++ concat chunks
  ∧ draftText s' = List.last (accumulate (draftText s) chunks) (draftText s)
  ∧ lastPartialText s' = lastPartialText s
  ∧ draftChunker s' = draftChunker s
  ∧ hasStreamedMessage s' = hasStreamedMessage s.
Proof.
  revert s. induction chunks as [|chunk rest IH]; intros s; cbn zeta.
  { simpl. by rewrite !app_nil_r. }
  cbn [emitChunks accumulate concat fmap list_fmap].
  destruct (IH (addCall (Update (draftText s ++ chunk))
                  (setDraftText (draftText s ++ chunk) s)))
    as (Hc & Hd & Hl & Hp & Hk & Hh).
  cbn zeta in *. split_and!.
  - rewrite Hc. cbn. by rewrite <-app_assoc.
  - rewrite Hd. cbn. by rewrite <-app_assoc.
  - rewrite Hl. cbn [draftText addCall setDraftText].
    by rewrite last_cons_default.
  - by rewrite Hp.
  - by rewrite Hk.
  - by rewrite Hh.
Qed.

Lemma accumulate_grows (base : jsstring) (chunks : list jsstring) :
  onlyGrows base (accumulate base chunks) = true.
Proof.
  revert base. induction chunks as [|chunk rest IH]; intros base; simpl; [done|].
  by rewrite startsWith_app, IH.
Qed.

Lemma onlyGrows_app (prev : jsstring) (l1 l2 : list jsstring) :
  onlyGrows prev l1 = true → onlyGrows (List.last l1 prev) l2 = true →
  onlyGrows prev (l1 ++ l2) = true.
Proof.
  revert prev. induction l1 as [|u l1 IH]; intros prev; [done|].
  cbn [onlyGrows app].
  intros [Hu Hl1]%andb_prop Hl2. rewrite Hu. cbn [andb]. apply IH; [done|].
  by rewrite last_cons_default in Hl2.
Qed.

(** One text that extends the last partial text, in block mode with a
    chunker: the chunks drained are appended to the draft one by one, each
    time handing the draft to [draftStream.update]. *)
Lemma block_step (t : jsstring) (s : state) :
  hasDraftChunker p = true → startsWith (lastPartialText s) t = true →
  ∃ new, calls (update (Some t) s) = calls s ++ (Update <$> new)
         ∧ onlyGrows (draftText s) new = true
         ∧ draftText (update (Some t) s) = List.last new (draftText s)
         ∧ lastPartialText (update (Some t) s)
           = (if truthy t then t else lastPartialText s).
Proof.
  intros Hchunker Hpre.
  assert (Hstream : canStreamDraft p = true
                    ∧ bool_decide (discordStreamMode p = Partial) = false).
  { unfold hasDraftChunker in Hchunker.
    apply andb_prop in Hchunker as [[Hs Hb]%andb_prop _].
    split; [done|]. apply bool_decide_eq_true in Hb.
    apply bool_decide_eq_false_2. congruence. }
  destruct Hstream as [Hs Hnp].
  unfold updateDraftFromPartial. rewrite Hs. cbn [negb orb].
  destruct (truthy t) eqn:Ht; cbn [negb];
    [|exists []; simpl; by rewrite app_nil_r].
  destruct (bool_decide (t = lastPartialText s)) eqn:Hsame.
  { apply bool_decide_eq_true in Hsame. exists []. simpl.
    by rewrite app_nil_r. }
  rewrite Hnp. cbn [lastPartialText setHasStreamedMessage]. rewrite Hpre.
  destruct (truthy (drop (length (lastPartialText s)) t)) eqn:Hdelta; cbn [negb].
  2:{ exists []. simpl. by rewrite app_nil_r. }
  rewrite Hchunker. cbn [negb].
  destruct (chunkerDrain false _) as [chunks c].
  destruct (emitChunks_spec chunks
              (setDraftChunker c
                 (setLastPartialText t
                    (setHasStreamedMessage true s))))
    as (Hc & _ & Hl & Hp & _).
  cbn zeta in *. exists (accumulate (draftText s) chunks).
  rewrite Hc, Hl, Hp. split_and!; try done. apply accumulate_grows.
Qed.

(** X18.  In block mode the preview only grows while the stream does.  With
    a chunker, whatever the chunker does: if each partial text extends the
    one before it (the first one extending the last partial text of the
    state), then every text handed to [draftStream.update] extends the one
    handed over before it, the first one extending the draft so far; the
    draft is the last text handed over, and [lastPartialText] extends the
    one of the state.  A [flushDraft] at any point hands over at most one
    more text, which extends the draft, and leaves [lastPartialText] alone. *)
Theorem block_preview_only_grows (texts : list jsstring) (s : state) :
  hasDraftChunker p = true →
  onlyGrows (lastPartialText s) texts = true →
  let s' := foldl (λ s t, update (Some t) s) s texts in
  let s'' := flushDraft chunker chunkerReset chunkerDrain chunkerHasBuffered p s' in
  (∃ new, calls s' = calls s ++ (Update <$> new)
          ∧ onlyGrows (draftText s) new = true
          ∧ draftText s' = List.last new (draftText s)
          ∧ startsWith (lastPartialText s) (lastPartialText s') = true)
  ∧ (∃ more, calls s'' = calls s' ++ (Update <$> more)
             ∧ onlyGrows (draftText s') more = true
             ∧ (length more ≤ 1)%nat
             ∧ startsWith (draftText s') (draftText s'') = true
             ∧ lastPartialText s'' = lastPartialText s').
Proof.
  intros Hchunker Hgrow. cbn zeta. split; cycle 1.
  { assert (Hs : canStreamDraft p = true).
    { unfold hasDraftChunker in Hchunker.
      by apply andb_prop in Hchunker as [[? _]%andb_prop _]. }
    unfold flushDraft. rewrite Hs, Hchunker. cbn [negb andb].
    set (s' := foldl _ s texts).
    assert (Hrefl : startsWith (draftText s') (draftText s') = true).
    { rewrite <-(app_nil_r (draftText s')) at 2. apply startsWith_app. }
    destruct (chunkerHasBuffered (draftChunker s')).
    2:{ exists []. simpl. rewrite app_nil_r. split_and!; try done; lia. }
    destruct (chunkerDrain true (draftChunker s')) as [chunks c].
    cbn [draftText setDraftText setDraftChunker].
    destruct (truthy (draftText s' ++ concat chunks)).
    - exists [draftText s' ++ concat chunks]. cbn.
      rewrite startsWith_app. split_and!; try done; lia.
    - exists []. cbn. rewrite app_nil_r, startsWith_app.
      split_and!; try done; lia. }
  revert s Hgrow. induction texts as [|t texts IH]; intros s Hgrow.
  { exists []. simpl. rewrite app_nil_r. split_and!; try done.
    rewrite <-(app_nil_r (lastPartialText s)) at 2. apply startsWith_app. }
  simpl in Hgrow. apply andb_prop in Hgrow as [Ht Hrest]. cbn [foldl].
  destruct (block_step t s Hchunker Ht) as (new1 & Hc1 & Hg1 & Hd1 & Hl1).
  assert (Hnext : onlyGrows (lastPartialText (update (Some t) s)) texts = true).
  { rewrite Hl1. destruct (truthy t) eqn:Htr; [done|].
    destruct t; [|done]. destruct (lastPartialText s); done. }
  destruct (IH (update (Some t) s) Hnext) as (new2 & Hc2 & Hg2 & Hd2 & Hl2).
  exists (new1 ++ new2).
  rewrite Hc2, Hc1, Hd2, Hd1, fmap_app, <-app_assoc.
  split_and!; try done.
  - apply onlyGrows_app; [done|]. by rewrite <-Hd1.
  - by rewrite last_app_default.
  - eapply startsWith_trans; [|exact Hl2]. rewrite Hl1.
    by destruct (truthy t);
      [|rewrite <-(app_nil_r (lastPartialText s)) at 2; apply startsWith_app].
Qed.

End DraftProperties.

Lemma partial_preview_never_shrinks_witness :
  let p := {| Draft.discordStreamMode := Draft.Partial;
              Draft.accountBlockStreamingEnabled := false;
              Draft.draftChunking := false |} in
  let s := {| Draft.lastPartialText := []; Draft.draftText := [];
              Draft.hasStreamedMessage := false; Draft.draftChunker := ();
              Draft.calls := [] |} in
  let s' := foldl (λ s text,
                     Draft.updateDraftFromPartial unit id (λ _ c, c)
                       (λ _ c, ([], c)) p text s) s
              [Some (js "Hello"); Some (js "Hell"); None; Some (js "Hello!")] in
  ∃ new, Draft.calls s' = Draft.calls s ++ (Draft.Update <$> new)
         ∧ Draft.neverShrinks (Draft.lastPartialText s) new = true
         ∧ Draft.lastPartialText s' = List.last new (Draft.lastPartialText s)
         ∧ Draft.draftText s' = Draft.draftText s.
Proof.
  intros p s s'.
  refine (proj1 (partial_preview_never_shrinks unit id (λ _ c, c)
                   (λ _ c, ([], c)) p
                   [Some (js "Hello"); Some (js "Hell"); None; Some (js "Hello!")]
                   s _)).
  reflexivity.
Defined.

Lemma block_preview_only_grows_witness :
  let p := {| Draft.discordStreamMode := Draft.Block;
              Draft.accountBlockStreamingEnabled := false;
              Draft.draftChunking := true |} in
  let s := {| Draft.lastPartialText := []; Draft.draftText := [];
              Draft.hasStreamedMessage := false; Draft.draftChunker := [];
              Draft.calls := [] |} in
  let s' := foldl (λ s t,
                     Draft.updateDraftFromPartial jsstring (λ _, [])
                       (λ delta c, c ++ delta) (λ _ c, ([c], [])) p (Some t) s) s
              [js "Hel"; js "Hello"; js "Hello, world"] in
  ∃ new, Draft.calls s' = Draft.calls s ++ (Draft.Update <$> new)
         ∧ Draft.onlyGrows (Draft.draftText s) new = true
         ∧ Draft.draftText s' = List.last new (Draft.draftText s)
         ∧ startsWith (Draft.lastPartialText s) (Draft.lastPartialText s') = true.
Proof.
  intros p s s'.
  refine (proj1 (block_preview_only_grows jsstring (λ _, [])
                   (λ delta c, c ++ delta) (λ _ c, ([c], []))
                   (λ c, truthy c) p
                   [js "Hel"; js "Hello"; js "Hello, world"] s _ _));
    reflexivity.
Defined.

Section HandlerIngress.

Import Handler.

Variable toLowerCase : jsstring → jsstring.

(** X19.  The first icon of a message.  When status reactions are enabled,
    the handler makes exactly one call on its new controller at ingress:
    [setWaiting] when transitions are enabled and the session is active or
    its lane busy, [setQueued] otherwise.  On the controller this queues
    exactly one closure, for the hourglass in the first case and for the
    acknowledgement icon in the second; the phase is [waiting] or [queued]
    accordingly, and the stall timers are armed (10 s and 30 s ahead) only
    for a queued message with transitions enabled.  Without transitions, the
    progress callbacks make no call on the controller. *)
Theorem ingress_first_icon (h : params) (sessionRunActive laneBusy : bool)
    (t0 : Z) :
  let waiting := statusTransitionsEnabled h && (sessionRunActive || laneBusy) in
  let armed := statusTransitionsEnabled h && negb waiting in
  let c := Ctl.run toLowerCase (controllerParams h)
             (ingress h sessionRunActive laneBusy) (Ctl.init t0) in
  statusReactionsEnabled h = true →
  ingress h sessionRunActive laneBusy
  = [if waiting then Ctl.SetWaiting else Ctl.SetQueued]
  ∧ Ctl.chain c
    = [Ctl.Apply (if waiting then Ctl.DISCORD_STATUS_STALL_SOFT_EMOJI
                  else ackReaction h)]
  ∧ Ctl.semanticPhase c = (if waiting then Ctl.PWaiting else Ctl.PQueued)
  ∧ Ctl.softStallTimer c = (if armed then TArmed (t0 + 10000) else TNull)
  ∧ Ctl.hardStallTimer c = (if armed then TArmed (t0 + 30000) else TNull)
  ∧ Ctl.log c = []
  ∧ (statusTransitionsEnabled h = false →
       onReasoningStream h = [] ∧ ∀ name, onToolStart h name = []).
Proof.
  intros waiting armed c Hen.
  assert (Hack : truthy (ackReaction h) = true).
  { unfold statusReactionsEnabled in Hen. by apply andb_prop in Hen as [? _]. }
  assert (Hing : ingress h sessionRunActive laneBusy
                 = [if waiting then Ctl.SetWaiting else Ctl.SetQueued]).
  { unfold ingress, waiting. rewrite Hen.
    by destruct (statusTransitionsEnabled h), sessionRunActive, laneBusy. }
  split; [exact Hing|].
  assert (Hallowed : Ctl.transitionsAllowed (controllerParams h)
                     = statusTransitionsEnabled h) by done.
  split_and!.
  6:{ intros Hoff. unfold onReasoningStream, onToolStart. by rewrite Hoff. }
  all: unfold c; rewrite Hing; unfold armed, waiting;
    destruct (statusTransitionsEnabled h) eqn:Hta;
    destruct sessionRunActive, laneBusy; cbn [andb orb negb Ctl.run foldl Ctl.step];
    unfold Ctl.setWaiting, Ctl.setQueued, Ctl.requestEmoji,
      Ctl.scheduleStallTimers, Ctl.regressionBlocked;
    rewrite ?Hallowed; cbn; rewrite ?Hen, ?Hack, ?Hallowed; cbn;
    rewrite ?Hallowed; cbn; done.
Qed.

End HandlerIngress.

Lemma ingress_first_icon_witness :
  let h := {| Handler.ackReaction := [0xD83D; 0xDC40]; Handler.ackGate := true;
              Handler.statusReactionModeOff := false;
              Handler.removeAckAfterReply := false;
              Handler.messageChannelId := js "chan";
              Handler.messageId := js "msg" |} in
  Handler.ingress h false true = [Ctl.SetWaiting]
  ∧ Ctl.chain (Ctl.run asciiLower (Handler.controllerParams h)
                 (Handler.ingress h false true) (Ctl.init 0))
    = [Ctl.Apply Ctl.DISCORD_STATUS_STALL_SOFT_EMOJI].
Proof.
  intros h.
  destruct (ingress_first_icon asciiLower h false true 0)
    as (Hing & Hchain & _); [reflexivity|].
  exact (conj Hing Hchain).
Defined.

Section HandlerPromotion.

Import Handler.

Variable toLowerCase : jsstring → jsstring.

(** X20.  A queued run is promoted when its execution starts.  After
    [onFollowupQueued] has reported [queued] under a non-blank identifier, a
    [lifecycle/start] event carrying the trimmed identifier reaches the
    handler's entry: its [onLifecycleStart] callback is called (the handler
    then knows the deferred run has started) and [setThinking] is called on
    the handler's controller; the entry stays registered.  On that
    controller, if transitions are enabled and it is neither finished nor
    terminal, the call makes the phase [active], arms the stall timers 10 s
    and 30 s ahead and, unless the acknowledgement icon is the thinking icon,
    puts the thinking icon in the debounce. *)
Theorem queued_run_promoted_by_lifecycle_start (h : params) (self : nat)
    (o : outcome) (t0 : Z) (history : list Registry.event) (c : Ctl.state) :
  let reg := Registry.run history (Registry.init t0) in
  let rid := trim (o_runId o) in
  let reg1 := (onFollowupQueued h self o (initVars, reg)).2 in
  let reg2 := Registry.step
                (Registry.AgentEvent (Registry.lifecycleEvent rid "start")) reg1 in
  let c1 := Ctl.step toLowerCase (controllerParams h) Ctl.SetThinking c in
  statusReactionsEnabled h = true → truthy rid = true →
  o_status o = js "queued" →
  Registry.trace reg2
  = Registry.trace reg1
    ++ [Registry.LifecycleStarted (Registry.nextRef reg);
        Registry.Call self Registry.SetThinking]
  ∧ Registry.byRun reg2 !! rid = Some (Registry.nextRef reg)
  ∧ (statusTransitionsEnabled h = true → Ctl.finished c = false →
     Ctl.semanticPhase c ≠ Ctl.PTerminal →
       Ctl.semanticPhase c1 = Ctl.PActive
       ∧ Ctl.finished c1 = false
       ∧ Ctl.softStallTimer c1 = TArmed (Ctl.now c + 10000)
       ∧ Ctl.hardStallTimer c1 = TArmed (Ctl.now c + 30000)
       ∧ Ctl.chain c1 = Ctl.chain c
       ∧ (ackReaction h ≠ Ctl.DISCORD_STATUS_THINKING_EMOJI →
            Ctl.pendingEmoji c1 = Some Ctl.DISCORD_STATUS_THINKING_EMOJI
            ∧ Ctl.pendingTimer c1 = TArmed (Ctl.now c + 150))).
Proof.
  intros reg rid reg1 reg2 c1 Hen Hrid Hst.
  set (entry := {| Registry.i_runId := rid;
                   Registry.i_channelId := messageChannelId h;
                   Registry.i_messageId := messageId h;
                   Registry.i_removeAckAfterReply := removeAckAfterReply h;
                   Registry.i_controller := self;
                   Registry.i_onLifecycleStart := true |}).
  assert (Hreg1 : reg1 = Registry.registerDeferredDiscordStatus entry reg).
  { unfold reg1, onFollowupQueued. rewrite Hen. cbn [negb]. fold rid.
    rewrite Hrid. cbn [negb]. by rewrite bool_decide_eq_true_2. }
  pose proof (trim_idem (o_runId o)) as Hidem. fold rid in Hidem.
  destruct (register_effect entry reg) as (Hb & Hh & Hready & _);
    [cbn [Registry.i_runId entry]; by rewrite Hidem|].
  cbn [Registry.i_runId Registry.i_channelId Registry.i_messageId
       Registry.i_removeAckAfterReply Registry.i_controller
       Registry.i_onLifecycleStart entry] in Hb, Hh.
  rewrite Hidem in Hb, Hh. rewrite <-Hreg1 in Hb, Hh, Hready.
  assert (Hr1 : Registry.byRun reg1 !! rid = Some (Registry.nextRef reg))
    by (by rewrite Hb, lookup_insert_eq).
  destruct (lifecycle_start_effect rid _ _ reg1 Hready Hr1 Hh)
    as (Hb2 & _ & _ & Ht2).
  fold reg2 in Hb2, Ht2. cbn in Ht2.
  split_and!; [exact Ht2|by rewrite Hb2|].
  intros Hta Hfin Hph.
  destruct (progress_step_live toLowerCase (controllerParams h) Ctl.SetThinking
              Ctl.DISCORD_STATUS_THINKING_EMOJI c Hta Hfin Hph eq_refl)
    as (Hc & _ & _ & Hf & Hp & _ & Hpend).
  fold c1 in Hc, Hf, Hp, Hpend.
  assert (Htimers : Ctl.softStallTimer c1 = TArmed (Ctl.now c + 10000)
                    ∧ Ctl.hardStallTimer c1 = TArmed (Ctl.now c + 30000)).
  { by destruct (progress_rearms_ctl toLowerCase (controllerParams h)
                   Ctl.SetThinking c eq_refl Hta Hfin Hph) as (Hs & Hh' & _). }
  destruct Htimers as [Hs Hh'].
  split_and!; try done.
  intros Hack. destruct Hpend as (? & ? & _); [|done].
  intros Heq. apply Hack. symmetry. exact Heq.
Qed.

End HandlerPromotion.

Lemma queued_run_promoted_by_lifecycle_start_witness :
  let h := {| Handler.ackReaction := [0xD83D; 0xDC40]; Handler.ackGate := true;
              Handler.statusReactionModeOff := false;
              Handler.removeAckAfterReply := false;
              Handler.messageChannelId := js "chan";
              Handler.messageId := js "msg" |} in
  let o := {| Handler.o_runId := js " run-1 "; Handler.o_status := js "queued";
              Handler.o_reason := js "busy" |} in
  let reg1 := (Handler.onFollowupQueued h 7 o
                 (Handler.initVars, Registry.run [] (Registry.init 0))).2 in
  let reg2 := Registry.step
                (Registry.AgentEvent
                   (Registry.lifecycleEvent (trim (Handler.o_runId o)) "start"))
                reg1 in
  Registry.trace reg2
  = Registry.trace reg1
    ++ [Registry.LifecycleStarted 0; Registry.Call 7 Registry.SetThinking]
  ∧ Registry.byRun reg2 !! trim (Handler.o_runId o) = Some 0%nat.
Proof.
  intros h o reg1 reg2.
  destruct (queued_run_promoted_by_lifecycle_start asciiLower h 7 o 0 []
              (Ctl.init 0))
    as (Htrace & Hreg & _); [reflexivity..|].
  exact (conj Htrace Hreg).
Defined.
